(** * The ngtsc translator: output-AST to TypeScript-AST lowering

    A shallow embedding of
    [packages/compiler-cli/src/ngtsc/translator/src/translator.ts].

    The visitor class [ExpressionTranslatorVisitor] is embedded as a pair of
    mutually recursive functions over the output AST of [@angular/compiler],
    written in a state-and-exception monad: the state is the visitor
    instance (its [imports] collaborator and its [externalSourceFiles] map)
    together with a log of the calls made to the outside world.

    Conventions.
    - The [typescript] factory ([ts.createBinary], [ts.createParen], ...) is
      an external library.  Each factory call is embedded as the node it
      builds, the parentheses included that the factory puts on its own
      account around an operand, a condition, a callee, a receiver, a class
      to instantiate and the expression of an expression statement (see
      "The parentheses the factory adds" in module [ts]).  The elements of
      a list (arguments, array elements, property values, initializers) and
      the two branches of a conditional are wrapped by the factory only
      when they are comma sequences, which the translator never builds;
      they are embedded as they are.  The text range and the flags the
      factory gives a node are not part of a node here.
    - [ts.Node] objects are mutable in the source ([ts.setSourceMapRange],
      [ts.addSyntheticLeadingComment]).  Here a node is a value carrying its
      source-map range and its synthetic leading comments, and the two
      mutators return the updated node.  Every node the translator mutates
      is one it has just built or just received from a child visit, so the
      value reading agrees with the source except for a [WrappedNodeExpr]
      whose wrapped node is visited more than once.
    - Classes and methods of [@angular/compiler], [./context] and
      [./import_manager] are not part of the translated file; their shape is
      taken from the way the translator uses them, and their behaviour is a
      parameter of the development unless stated otherwise. *)

From stdpp Require Import base option list gmap strings.
From Stdlib Require Import ZArith String Ascii Lia.

Local Open Scope string_scope.
Local Open Scope list_scope.
Local Open Scope Z_scope.

(* ===================================================================== *)
(** * The TypeScript side *)
(* ===================================================================== *)

Module ts.

(** [ts.ScriptTarget] without [JSON], as the translator's signature has
    it.  [ScriptTarget_value] is the numeric value of each member, which
    is what [<] and [>=] compare in the source. *)
Inductive ScriptTarget : Type :=
| ES3 | ES5 | ES2015 | ES2016 | ES2017 | ES2018 | ES2019 | ES2020 | ESNext.

Definition ScriptTarget_value (t : ScriptTarget) : Z :=
  match t with
  | ES3 => 0 | ES5 => 1 | ES2015 => 2 | ES2016 => 3 | ES2017 => 4
  | ES2018 => 5 | ES2019 => 6 | ES2020 => 7 | ESNext => 99
  end.

(** [ts.ScriptTarget[t]]: the reverse mapping of the numeric enum.
    [ESNext] and [Latest] share the value 99 and the later member wins. *)
Definition ScriptTarget_name (t : ScriptTarget) : string :=
  match t with
  | ES3 => "ES3" | ES5 => "ES5" | ES2015 => "ES2015" | ES2016 => "ES2016"
  | ES2017 => "ES2017" | ES2018 => "ES2018" | ES2019 => "ES2019"
  | ES2020 => "ES2020" | ESNext => "Latest"
  end.

Definition ScriptTarget_lt (a b : ScriptTarget) : bool :=
  ScriptTarget_value a <? ScriptTarget_value b.
Definition ScriptTarget_ge (a b : ScriptTarget) : bool :=
  ScriptTarget_value b <=? ScriptTarget_value a.

(** The members of [ts.NodeFlags] the translator uses. *)
Inductive NodeFlags : Type :=
| NodeFlags_None | NodeFlags_Let | NodeFlags_Const.

(** The members of [ts.SyntaxKind] the translator names. *)
Inductive SyntaxKind : Type :=
| MinusToken | PlusToken | AmpersandAmpersandToken | GreaterThanToken
| GreaterThanEqualsToken | AmpersandToken | SlashToken | EqualsEqualsToken
| EqualsEqualsEqualsToken | LessThanToken | LessThanEqualsToken
| PercentToken | AsteriskToken | ExclamationEqualsToken
| ExclamationEqualsEqualsToken | BarBarToken | EqualsToken
| ExclamationToken
| MultiLineCommentTrivia | SingleLineCommentTrivia.

(** [ts.createSourceMapSource(url, content, pos => pos)]. *)
Record SourceMapSource : Type := createSourceMapSource {
  fileName : string;
  text : string;
}.

(** The argument of [ts.setSourceMapRange]. *)
Record SourceMapRange : Type := {
  pos : Z;
  end_ : Z;
  source : option SourceMapSource;
}.

(** One entry of a node's synthetic leading comments. *)
Record SynthesizedComment : Type := {
  kind : SyntaxKind;
  comment_text : string;
  hasTrailingNewLine : bool;
}.

(** A node is its syntax together with the two pieces of emit
    information the translator writes. *)
Inductive Node : Type :=
| mkNode (syntax : Syntax)
         (sourceMapRange : option SourceMapRange)
         (leadingComments : list SynthesizedComment)
with Syntax : Type :=
| Identifier (text : string)
| NullKeyword
| TrueKeyword
| FalseKeyword
| StringLiteral (text : string)
| NumericLiteral (value : Z)
| ParenthesizedExpression (expression : Node)
| BinaryExpression (left : Node) (operator : SyntaxKind) (right : Node)
| PrefixUnaryExpression (operator : SyntaxKind) (operand : Node)
| ConditionalExpression (condition whenTrue whenFalse : Node)
| PropertyAccessExpression (expression name : Node)
| ElementAccessExpression (expression argument : Node)
| CallExpression (expression : Node) (arguments : list Node)
| NewExpression (expression : Node) (arguments : list Node)
| TypeOfExpression (expression : Node)
| FunctionExpression (name : option string) (parameters : list Node)
                     (body : Node)
| ArrayLiteralExpression (elements : list Node)
| ObjectLiteralExpression (properties : list Node)
| PropertyAssignment (name initializer : Node)
| ParameterDeclaration (name : string)
| Block (statements : list Node)
| NoSubstitutionTemplateLiteral (cooked raw : string)
| TemplateHead (cooked raw : string)
| TemplateMiddle (cooked raw : string)
| TemplateTail (cooked raw : string)
| TemplateExpression (head : Node) (templateSpans : list Node)
| TemplateSpan (expression literal : Node)
| TaggedTemplateExpression (tag template : Node)
| VariableDeclaration (name : string) (initializer : option Node)
| VariableDeclarationList (declarations : list Node) (flags : NodeFlags)
| VariableStatement (declarationList : Node)
| FunctionDeclaration (name : string) (parameters : list Node)
                      (body : Node)
| ExpressionStatement (expression : Node)
| ReturnStatement (expression : Node)
| IfStatement (expression thenStatement : Node)
              (elseStatement : option Node)
| ThrowStatement (expression : Node).

Definition syntax (n : Node) : Syntax :=
  match n with mkNode s _ _ => s end.
Definition sourceMapRange (n : Node) : option SourceMapRange :=
  match n with mkNode _ r _ => r end.
Definition leadingComments (n : Node) : list SynthesizedComment :=
  match n with mkNode _ _ c => c end.

(** A freshly built node has no emit information. *)
Definition createSynthesizedNode (s : Syntax) : Node := mkNode s None [].

Definition setSourceMapRange (n : Node) (r : SourceMapRange) : Node :=
  match n with mkNode s _ c => mkNode s (Some r) c end.

(** The new comment goes after the ones already there. *)
Definition addSyntheticLeadingComment
    (n : Node) (k : SyntaxKind) (t : string) (nl : bool) : Node :=
  match n with
  | mkNode s r c =>
      mkNode s r (c ++ [{| kind := k; comment_text := t;
                           hasTrailingNewLine := nl |}])
  end.

Definition isIdentifier (n : Node) : bool :=
  match syntax n with Identifier _ => true | _ => false end.

Definition createIdentifier (t : string) : Node :=
  createSynthesizedNode (Identifier t).

(** The argument of [ts.createLiteral] in the translator:
    [string | number | boolean].  A number is taken as an integer: a
    numeric literal is built from it whatever its value, and nothing
    below depends on which number it is. *)
Inductive Primitive : Type :=
| PString (s : string)
| PNumber (n : Z)
| PBoolean (b : bool).

Definition createLiteral (v : Primitive) : Node :=
  match v with
  | PString s => createSynthesizedNode (StringLiteral s)
  | PNumber n => createSynthesizedNode (NumericLiteral n)
  | PBoolean true => createSynthesizedNode TrueKeyword
  | PBoolean false => createSynthesizedNode FalseKeyword
  end.
Definition createNull : Node := createSynthesizedNode NullKeyword.
Definition createStringLiteral (t : string) : Node :=
  createSynthesizedNode (StringLiteral t).
Definition createParen (e : Node) : Node :=
  createSynthesizedNode (ParenthesizedExpression e).

(** ** The parentheses the factory adds

    The factory functions that take an operand, a callee or a receiver
    pass it through a parenthesizer first, so that the tree they build
    prints back to what was asked for.  What follows is those rules on
    the kinds of node at hand.  A node the factory wraps is wrapped by
    [createParen]: the new node has no comments and no source-map range,
    and the wrapped node keeps its own. *)

(** [getBinaryOperatorPrecedence], and [getOperatorPrecedence] at a binary
    expression: an assignment binds loosest, and a token that is no
    binary operator has the precedence -1. *)
Definition getBinaryOperatorPrecedence (op : SyntaxKind) : Z :=
  match op with
  | BarBarToken => 5
  | AmpersandAmpersandToken => 6
  | AmpersandToken => 9
  | EqualsEqualsToken | ExclamationEqualsToken
  | EqualsEqualsEqualsToken | ExclamationEqualsEqualsToken => 10
  | LessThanToken | GreaterThanToken
  | LessThanEqualsToken | GreaterThanEqualsToken => 11
  | PlusToken | MinusToken => 13
  | AsteriskToken | SlashToken | PercentToken => 14
  | _ => -1
  end.

Definition getBinaryExpressionPrecedence (op : SyntaxKind) : Z :=
  match op with
  | EqualsToken => 3
  | _ => getBinaryOperatorPrecedence op
  end.

(** [getExpressionPrecedence]: a kind that is no expression has the
    precedence -1.  A [new] expression is always built with an argument
    list here. *)
Definition getExpressionPrecedence (n : Node) : Z :=
  match syntax n with
  | ConditionalExpression _ _ _ => 4
  | BinaryExpression _ op _ => getBinaryExpressionPrecedence op
  | PrefixUnaryExpression _ _ | TypeOfExpression _ => 16
  | CallExpression _ _ => 18
  | NewExpression _ _ | TaggedTemplateExpression _ _
  | PropertyAccessExpression _ _ | ElementAccessExpression _ _ => 19
  | Identifier _ | NullKeyword | TrueKeyword | FalseKeyword
  | StringLiteral _ | NumericLiteral _ | ArrayLiteralExpression _
  | ObjectLiteralExpression _ | FunctionExpression _ _ _
  | NoSubstitutionTemplateLiteral _ _ | TemplateExpression _ _
  | ParenthesizedExpression _ => 20
  | _ => -1
  end.

Inductive Associativity : Type := Associativity_Left | Associativity_Right.

(** [getOperatorAssociativity] at a binary expression, and
    [getExpressionAssociativity]. *)
Definition getBinaryOperatorAssociativity (op : SyntaxKind)
    : Associativity :=
  match op with
  | EqualsToken => Associativity_Right
  | _ => Associativity_Left
  end.

Definition getExpressionAssociativity (n : Node) : Associativity :=
  match syntax n with
  | PrefixUnaryExpression _ _ | TypeOfExpression _
  | ConditionalExpression _ _ _ => Associativity_Right
  | BinaryExpression _ op _ => getBinaryOperatorAssociativity op
  | _ => Associativity_Left
  end.

(** The operators [operatorHasAssociativeProperty] accepts, of which
    [|] and [^] are not among the tokens at hand. *)
Definition operatorHasAssociativeProperty (op : SyntaxKind) : bool :=
  match op with
  | AsteriskToken | AmpersandToken => true
  | _ => false
  end.

(** The kinds of literal token a node can have here; [None] is
    [SyntaxKind.Unknown]. *)
Inductive LiteralKind : Type :=
| NumericLiteralKind | StringLiteralKind | NoSubstitutionTemplateLiteralKind.

Definition LiteralKind_eqb (a b : LiteralKind) : bool :=
  match a, b with
  | NumericLiteralKind, NumericLiteralKind
  | StringLiteralKind, StringLiteralKind
  | NoSubstitutionTemplateLiteralKind, NoSubstitutionTemplateLiteralKind =>
      true
  | _, _ => false
  end.

(** [getLiteralKindOfBinaryPlusOperand]: the kind of the literals a sum
    is made of, when they are all of one kind. *)
Fixpoint getLiteralKindOfBinaryPlusOperand (node : Node) {struct node}
    : option LiteralKind :=
  match node with
  | mkNode s _ _ =>
      match s with
      | NumericLiteral _ => Some NumericLiteralKind
      | StringLiteral _ => Some StringLiteralKind
      | NoSubstitutionTemplateLiteral _ _ =>
          Some NoSubstitutionTemplateLiteralKind
      | BinaryExpression lhs PlusToken rhs =>
          match getLiteralKindOfBinaryPlusOperand lhs,
                getLiteralKindOfBinaryPlusOperand rhs with
          | Some leftKind, Some rightKind =>
              if LiteralKind_eqb leftKind rightKind then Some leftKind
              else None
          | _, _ => None
          end
      | _ => None
      end
  end.

Definition SyntaxKind_eqb (a b : SyntaxKind) : bool :=
  match a, b with
  | MinusToken, MinusToken | PlusToken, PlusToken
  | AmpersandAmpersandToken, AmpersandAmpersandToken
  | GreaterThanToken, GreaterThanToken
  | GreaterThanEqualsToken, GreaterThanEqualsToken
  | AmpersandToken, AmpersandToken | SlashToken, SlashToken
  | EqualsEqualsToken, EqualsEqualsToken
  | EqualsEqualsEqualsToken, EqualsEqualsEqualsToken
  | LessThanToken, LessThanToken
  | LessThanEqualsToken, LessThanEqualsToken
  | PercentToken, PercentToken | AsteriskToken, AsteriskToken
  | ExclamationEqualsToken, ExclamationEqualsToken
  | ExclamationEqualsEqualsToken, ExclamationEqualsEqualsToken
  | BarBarToken, BarBarToken | EqualsToken, EqualsToken
  | ExclamationToken, ExclamationToken
  | MultiLineCommentTrivia, MultiLineCommentTrivia
  | SingleLineCommentTrivia, SingleLineCommentTrivia => true
  | _, _ => false
  end.

Definition isParenthesizedExpression (n : Node) : bool :=
  match syntax n with ParenthesizedExpression _ => true | _ => false end.

(** [binaryOperandNeedsParentheses]: an operand that binds looser than
    the operator is wrapped and one that binds tighter is not; at equal
    precedence the left operand is wrapped under a right-associative
    operator, and the right operand is wrapped when it is
    left-associative, unless it repeats an associative operator or
    continues a sum of literals of one kind. *)
Definition binaryOperandNeedsParentheses
    (binaryOperator : SyntaxKind) (operand : Node)
    (isLeftSideOfBinary : bool) (leftOperand : option Node) : bool :=
  let binaryOperatorPrecedence :=
    getBinaryExpressionPrecedence binaryOperator in
  let binaryOperatorAssociativity :=
    getBinaryOperatorAssociativity binaryOperator in
  let operandPrecedence := getExpressionPrecedence operand in
  match operandPrecedence ?= binaryOperatorPrecedence with
  | Lt => true
  | Gt => false
  | Eq =>
      if isLeftSideOfBinary then
        match binaryOperatorAssociativity with
        | Associativity_Right => true
        | Associativity_Left => false
        end
      else
        let byAssociativity :=
          match getExpressionAssociativity operand with
          | Associativity_Left => true
          | Associativity_Right => false
          end in
        match syntax operand with
        | BinaryExpression _ operandOperator _ =>
            if SyntaxKind_eqb operandOperator binaryOperator then
              if operatorHasAssociativeProperty binaryOperator then false
              else if SyntaxKind_eqb binaryOperator PlusToken then
                match
                  match leftOperand with
                  | Some leftOperand =>
                      getLiteralKindOfBinaryPlusOperand leftOperand
                  | None => None
                  end,
                  getLiteralKindOfBinaryPlusOperand operand
                with
                | Some leftKind, Some operandKind =>
                    if LiteralKind_eqb leftKind operandKind then false
                    else byAssociativity
                | _, _ => byAssociativity
                end
              else byAssociativity
            else byAssociativity
        | _ => byAssociativity
        end
  end.

(** [parenthesizeBinaryOperand]: nothing is added to an operand that is
    in parentheses already. *)
Definition parenthesizeBinaryOperand
    (binaryOperator : SyntaxKind) (operand : Node)
    (isLeftSideOfBinary : bool) (leftOperand : option Node) : Node :=
  if isParenthesizedExpression operand then operand
  else if binaryOperandNeedsParentheses
            binaryOperator operand isLeftSideOfBinary leftOperand
       then createParen operand
       else operand.

(** [parenthesizeForConditionalHead]: a condition is wrapped unless it
    binds tighter than a conditional. *)
Definition parenthesizeForConditionalHead (condition : Node) : Node :=
  if 4 <? getExpressionPrecedence condition then condition
  else createParen condition.

(** [isLeftHandSideExpression] and [isUnaryExpression], which go by the
    kind of the node. *)
Definition isLeftHandSideExpression (n : Node) : bool :=
  match syntax n with
  | PropertyAccessExpression _ _ | ElementAccessExpression _ _
  | NewExpression _ _ | CallExpression _ _
  | TaggedTemplateExpression _ _ | ArrayLiteralExpression _
  | ParenthesizedExpression _ | ObjectLiteralExpression _
  | FunctionExpression _ _ _ | Identifier _ | NumericLiteral _
  | StringLiteral _ | NoSubstitutionTemplateLiteral _ _
  | TemplateExpression _ _ | FalseKeyword | NullKeyword | TrueKeyword =>
      true
  | _ => false
  end.

Definition isUnaryExpression (n : Node) : bool :=
  match syntax n with
  | PrefixUnaryExpression _ _ | TypeOfExpression _ => true
  | _ => isLeftHandSideExpression n
  end.

(** [parenthesizePrefixOperand] and [parenthesizeForAccess]. *)
Definition parenthesizePrefixOperand (operand : Node) : Node :=
  if isUnaryExpression operand then operand else createParen operand.

Definition parenthesizeForAccess (expression : Node) : Node :=
  if isLeftHandSideExpression expression then expression
  else createParen expression.

(** [getLeftmostExpression]: the node a printed expression begins
    with. *)
Fixpoint getLeftmostExpression
    (node : Node) (stopAtCallExpressions : bool) {struct node} : Node :=
  match node with
  | mkNode s _ _ =>
      match s with
      | BinaryExpression lhs _ _ =>
          getLeftmostExpression lhs stopAtCallExpressions
      | ConditionalExpression condition _ _ =>
          getLeftmostExpression condition stopAtCallExpressions
      | TaggedTemplateExpression tag _ =>
          getLeftmostExpression tag stopAtCallExpressions
      | CallExpression expression _ =>
          if stopAtCallExpressions then node
          else getLeftmostExpression expression stopAtCallExpressions
      | ElementAccessExpression expression _
      | PropertyAccessExpression expression _ =>
          getLeftmostExpression expression stopAtCallExpressions
      | _ => node
      end
  end.

(** [parenthesizeForNew]: a class expression that begins with a call is
    wrapped, one that begins with a [new] expression is taken as it is,
    and any other goes by [parenthesizeForAccess]. *)
Definition parenthesizeForNew (expression : Node) : Node :=
  match syntax (getLeftmostExpression expression true) with
  | CallExpression _ _ => createParen expression
  | NewExpression _ _ => expression
  | _ => parenthesizeForAccess expression
  end.

(** [parenthesizeExpressionForExpressionStatement]: a statement must not
    begin with an object literal or a function expression.  In a call of
    a function expression the callee alone is wrapped, in a copy of the
    call that keeps its comments and its source-map range; any other
    expression that begins with one of the two is wrapped whole. *)
Definition parenthesizeExpressionForExpressionStatement
    (expression : Node) : Node :=
  let wrapped :=
    match syntax (getLeftmostExpression expression false) with
    | ObjectLiteralExpression _ | FunctionExpression _ _ _ =>
        createParen expression
    | _ => expression
    end in
  match expression with
  | mkNode (CallExpression callee arguments) range comments =>
      match syntax callee with
      | FunctionExpression _ _ _ =>
          mkNode (CallExpression (createParen callee) arguments)
                 range comments
      | _ => wrapped
      end
  | _ => wrapped
  end.

(** [ts.createBinary]: the right operand is parenthesized knowing the
    left operand as it was built. *)
Definition createBinary (l : Node) (op : SyntaxKind) (r : Node) : Node :=
  let lhs := parenthesizeBinaryOperand op l true None in
  let rhs := parenthesizeBinaryOperand op r false (Some lhs) in
  createSynthesizedNode (BinaryExpression lhs op rhs).
Definition createPrefix (op : SyntaxKind) (e : Node) : Node :=
  createSynthesizedNode
    (PrefixUnaryExpression op (parenthesizePrefixOperand e)).

(** [ts.createConditional]: the two branches go through
    [parenthesizeSubexpressionOfConditionalExpression], which wraps a
    comma sequence and nothing else, and no node here is one. *)
Definition createConditional (c t f : Node) : Node :=
  createSynthesizedNode
    (ConditionalExpression (parenthesizeForConditionalHead c) t f).

(** [name: string | Identifier]: a string is turned into an identifier. *)
Definition asName (name : string + Node) : Node :=
  match name with inl s => createIdentifier s | inr n => n end.
Definition createPropertyAccess (e : Node) (name : string + Node) : Node :=
  createSynthesizedNode
    (PropertyAccessExpression (parenthesizeForAccess e) (asName name)).
Definition createElementAccess (e i : Node) : Node :=
  createSynthesizedNode
    (ElementAccessExpression (parenthesizeForAccess e) i).

(** The arguments of a call, the elements of an array literal, the value
    of a property and the initializer of a variable go through
    [parenthesizeExpressionForList], which wraps a comma sequence, of
    which there is none here, and leaves an expression of any other kind
    as it is. *)
Definition createCall (e : Node) (args : list Node) : Node :=
  createSynthesizedNode (CallExpression (parenthesizeForAccess e) args).
Definition createNew (e : Node) (args : list Node) : Node :=
  createSynthesizedNode (NewExpression (parenthesizeForNew e) args).
Definition createTypeOf (e : Node) : Node :=
  createSynthesizedNode (TypeOfExpression (parenthesizePrefixOperand e)).
Definition createParameter (name : string) : Node :=
  createSynthesizedNode (ParameterDeclaration name).
Definition createBlock (stmts : list Node) : Node :=
  createSynthesizedNode (Block stmts).
Definition createFunctionExpression
    (name : option string) (params : list Node) (body : Node) : Node :=
  createSynthesizedNode (FunctionExpression name params body).
Definition createFunctionDeclaration
    (name : string) (params : list Node) (body : Node) : Node :=
  createSynthesizedNode (FunctionDeclaration name params body).
Definition createArrayLiteral (es : list Node) : Node :=
  createSynthesizedNode (ArrayLiteralExpression es).
Definition createObjectLiteral (ps : list Node) : Node :=
  createSynthesizedNode (ObjectLiteralExpression ps).
Definition createPropertyAssignment (name init : Node) : Node :=
  createSynthesizedNode (PropertyAssignment name init).
Definition createNoSubstitutionTemplateLiteral (c r : string) : Node :=
  createSynthesizedNode (NoSubstitutionTemplateLiteral c r).
Definition createTemplateHead (c r : string) : Node :=
  createSynthesizedNode (TemplateHead c r).
Definition createTemplateSpan (e lit : Node) : Node :=
  createSynthesizedNode (TemplateSpan e lit).
Definition createTemplateExpression (h : Node) (spans : list Node) : Node :=
  createSynthesizedNode (TemplateExpression h spans).
Definition createTaggedTemplate (tag template : Node) : Node :=
  createSynthesizedNode
    (TaggedTemplateExpression (parenthesizeForAccess tag) template).
Definition createVariableDeclaration
    (name : string) (init : option Node) : Node :=
  createSynthesizedNode (VariableDeclaration name init).
Definition createVariableDeclarationList
    (ds : list Node) (fl : NodeFlags) : Node :=
  createSynthesizedNode (VariableDeclarationList ds fl).
Definition createVariableStatement (dl : Node) : Node :=
  createSynthesizedNode (VariableStatement dl).
Definition createStatement (e : Node) : Node :=
  createSynthesizedNode
    (ExpressionStatement (parenthesizeExpressionForExpressionStatement e)).
Definition createReturn (e : Node) : Node :=
  createSynthesizedNode (ReturnStatement e).
Definition createThrow (e : Node) : Node :=
  createSynthesizedNode (ThrowStatement e).
Definition createIf (c t : Node) (e : option Node) : Node :=
  createSynthesizedNode (IfStatement c t e).

End ts.

(* ===================================================================== *)
(** * The output AST of [@angular/compiler] *)
(* ===================================================================== *)

(** Modelled from the spec: the IR classes of [@angular/compiler] (section
    3 of the specification), which the translated file imports and does not
    declare.  The constructors of [Expression] and [Statement] are the
    classes the visitor has a method for, and the fields are the ones those
    methods read: of a [ClassStmt], its name alone.  A field that may be
    [null] or [undefined] in the source is an [option] here: so is the name
    of a [ReadVarExpr], which is [null] for a builtin variable and which
    the translator reads with [ast.name!]. *)

Record ParseSourceFile : Type := {
  content : string;
  url : string;
}.

Record ParseLocation : Type := {
  file : ParseSourceFile;
  offset : Z;
}.

Record ParseSourceSpan : Type := {
  start : ParseLocation;
  end_ : ParseLocation;
}.

(** Modelled from the spec: a leading comment (section 3: its text, the
    line-or-block flag and the trailing-newline flag).  [toString] is a
    method, which a subclass may override (a JSDoc comment serializes its
    tags), so every comment carries the string its own [toString()]
    gives. *)
Record LeadingComment : Type := {
  text : string;
  multiline : bool;
  trailingNewline : bool;
  toString : string;
}.

(** Modelled from the spec: the constructor of the class [LeadingComment]
    itself.  The specification has the three fields; the [toString] of
    the class, which it does not describe, gives the text for a line
    comment and the text between two spaces for a block comment. *)
Definition new_LeadingComment
    (text : string) (multiline trailingNewline : bool) : LeadingComment :=
  {| text := text; multiline := multiline;
     trailingNewline := trailingNewline;
     toString := if multiline then " " +:+ text +:+ " " else text |}.

Module StmtModifier.
Inductive t : Type := Final | Private | Exported | Static.
Definition eqb (a b : t) : bool :=
  match a, b with
  | Final, Final | Private, Private | Exported, Exported
  | Static, Static => true
  | _, _ => false
  end.
End StmtModifier.

(** Modelled from the spec: the operator enumerations of
    [@angular/compiler].  The members the operator tables of the translator
    name are listed; [Unlisted] stands for any other member an enumeration
    may have, with the name its reverse mapping gives. *)
Module UnaryOperator.
Inductive t : Type := Minus | Plus | Unlisted (name : string).
Definition name_of (op : t) : string :=
  match op with Minus => "Minus" | Plus => "Plus" | Unlisted n => n end.
End UnaryOperator.

Module BinaryOperator.
Inductive t : Type :=
| Equals | NotEquals | Identical | NotIdentical | Minus | Plus | Divide
| Multiply | Modulo | And | Or | BitwiseAnd | Lower | LowerEquals
| Bigger | BiggerEquals | Unlisted (name : string).
Definition name_of (op : t) : string :=
  match op with
  | Equals => "Equals" | NotEquals => "NotEquals"
  | Identical => "Identical" | NotIdentical => "NotIdentical"
  | Minus => "Minus" | Plus => "Plus" | Divide => "Divide"
  | Multiply => "Multiply" | Modulo => "Modulo" | And => "And"
  | Or => "Or" | BitwiseAnd => "BitwiseAnd" | Lower => "Lower"
  | LowerEquals => "LowerEquals" | Bigger => "Bigger"
  | BiggerEquals => "BiggerEquals" | Unlisted n => n
  end.
End BinaryOperator.

(** The value of a [LiteralExpr]: [undefined], [null] or a primitive. *)
Inductive LiteralValue : Type :=
| undefined
| null
| primitive (v : ts.Primitive).

Record ExternalReference : Type := {
  moduleName : option string;
  name : option string;
}.

Record FnParam : Type := { param_name : string }.

(** One message part or placeholder name of a localized string. *)
Record MessagePiece : Type := {
  piece_text : string;
  piece_sourceSpan : option ParseSourceSpan;
}.

Record I18nMeta : Type := {
  customId : option string;
  meaning : option string;
  description : option string;
  legacyIds : list string;
}.

(** The result of [serializeI18nHead] and [serializeI18nTemplatePart]. *)
Record CookedRawString : Type := {
  cooked : string;
  raw : string;
}.

Record LiteralMapEntry (E : Type) : Type := {
  key : string;
  value : E;
  quoted : bool;
}.
Arguments key {E} _.
Arguments value {E} _.
Arguments quoted {E} _.

(** What every [Statement] carries. *)
Record StatementBase : Type := {
  modifiers : list StmtModifier.t;
  stmt_sourceSpan : option ParseSourceSpan;
  leadingComments : option (list LeadingComment);
}.

Definition hasModifier (b : StatementBase) (m : StmtModifier.t) : bool :=
  existsb (StmtModifier.eqb m) (modifiers b).

#[local] Unset Elimination Schemes.

Inductive Expression : Type :=
| ReadVarExpr (name : option string) (sourceSpan : option ParseSourceSpan)
| WriteVarExpr (name : string) (value : Expression)
               (sourceSpan : option ParseSourceSpan)
| WriteKeyExpr (receiver index value : Expression)
               (sourceSpan : option ParseSourceSpan)
| WritePropExpr (receiver : Expression) (name : string) (value : Expression)
                (sourceSpan : option ParseSourceSpan)
| InvokeMethodExpr (receiver : Expression) (name : option string)
                   (args : list Expression)
                   (sourceSpan : option ParseSourceSpan)
| InvokeFunctionExpr (fn : Expression) (args : list Expression) (pure : bool)
                     (sourceSpan : option ParseSourceSpan)
| InstantiateExpr (classExpr : Expression) (args : list Expression)
                  (sourceSpan : option ParseSourceSpan)
| LiteralExpr (value : LiteralValue) (sourceSpan : option ParseSourceSpan)
| LocalizedString (metaBlock : I18nMeta) (messageParts : list MessagePiece)
                  (placeHolderNames : list MessagePiece)
                  (expressions : list Expression)
                  (sourceSpan : option ParseSourceSpan)
| ExternalExpr (value : ExternalReference)
               (sourceSpan : option ParseSourceSpan)
| ConditionalExpr (condition trueCase : Expression)
                  (falseCase : option Expression)
                  (sourceSpan : option ParseSourceSpan)
| NotExpr (condition : Expression) (sourceSpan : option ParseSourceSpan)
| AssertNotNull (condition : Expression)
                (sourceSpan : option ParseSourceSpan)
| CastExpr (value : Expression) (sourceSpan : option ParseSourceSpan)
| FunctionExpr (params : list FnParam) (statements : list Statement)
               (name : option string) (sourceSpan : option ParseSourceSpan)
| UnaryOperatorExpr (operator : UnaryOperator.t) (expr : Expression)
                    (sourceSpan : option ParseSourceSpan)
| BinaryOperatorExpr (operator : BinaryOperator.t) (lhs rhs : Expression)
                     (sourceSpan : option ParseSourceSpan)
| ReadPropExpr (receiver : Expression) (name : string)
               (sourceSpan : option ParseSourceSpan)
| ReadKeyExpr (receiver index : Expression)
              (sourceSpan : option ParseSourceSpan)
| LiteralArrayExpr (entries : list Expression)
                   (sourceSpan : option ParseSourceSpan)
| LiteralMapExpr (entries : list (LiteralMapEntry Expression))
                 (sourceSpan : option ParseSourceSpan)
| CommaExpr (parts : list Expression) (sourceSpan : option ParseSourceSpan)
| WrappedNodeExpr (node : ts.Node) (sourceSpan : option ParseSourceSpan)
| TypeofExpr (expr : Expression) (sourceSpan : option ParseSourceSpan)
with Statement : Type :=
| DeclareVarStmt (name : string) (value : option Expression)
                 (base : StatementBase)
| DeclareFunctionStmt (name : string) (params : list FnParam)
                      (statements : list Statement) (base : StatementBase)
| ExpressionStatement (expr : Expression) (base : StatementBase)
| ReturnStatement (value : Expression) (base : StatementBase)
| ClassStmt (name : string) (base : StatementBase)
| IfStmt (condition : Expression) (trueCase falseCase : list Statement)
         (base : StatementBase)
| TryCatchStmt (bodyStmts catchStmts : list Statement)
               (base : StatementBase)
| ThrowStmt (error : Expression) (base : StatementBase).

#[local] Set Elimination Schemes.

(** Modelled from the spec: the [Context] class of [./context], which is
    not part of the translated file.  It carries one bit;
    [withStatementMode] and [withExpressionMode] each give a context with
    the corresponding bit set, and [isStatement] reads the bit. *)
Record Context : Type := new_Context { isStatement : bool }.

Definition withStatementMode (c : Context) : Context := new_Context true.
Definition withExpressionMode (c : Context) : Context := new_Context false.

(* ===================================================================== *)
(** * The operator tables *)
(* ===================================================================== *)

(** A [Map] built from a list of entries: a later entry for the same key
    replaces an earlier one, so the lookup reads the list from its end. *)
Definition UNARY_OPERATORS : list (UnaryOperator.t * ts.SyntaxKind) :=
  [ (UnaryOperator.Minus, ts.MinusToken);
    (UnaryOperator.Plus, ts.PlusToken) ].

Definition BINARY_OPERATORS : list (BinaryOperator.t * ts.SyntaxKind) :=
  [ (BinaryOperator.And, ts.AmpersandAmpersandToken);
    (BinaryOperator.Bigger, ts.GreaterThanToken);
    (BinaryOperator.BiggerEquals, ts.GreaterThanEqualsToken);
    (BinaryOperator.BitwiseAnd, ts.AmpersandToken);
    (BinaryOperator.Divide, ts.SlashToken);
    (BinaryOperator.Equals, ts.EqualsEqualsToken);
    (BinaryOperator.Identical, ts.EqualsEqualsEqualsToken);
    (BinaryOperator.Lower, ts.LessThanToken);
    (BinaryOperator.LowerEquals, ts.LessThanEqualsToken);
    (BinaryOperator.Minus, ts.MinusToken);
    (BinaryOperator.Modulo, ts.PercentToken);
    (BinaryOperator.Multiply, ts.AsteriskToken);
    (BinaryOperator.NotEquals, ts.ExclamationEqualsToken);
    (BinaryOperator.NotIdentical, ts.ExclamationEqualsEqualsToken);
    (BinaryOperator.Or, ts.BarBarToken);
    (BinaryOperator.Plus, ts.PlusToken) ].

#[export] Instance UnaryOperator_eq_dec : EqDecision UnaryOperator.t.
Proof. solve_decision. Defined.
#[export] Instance BinaryOperator_eq_dec : EqDecision BinaryOperator.t.
Proof. solve_decision. Defined.

(** [Map.prototype.get]; [None] is [undefined], and [Map.prototype.has] is
    [is_Some] of it. *)
Fixpoint Map_get `{EqDecision K} {V} (m : list (K * V)) (k : K) : option V :=
  match m with
  | [] => None
  | (k', v) :: rest =>
      match Map_get rest k with
      | Some v' => Some v'
      | None => if decide (k = k') then Some v else None
      end
  end.

Definition Map_has `{EqDecision K} {V} (m : list (K * V)) (k : K) : bool :=
  bool_decide (is_Some (Map_get m k)).


(** ** Induction on the output AST *)

(** The induction principle for the two mutually defined types: the
    property is available for every expression and statement held by the
    node, whether directly, in a list or in an option. *)
Section Expression_Statement_ind.

Variable P : Expression -> Prop.
Variable Q : Statement -> Prop.

Definition P_entry (entry : LiteralMapEntry Expression) : Prop :=
  P (value entry).
Definition P_option (e : option Expression) : Prop :=
  match e with Some e => P e | None => True end.

Hypothesis H_ReadVarExpr : forall n sp, P (ReadVarExpr n sp).
Hypothesis H_WriteVarExpr :
  forall n v sp, P v -> P (WriteVarExpr n v sp).
Hypothesis H_WriteKeyExpr :
  forall r i v sp, P r -> P i -> P v -> P (WriteKeyExpr r i v sp).
Hypothesis H_WritePropExpr :
  forall r n v sp, P r -> P v -> P (WritePropExpr r n v sp).
Hypothesis H_InvokeMethodExpr :
  forall r n args sp, P r -> Forall P args ->
                      P (InvokeMethodExpr r n args sp).
Hypothesis H_InvokeFunctionExpr :
  forall f args pure sp, P f -> Forall P args ->
                         P (InvokeFunctionExpr f args pure sp).
Hypothesis H_InstantiateExpr :
  forall c args sp, P c -> Forall P args -> P (InstantiateExpr c args sp).
Hypothesis H_LiteralExpr : forall v sp, P (LiteralExpr v sp).
Hypothesis H_LocalizedString :
  forall m parts names es sp,
    Forall P es -> P (LocalizedString m parts names es sp).
Hypothesis H_ExternalExpr : forall v sp, P (ExternalExpr v sp).
Hypothesis H_ConditionalExpr :
  forall c t f sp, P c -> P t -> P_option f -> P (ConditionalExpr c t f sp).
Hypothesis H_NotExpr : forall c sp, P c -> P (NotExpr c sp).
Hypothesis H_AssertNotNull : forall c sp, P c -> P (AssertNotNull c sp).
Hypothesis H_CastExpr : forall v sp, P v -> P (CastExpr v sp).
Hypothesis H_FunctionExpr :
  forall ps stmts n sp, Forall Q stmts -> P (FunctionExpr ps stmts n sp).
Hypothesis H_UnaryOperatorExpr :
  forall op e sp, P e -> P (UnaryOperatorExpr op e sp).
Hypothesis H_BinaryOperatorExpr :
  forall op l r sp, P l -> P r -> P (BinaryOperatorExpr op l r sp).
Hypothesis H_ReadPropExpr :
  forall r n sp, P r -> P (ReadPropExpr r n sp).
Hypothesis H_ReadKeyExpr :
  forall r i sp, P r -> P i -> P (ReadKeyExpr r i sp).
Hypothesis H_LiteralArrayExpr :
  forall es sp, Forall P es -> P (LiteralArrayExpr es sp).
Hypothesis H_LiteralMapExpr :
  forall es sp, Forall P_entry es -> P (LiteralMapExpr es sp).
Hypothesis H_CommaExpr :
  forall ps sp, Forall P ps -> P (CommaExpr ps sp).
Hypothesis H_WrappedNodeExpr : forall n sp, P (WrappedNodeExpr n sp).
Hypothesis H_TypeofExpr : forall e sp, P e -> P (TypeofExpr e sp).

Hypothesis H_DeclareVarStmt :
  forall n v b, P_option v -> Q (DeclareVarStmt n v b).
Hypothesis H_DeclareFunctionStmt :
  forall n ps stmts b, Forall Q stmts -> Q (DeclareFunctionStmt n ps stmts b).
Hypothesis H_ExpressionStatement :
  forall e b, P e -> Q (ExpressionStatement e b).
Hypothesis H_ReturnStatement :
  forall v b, P v -> Q (ReturnStatement v b).
Hypothesis H_ClassStmt : forall n b, Q (ClassStmt n b).
Hypothesis H_IfStmt :
  forall c t f b, P c -> Forall Q t -> Forall Q f -> Q (IfStmt c t f b).
Hypothesis H_TryCatchStmt :
  forall body catch b, Forall Q body -> Forall Q catch ->
                       Q (TryCatchStmt body catch b).
Hypothesis H_ThrowStmt : forall e b, P e -> Q (ThrowStmt e b).

Fixpoint Expression_ind' (e : Expression) {struct e} : P e :=
  let all := fix all (l : list Expression) : Forall P l :=
    match l with
    | [] => @List.Forall_nil _ P
    | x :: l' => @List.Forall_cons _ P x l' (Expression_ind' x) (all l')
    end in
  let all_s := fix all_s (l : list Statement) : Forall Q l :=
    match l with
    | [] => @List.Forall_nil _ Q
    | x :: l' => @List.Forall_cons _ Q x l' (Statement_ind' x) (all_s l')
    end in
  let all_e := fix all_e (l : list (LiteralMapEntry Expression))
      : Forall P_entry l :=
    match l with
    | [] => @List.Forall_nil _ P_entry
    | x :: l' =>
        @List.Forall_cons _ P_entry x l' (Expression_ind' (value x)) (all_e l')
    end in
  let opt := fun (o : option Expression) =>
    match o return P_option o with
    | Some x => Expression_ind' x
    | None => I
    end in
  match e with
  | ReadVarExpr n sp => H_ReadVarExpr n sp
  | WriteVarExpr n v sp => H_WriteVarExpr n v sp (Expression_ind' v)
  | WriteKeyExpr r i v sp =>
      H_WriteKeyExpr r i v sp (Expression_ind' r) (Expression_ind' i)
                     (Expression_ind' v)
  | WritePropExpr r n v sp =>
      H_WritePropExpr r n v sp (Expression_ind' r) (Expression_ind' v)
  | InvokeMethodExpr r n args sp =>
      H_InvokeMethodExpr r n args sp (Expression_ind' r) (all args)
  | InvokeFunctionExpr f args pure sp =>
      H_InvokeFunctionExpr f args pure sp (Expression_ind' f) (all args)
  | InstantiateExpr c args sp =>
      H_InstantiateExpr c args sp (Expression_ind' c) (all args)
  | LiteralExpr v sp => H_LiteralExpr v sp
  | LocalizedString m parts names es sp =>
      H_LocalizedString m parts names es sp (all es)
  | ExternalExpr v sp => H_ExternalExpr v sp
  | ConditionalExpr c t f sp =>
      H_ConditionalExpr c t f sp (Expression_ind' c) (Expression_ind' t)
                        (opt f)
  | NotExpr c sp => H_NotExpr c sp (Expression_ind' c)
  | AssertNotNull c sp => H_AssertNotNull c sp (Expression_ind' c)
  | CastExpr v sp => H_CastExpr v sp (Expression_ind' v)
  | FunctionExpr ps stmts n sp => H_FunctionExpr ps stmts n sp (all_s stmts)
  | UnaryOperatorExpr op e sp =>
      H_UnaryOperatorExpr op e sp (Expression_ind' e)
  | BinaryOperatorExpr op l r sp =>
      H_BinaryOperatorExpr op l r sp (Expression_ind' l) (Expression_ind' r)
  | ReadPropExpr r n sp => H_ReadPropExpr r n sp (Expression_ind' r)
  | ReadKeyExpr r i sp =>
      H_ReadKeyExpr r i sp (Expression_ind' r) (Expression_ind' i)
  | LiteralArrayExpr es sp => H_LiteralArrayExpr es sp (all es)
  | LiteralMapExpr es sp => H_LiteralMapExpr es sp (all_e es)
  | CommaExpr ps sp => H_CommaExpr ps sp (all ps)
  | WrappedNodeExpr n sp => H_WrappedNodeExpr n sp
  | TypeofExpr e sp => H_TypeofExpr e sp (Expression_ind' e)
  end
with Statement_ind' (s : Statement) {struct s} : Q s :=
  let all_s := fix all_s (l : list Statement) : Forall Q l :=
    match l with
    | [] => @List.Forall_nil _ Q
    | x :: l' => @List.Forall_cons _ Q x l' (Statement_ind' x) (all_s l')
    end in
  match s with
  | DeclareVarStmt n v b =>
      H_DeclareVarStmt n v b
        (match v return P_option v with
         | Some x => Expression_ind' x
         | None => I
         end)
  | DeclareFunctionStmt n ps stmts b =>
      H_DeclareFunctionStmt n ps stmts b (all_s stmts)
  | ExpressionStatement e b => H_ExpressionStatement e b (Expression_ind' e)
  | ReturnStatement v b => H_ReturnStatement v b (Expression_ind' v)
  | ClassStmt n b => H_ClassStmt n b
  | IfStmt c t f b =>
      H_IfStmt c t f b (Expression_ind' c) (all_s t) (all_s f)
  | TryCatchStmt body catch b =>
      H_TryCatchStmt body catch b (all_s body) (all_s catch)
  | ThrowStmt e b => H_ThrowStmt e b (Expression_ind' e)
  end.

Lemma Expression_Statement_ind :
  (forall e, P e) /\ (forall s, Q s).
Proof. split; [exact Expression_ind' | exact Statement_ind']. Qed.

End Expression_Statement_ind.

(* ===================================================================== *)
(** * Strings *)
(* ===================================================================== *)

(** The double-quote character, for messages that contain it. *)
Definition dquote : string := String (ascii_of_nat 34) EmptyString.

(** The line-feed character. *)
Definition LF : ascii := ascii_of_nat 10.

(** [String.prototype.split] with a one-character separator: the pieces
    between the occurrences of the separator, empty pieces included. *)
Fixpoint String_split (sep : ascii) (s : string) : list string :=
  match s with
  | EmptyString => [EmptyString]
  | String c rest =>
      if Ascii.eqb c sep then EmptyString :: String_split sep rest
      else
        match String_split sep rest with
        | [] => [String c EmptyString]
        | piece :: pieces => String c piece :: pieces
        end
  end.

(** The number of occurrences of a character in a string. *)
Fixpoint String_count (sep : ascii) (s : string) : nat :=
  match s with
  | EmptyString => 0%nat
  | String c rest =>
      ((if Ascii.eqb c sep then 1 else 0) + String_count sep rest)%nat
  end.

(** [Array.prototype.join] with a one-character separator. *)
Fixpoint String_join (sep : ascii) (l : list string) : string :=
  match l with
  | [] => EmptyString
  | [piece] => piece
  | piece :: rest => piece +:+ String sep (String_join sep rest)
  end.

(* ===================================================================== *)
(** * The visitor's monad *)
(* ===================================================================== *)

(** What a [throw] carries: [new Error(message)], or the [TypeError] the
    runtime raises when a method is called on [undefined] or [null] (its
    message is the engine's; nothing below depends on it). *)
Inductive Error : Type :=
| Error_ (message : string)
| TypeError (message : string).

Inductive Result (A : Type) : Type :=
| Ok (a : A)
| Throw (e : Error).
Arguments Ok {A} a.
Arguments Throw {A} e.

(** The result of [ImportManager.generateNamedImport]. *)
Record NamedImport : Type := {
  moduleImport : option string;
  symbol : string;
}.

(** The calls the translator makes to objects it does not own, and the
    source-file descriptors it creates, in the order they happen. *)
Inductive Effect : Type :=
| CreateSourceMapSource (url content : string)
| GenerateNamedImport (moduleName symbol : string)
| RecordUsedIdentifier (node : ts.Node).

Section Translator.

(** ** What the translator takes from elsewhere *)

(** The [ImportManager] of [./import_manager]: its state, and its one
    method the translator calls. *)
Variable ImportManager : Type.
Variable generateNamedImport :
  ImportManager -> string -> string -> NamedImport * ImportManager.

(** Methods of [LocalizedString], given the node they are called on.
    The two serializers read the message part they are asked for (the
    head: part 0) and, after the head, the placeholder name before it;
    they have a result only where these are there.  The variables stand
    for that result; a theorem about whether a visit returns assumes of
    its input what [serializable], below, says. *)
Variable serializeI18nHead : Expression -> CookedRawString.
Variable serializeI18nTemplatePart : Expression -> Z -> CookedRawString.
Variable getMessagePartSourceSpan :
  Expression -> Z -> option ParseSourceSpan.
Variable getPlaceholderSourceSpan :
  Expression -> Z -> option ParseSourceSpan.

(** The string a template literal makes of an [ExternalReference]. *)
Variable ExternalReference_toString : ExternalReference -> string.

(** The [scriptTarget] the visitor is constructed with. *)
Variable scriptTarget : ts.ScriptTarget.

(** ** The visitor instance *)

(** The fields of [ExpressionTranslatorVisitor] that change during a
    run, and the log of effects.  The default-import recorder has no
    state the translator can observe: a call to it is an entry of the
    log. *)
Record ExpressionTranslatorVisitor : Type := {
  imports : ImportManager;
  externalSourceFiles : gmap string ts.SourceMapSource;
  effects : list Effect;
}.

Definition M (A : Type) : Type :=
  ExpressionTranslatorVisitor -> Result A * ExpressionTranslatorVisitor.

Definition ret {A} (a : A) : M A := fun this => (Ok a, this).

Definition bind {A B} (m : M A) (f : A -> M B) : M B :=
  fun this =>
    match m this with
    | (Ok a, this') => f a this'
    | (Throw e, this') => (Throw e, this')
    end.

Definition throw {A} (e : Error) : M A := fun this => (Throw e, this).

Notation "'let*' x ':=' m 'in' k" := (bind m (fun x => k))
  (at level 10, x pattern, m at level 100, k at level 200).

Definition gets {A} (f : ExpressionTranslatorVisitor -> A) : M A :=
  fun this => (Ok (f this), this).

Definition modify
    (f : ExpressionTranslatorVisitor -> ExpressionTranslatorVisitor)
    : M unit :=
  fun this => (Ok tt, f this).

Definition log (e : Effect) (this : ExpressionTranslatorVisitor)
    : ExpressionTranslatorVisitor :=
  {| imports := imports this;
     externalSourceFiles := externalSourceFiles this;
     effects := effects this ++ [e] |}.

(** [Array.prototype.map] with a callback that has effects: the
    callback runs on the elements from first to last. *)
Definition mapM {A B} (f : A -> M B) : list A -> M (list B) :=
  fix go (l : list A) : M (list B) :=
    match l with
    | [] => ret []
    | x :: rest =>
        let* y := f x in
        let* ys := go rest in
        ret (y :: ys)
    end.

(** The same with the callback's second argument, the index, counted
    from [i]. *)
Definition mapMi {A B} (f : A -> Z -> M B) : list A -> Z -> M (list B) :=
  fix go (l : list A) (i : Z) : M (list B) :=
    match l with
    | [] => ret []
    | x :: rest =>
        let* y := f x i in
        let* ys := go rest (i + 1) in
        ret (y :: ys)
    end.

(** A [for] loop over the indices in [is], threading the loop's local
    variables. *)
Definition forM {S} (body : S -> Z -> M S) : list Z -> S -> M S :=
  fix go (l : list Z) (acc : S) : M S :=
    match l with
    | [] => ret acc
    | i :: rest => let* acc' := body acc i in go rest acc'
    end.

(** [array[i].method(...)]: the call on the element at index [i], or
    the [TypeError] of a call on [undefined] when there is none. *)
Definition callAt {A B} (f : A -> M B) : list A -> nat -> M B :=
  fix go (l : list A) (i : nat) : M B :=
    match l, i with
    | [], _ => throw (TypeError "Cannot read property of undefined")
    | x :: _, O => f x
    | _ :: rest, S j => go rest j
    end.

Definition callAtZ {A B} (f : A -> M B) (l : list A) (i : Z) : M B :=
  if i <? 0 then throw (TypeError "Cannot read property of undefined")
  else callAt f l (Z.to_nat i).

(** ** Source mapping and comments *)

(** A string is truthy when it is not empty. *)
Definition truthy (s : string) : bool :=
  match s with EmptyString => false | String _ _ => true end.

(** [setSourceMapRange]; the node it returns is [expr] after the
    update. *)
Definition setSourceMapRange
    (expr : ts.Node) (sourceSpan : option ParseSourceSpan) : M ts.Node :=
  match sourceSpan with
  | Some sourceSpan =>
      let start := start sourceSpan in
      let end_ := end_ sourceSpan in
      let url := url (file start) in
      let content := content (file start) in
      if truthy url then
        let* has :=
          gets (fun this =>
                  bool_decide (is_Some (externalSourceFiles this !! url))) in
        let* _ :=
          if negb has then
            modify (fun this =>
              {| imports := imports this;
                 externalSourceFiles :=
                   <[url := ts.createSourceMapSource url content]>
                     (externalSourceFiles this);
                 effects :=
                   effects this ++ [CreateSourceMapSource url content] |})
          else ret tt in
        let* source := gets (fun this => externalSourceFiles this !! url) in
        ret (ts.setSourceMapRange expr
               {| ts.pos := offset start; ts.end_ := offset end_;
                  ts.source := source |})
      else ret expr
  | None => ret expr
  end.

Definition createLiteral (text : string) (span : option ParseSourceSpan)
    : M ts.Node :=
  let literal := ts.createStringLiteral text in
  setSourceMapRange literal span.

(** [createTemplateMiddle] and [createTemplateTail] build a template
    head and then overwrite its kind. *)
Definition createTemplateMiddle (cooked raw : string) : ts.Node :=
  match ts.createTemplateHead cooked raw with
  | ts.mkNode (ts.TemplateHead c r) range comments =>
      ts.mkNode (ts.TemplateMiddle c r) range comments
  | node => node
  end.

Definition createTemplateTail (cooked raw : string) : ts.Node :=
  match ts.createTemplateHead cooked raw with
  | ts.mkNode (ts.TemplateHead c r) range comments =>
      ts.mkNode (ts.TemplateTail c r) range comments
  | node => node
  end.

(** [attachComments]: the statement with the comments added. *)
Definition attachComments
    (statement : ts.Node) (leadingComments : option (list LeadingComment))
    : ts.Node :=
  match leadingComments with
  | None => statement
  | Some leadingComments =>
      fold_left
        (fun statement comment =>
           let commentKind :=
             if multiline comment then ts.MultiLineCommentTrivia
             else ts.SingleLineCommentTrivia in
           if multiline comment then
             ts.addSyntheticLeadingComment
               statement commentKind (toString comment)
               (trailingNewline comment)
           else
             fold_left
               (fun statement line =>
                  ts.addSyntheticLeadingComment
                    statement commentKind line (trailingNewline comment))
               (String_split LF (text comment)) statement)
        leadingComments statement
  end.


(** ** The methods of the visitor *)

(** Each [visit...] method takes the fields of the node it is called
    with.  [visitExpression] and [visitStatement] stand for the dispatch
    [node.visitExpression(this, context)] and
    [node.visitStatement(this, context)]; the knot is tied below. *)
Section Methods.

Variable visitExpression : Expression -> Context -> M ts.Node.
Variable visitStatement : Statement -> Context -> M ts.Node.

Definition visitDeclareVarStmt
    (name : string) (value : option Expression) (base : StatementBase)
    (context : Context) : M ts.Node :=
  let varType :=
    if ts.ScriptTarget_lt scriptTarget ts.ES2015 then ts.NodeFlags_None
    else if hasModifier base StmtModifier.Final then ts.NodeFlags_Const
    else ts.NodeFlags_Let in
  let* initializer :=
    match value with
    | Some value =>
        let* v := visitExpression value (withExpressionMode context) in
        ret (Some v)
    | None => ret None
    end in
  let varDeclaration := ts.createVariableDeclaration name initializer in
  let declarationList :=
    ts.createVariableDeclarationList [varDeclaration] varType in
  let varStatement := ts.createVariableStatement declarationList in
  ret (attachComments varStatement (leadingComments base)).

Definition visitDeclareFunctionStmt
    (name : string) (params : list FnParam)
    (statements : list Statement) (base : StatementBase)
    (context : Context) : M ts.Node :=
  let parameters :=
    map (fun param => ts.createParameter (param_name param)) params in
  let* body :=
    mapM (fun child => visitStatement child (withStatementMode context))
         statements in
  let fnDeclaration :=
    ts.createFunctionDeclaration name parameters (ts.createBlock body) in
  ret (attachComments fnDeclaration (leadingComments base)).

Definition visitExpressionStmt
    (expr : Expression) (base : StatementBase) (context : Context)
    : M ts.Node :=
  let* e := visitExpression expr (withStatementMode context) in
  ret (attachComments (ts.createStatement e) (leadingComments base)).

Definition visitReturnStmt
    (value : Expression) (base : StatementBase) (context : Context)
    : M ts.Node :=
  let* e := visitExpression value (withExpressionMode context) in
  ret (attachComments (ts.createReturn e) (leadingComments base)).

Definition visitDeclareClassStmt
    (name : string) (base : StatementBase) (context : Context)
    : M ts.Node :=
  if ts.ScriptTarget_lt scriptTarget ts.ES2015 then
    throw (Error_
      ("Unsupported mode: Visiting a " +:+ dquote +:+ "declare class"
       +:+ dquote +:+ " statement (class " +:+ name +:+ ") while "
       +:+ "targeting " +:+ ts.ScriptTarget_name scriptTarget +:+ "."))
  else throw (Error_ "Method not implemented.").

Definition visitIfStmt
    (condition : Expression) (trueCase falseCase : list Statement)
    (base : StatementBase) (context : Context) : M ts.Node :=
  let* thenStatements :=
    mapM (fun child => visitStatement child (withStatementMode context))
         trueCase in
  let thenBlock := ts.createBlock thenStatements in
  let* elseBlock :=
    if 0 <? Z.of_nat (List.length falseCase) then
      let* elseStatements :=
        mapM (fun child =>
                visitStatement child (withStatementMode context))
             falseCase in
      ret (Some (ts.createBlock elseStatements))
    else ret None in
  let* c := visitExpression condition context in
  let ifStatement := ts.createIf c thenBlock elseBlock in
  ret (attachComments ifStatement (leadingComments base)).

Definition visitTryCatchStmt
    (bodyStmts catchStmts : list Statement) (base : StatementBase)
    (context : Context) : M ts.Node :=
  throw (Error_ "Method not implemented.").

Definition visitThrowStmt
    (error : Expression) (base : StatementBase) (context : Context)
    : M ts.Node :=
  let* e := visitExpression error (withExpressionMode context) in
  ret (attachComments (ts.createThrow e) (leadingComments base)).

(** [ts.createIdentifier(ast.name!)] reads the length of the name, which
    throws when the name is [null]. *)
Definition visitReadVarExpr
    (name : option string) (sourceSpan : option ParseSourceSpan)
    (context : Context) : M ts.Node :=
  match name with
  | None => throw (TypeError "Cannot read property of null")
  | Some name =>
      let identifier := ts.createIdentifier name in
      setSourceMapRange identifier sourceSpan
  end.

Definition visitWriteVarExpr
    (name : string) (value : Expression) (context : Context)
    : M ts.Node :=
  let* v := visitExpression value context in
  let result := ts.createBinary (ts.createIdentifier name)
                                ts.EqualsToken v in
  ret (if isStatement context then result else ts.createParen result).

Definition visitWriteKeyExpr
    (receiver index value : Expression) (context : Context)
    : M ts.Node :=
  let exprContext := withExpressionMode context in
  let* r := visitExpression receiver exprContext in
  let* i := visitExpression index exprContext in
  let lhs := ts.createElementAccess r i in
  let* rhs := visitExpression value exprContext in
  let result := ts.createBinary lhs ts.EqualsToken rhs in
  ret (if isStatement context then result else ts.createParen result).

Definition visitWritePropExpr
    (receiver : Expression) (name : string) (value : Expression)
    (context : Context) : M ts.Node :=
  let* r := visitExpression receiver context in
  let* v := visitExpression value context in
  ret (ts.createBinary (ts.createPropertyAccess r (inl name))
                       ts.EqualsToken v).

Definition visitInvokeMethodExpr
    (receiver : Expression) (name : option string)
    (args : list Expression) (sourceSpan : option ParseSourceSpan)
    (context : Context) : M ts.Node :=
  let* target := visitExpression receiver context in
  let* arguments :=
    mapM (fun arg => visitExpression arg context) args in
  let call :=
    ts.createCall
      (match name with
       | Some name => ts.createPropertyAccess target (inl name)
       | None => target
       end)
      arguments in
  setSourceMapRange call sourceSpan.

Definition visitInvokeFunctionExpr
    (fn : Expression) (args : list Expression) (pure : bool)
    (sourceSpan : option ParseSourceSpan) (context : Context)
    : M ts.Node :=
  let* callee := visitExpression fn context in
  let* arguments :=
    mapM (fun arg => visitExpression arg context) args in
  let expr := ts.createCall callee arguments in
  let expr :=
    if pure then
      ts.addSyntheticLeadingComment
        expr ts.MultiLineCommentTrivia "@__PURE__" false
    else expr in
  setSourceMapRange expr sourceSpan.

Definition visitInstantiateExpr
    (classExpr : Expression) (args : list Expression)
    (context : Context) : M ts.Node :=
  let* c := visitExpression classExpr context in
  let* arguments :=
    mapM (fun arg => visitExpression arg context) args in
  ret (ts.createNew c arguments).

Definition visitLiteralExpr
    (value : LiteralValue) (sourceSpan : option ParseSourceSpan)
    (context : Context) : M ts.Node :=
  let expr :=
    match value with
    | undefined => ts.createIdentifier "undefined"
    | null => ts.createNull
    | primitive v => ts.createLiteral v
    end in
  setSourceMapRange expr sourceSpan.


(** [this.imports.generateNamedImport(moduleName, symbol)]. *)
Definition imports_generateNamedImport (moduleName symbol : string)
    : M NamedImport :=
  fun this =>
    let '(result, imports') :=
      generateNamedImport (imports this) moduleName symbol in
    (Ok result,
     {| imports := imports';
        externalSourceFiles := externalSourceFiles this;
        effects := effects this ++ [GenerateNamedImport moduleName symbol]
     |}).

(** [this.defaultImportRecorder.recordUsedIdentifier(node)]. *)
Definition defaultImportRecorder_recordUsedIdentifier (node : ts.Node)
    : M unit :=
  modify (log (RecordUsedIdentifier node)).

Definition createLocalizedStringTaggedTemplate
    (ast : Expression) (messageParts : list MessagePiece)
    (expressions : list Expression)
    (sourceSpan : option ParseSourceSpan) (context : Context)
    : M ts.Node :=
  let length := Z.of_nat (List.length messageParts) in
  let metaBlock := serializeI18nHead ast in
  let* template :=
    if length =? 1 then
      let template :=
        ts.createNoSubstitutionTemplateLiteral
          (cooked metaBlock) (raw metaBlock) in
      setSourceMapRange template (getMessagePartSourceSpan ast 0)
    else
      let head := ts.createTemplateHead (cooked metaBlock)
                                        (raw metaBlock) in
      let* head := setSourceMapRange head
                     (getMessagePartSourceSpan ast 0) in
      let* spans :=
        forM
          (fun spans i =>
             let* resolvedExpression :=
               callAtZ (fun e => visitExpression e context)
                       expressions (i - 1) in
             let* resolvedExpression :=
               setSourceMapRange resolvedExpression
                 (getPlaceholderSourceSpan ast (i - 1)) in
             let templatePart := serializeI18nTemplatePart ast i in
             let templateMiddle :=
               createTemplateMiddle (cooked templatePart)
                                    (raw templatePart) in
             let* templateMiddle :=
               setSourceMapRange templateMiddle
                 (getMessagePartSourceSpan ast i) in
             let templateSpan :=
               ts.createTemplateSpan resolvedExpression templateMiddle in
             ret (spans ++ [templateSpan]))
          (seqZ 1 (length - 2)) [] in
      let* resolvedExpression :=
        callAtZ (fun e => visitExpression e context)
                expressions (length - 2) in
      let* resolvedExpression :=
        setSourceMapRange resolvedExpression
          (getPlaceholderSourceSpan ast (length - 2)) in
      let templatePart := serializeI18nTemplatePart ast (length - 1) in
      let templateTail :=
        createTemplateTail (cooked templatePart) (raw templatePart) in
      let* templateTail :=
        setSourceMapRange templateTail
          (getMessagePartSourceSpan ast (length - 1)) in
      let spans :=
        spans ++ [ts.createTemplateSpan resolvedExpression templateTail] in
      ret (ts.createTemplateExpression head spans) in
  let expression :=
    ts.createTaggedTemplate (ts.createIdentifier "$localize") template in
  setSourceMapRange expression sourceSpan.

Definition createLocalizedStringFunctionCall
    (ast : Expression) (messageParts : list MessagePiece)
    (expressions : list Expression) (context : Context) : M ts.Node :=
  let* arrays :=
    forM
      (fun arrays i =>
         let* e :=
           callAtZ (fun e => visitExpression e context)
                   expressions (i - 1) in
         ret (fst arrays ++ [serializeI18nTemplatePart ast i],
              snd arrays ++ [e]))
      (seqZ 1 (Z.of_nat (List.length messageParts) - 1))
      ([serializeI18nHead ast], []) in
  let messageParts' := fst arrays in
  let expressions' := snd arrays in
  let* helper :=
    imports_generateNamedImport "tslib" "__makeTemplateObject" in
  let __makeTemplateObjectHelper :=
    match moduleImport helper with
    | None => ts.createIdentifier (symbol helper)
    | Some moduleImport =>
        ts.createPropertyAccess
          (ts.createIdentifier moduleImport)
          (inr (ts.createIdentifier (symbol helper)))
    end in
  let* cookedLiterals :=
    mapMi (fun messagePart i =>
             createLiteral (cooked messagePart)
                           (getMessagePartSourceSpan ast i))
          messageParts' 0 in
  let* rawLiterals :=
    mapMi (fun messagePart i =>
             createLiteral (raw messagePart)
                           (getMessagePartSourceSpan ast i))
          messageParts' 0 in
  ret (ts.createCall
         (ts.createIdentifier "$localize")
         (ts.createCall __makeTemplateObjectHelper
            [ ts.createArrayLiteral cookedLiterals;
              ts.createArrayLiteral rawLiterals ]
          :: expressions')).

Definition visitLocalizedString
    (ast : Expression) (messageParts : list MessagePiece)
    (expressions : list Expression)
    (sourceSpan : option ParseSourceSpan) (context : Context)
    : M ts.Node :=
  let* localizedString :=
    if ts.ScriptTarget_ge scriptTarget ts.ES2015 then
      createLocalizedStringTaggedTemplate
        ast messageParts expressions sourceSpan context
    else
      createLocalizedStringFunctionCall
        ast messageParts expressions context in
  setSourceMapRange localizedString sourceSpan.

Definition visitExternalExpr
    (value : ExternalReference) (context : Context) : M ts.Node :=
  match name value with
  | None =>
      throw (Error_ ("Import unknown module or symbol "
                     +:+ ExternalReference_toString value))
  | Some name =>
      match moduleName value with
      | Some moduleName =>
          let* named := imports_generateNamedImport moduleName name in
          match moduleImport named with
          | None => ret (ts.createIdentifier (symbol named))
          | Some moduleImport =>
              ret (ts.createPropertyAccess
                     (ts.createIdentifier moduleImport)
                     (inr (ts.createIdentifier (symbol named))))
          end
      | None => ret (ts.createIdentifier name)
      end
  end.

(** [ast.condition instanceof ConditionalExpr]. *)
Definition instanceof_ConditionalExpr (e : Expression) : bool :=
  match e with ConditionalExpr _ _ _ _ => true | _ => false end.

Definition visitConditionalExpr
    (condition trueCase : Expression) (falseCase : option Expression)
    (context : Context) : M ts.Node :=
  let* cond := visitExpression condition context in
  let cond :=
    if instanceof_ConditionalExpr condition then ts.createParen cond
    else cond in
  let* whenTrue := visitExpression trueCase context in
  let* whenFalse :=
    match falseCase with
    | Some falseCase => visitExpression falseCase context
    | None => throw (TypeError "Cannot read property of null")
    end in
  ret (ts.createConditional cond whenTrue whenFalse).

Definition visitNotExpr (condition : Expression) (context : Context)
    : M ts.Node :=
  let* c := visitExpression condition context in
  ret (ts.createPrefix ts.ExclamationToken c).

Definition visitAssertNotNullExpr
    (condition : Expression) (context : Context) : M ts.Node :=
  visitExpression condition context.

Definition visitCastExpr (value : Expression) (context : Context)
    : M ts.Node :=
  visitExpression value context.

Definition visitFunctionExpr
    (params : list FnParam) (statements : list Statement)
    (name : option string) (context : Context) : M ts.Node :=
  let name :=
    match name with
    | Some n => if truthy n then Some n else None
    | None => None
    end in
  let parameters :=
    map (fun param => ts.createParameter (param_name param)) params in
  let* body :=
    mapM (fun stmt => visitStatement stmt context) statements in
  ret (ts.createFunctionExpression name parameters (ts.createBlock body)).

Definition visitUnaryOperatorExpr
    (operator : UnaryOperator.t) (expr : Expression) (context : Context)
    : M ts.Node :=
  match Map_get UNARY_OPERATORS operator with
  | None =>
      throw (Error_ ("Unknown unary operator: "
                     +:+ UnaryOperator.name_of operator))
  | Some token =>
      let* e := visitExpression expr context in
      ret (ts.createPrefix token e)
  end.

Definition visitBinaryOperatorExpr
    (operator : BinaryOperator.t) (lhs rhs : Expression)
    (context : Context) : M ts.Node :=
  match Map_get BINARY_OPERATORS operator with
  | None =>
      throw (Error_ ("Unknown binary operator: "
                     +:+ BinaryOperator.name_of operator))
  | Some token =>
      let* l := visitExpression lhs context in
      let* r := visitExpression rhs context in
      ret (ts.createBinary l token r)
  end.

Definition visitReadPropExpr
    (receiver : Expression) (name : string) (context : Context)
    : M ts.Node :=
  let* r := visitExpression receiver context in
  ret (ts.createPropertyAccess r (inl name)).

Definition visitReadKeyExpr
    (receiver index : Expression) (context : Context) : M ts.Node :=
  let* r := visitExpression receiver context in
  let* i := visitExpression index context in
  ret (ts.createElementAccess r i).

Definition visitLiteralArrayExpr
    (entries : list Expression) (sourceSpan : option ParseSourceSpan)
    (context : Context) : M ts.Node :=
  let* elements :=
    mapM (fun expr => visitExpression expr context) entries in
  setSourceMapRange (ts.createArrayLiteral elements) sourceSpan.

Definition visitLiteralMapExpr
    (entries : list (LiteralMapEntry Expression))
    (sourceSpan : option ParseSourceSpan) (context : Context)
    : M ts.Node :=
  let* properties :=
    mapM (fun entry =>
            let name :=
              if quoted entry
              then ts.createLiteral (ts.PString (key entry))
              else ts.createIdentifier (key entry) in
            let* v := visitExpression (value entry) context in
            ret (ts.createPropertyAssignment name v))
         entries in
  setSourceMapRange (ts.createObjectLiteral properties) sourceSpan.

Definition visitCommaExpr (parts : list Expression) (context : Context)
    : M ts.Node :=
  throw (Error_ "Method not implemented.").

Definition visitWrappedNodeExpr (node : ts.Node) (context : Context)
    : M ts.Node :=
  let* _ :=
    if ts.isIdentifier node
    then defaultImportRecorder_recordUsedIdentifier node
    else ret tt in
  ret node.

Definition visitTypeofExpr (expr : Expression) (context : Context)
    : M ts.Node :=
  let* e := visitExpression expr context in
  ret (ts.createTypeOf e).

End Methods.

(** ** Dispatch *)

(** [node.visitExpression(visitor, context)] calls the method of the
    visitor that belongs to the class of [node]. *)
Fixpoint visitExpression (ast : Expression) (context : Context)
    {struct ast} : M ts.Node :=
  match ast with
  | ReadVarExpr name sourceSpan =>
      visitReadVarExpr name sourceSpan context
  | WriteVarExpr name value _ =>
      visitWriteVarExpr visitExpression name value context
  | WriteKeyExpr receiver index value _ =>
      visitWriteKeyExpr visitExpression receiver index value context
  | WritePropExpr receiver name value _ =>
      visitWritePropExpr visitExpression receiver name value context
  | InvokeMethodExpr receiver name args sourceSpan =>
      visitInvokeMethodExpr visitExpression
        receiver name args sourceSpan context
  | InvokeFunctionExpr fn args pure sourceSpan =>
      visitInvokeFunctionExpr visitExpression
        fn args pure sourceSpan context
  | InstantiateExpr classExpr args _ =>
      visitInstantiateExpr visitExpression classExpr args context
  | LiteralExpr value sourceSpan =>
      visitLiteralExpr value sourceSpan context
  | LocalizedString _ messageParts _ expressions sourceSpan =>
      visitLocalizedString visitExpression
        ast messageParts expressions sourceSpan context
  | ExternalExpr value _ =>
      visitExternalExpr value context
  | ConditionalExpr condition trueCase falseCase _ =>
      visitConditionalExpr visitExpression
        condition trueCase falseCase context
  | NotExpr condition _ =>
      visitNotExpr visitExpression condition context
  | AssertNotNull condition _ =>
      visitAssertNotNullExpr visitExpression condition context
  | CastExpr value _ =>
      visitCastExpr visitExpression value context
  | FunctionExpr params statements name _ =>
      visitFunctionExpr visitStatement params statements name context
  | UnaryOperatorExpr operator expr _ =>
      visitUnaryOperatorExpr visitExpression operator expr context
  | BinaryOperatorExpr operator lhs rhs _ =>
      visitBinaryOperatorExpr visitExpression operator lhs rhs context
  | ReadPropExpr receiver name _ =>
      visitReadPropExpr visitExpression receiver name context
  | ReadKeyExpr receiver index _ =>
      visitReadKeyExpr visitExpression receiver index context
  | LiteralArrayExpr entries sourceSpan =>
      visitLiteralArrayExpr visitExpression entries sourceSpan context
  | LiteralMapExpr entries sourceSpan =>
      visitLiteralMapExpr visitExpression entries sourceSpan context
  | CommaExpr parts _ =>
      visitCommaExpr parts context
  | WrappedNodeExpr node _ =>
      visitWrappedNodeExpr node context
  | TypeofExpr expr _ =>
      visitTypeofExpr visitExpression expr context
  end
with visitStatement (stmt : Statement) (context : Context)
    {struct stmt} : M ts.Node :=
  match stmt with
  | DeclareVarStmt name value base =>
      visitDeclareVarStmt visitExpression name value base context
  | DeclareFunctionStmt name params statements base =>
      visitDeclareFunctionStmt visitStatement
        name params statements base context
  | ExpressionStatement expr base =>
      visitExpressionStmt visitExpression expr base context
  | ReturnStatement value base =>
      visitReturnStmt visitExpression value base context
  | ClassStmt name base =>
      visitDeclareClassStmt name base context
  | IfStmt condition trueCase falseCase base =>
      visitIfStmt visitExpression visitStatement
        condition trueCase falseCase base context
  | TryCatchStmt bodyStmts catchStmts base =>
      visitTryCatchStmt bodyStmts catchStmts base context
  | ThrowStmt error base =>
      visitThrowStmt visitExpression error base context
  end.

(** ** The entry points *)

(** [new ExpressionTranslatorVisitor(imports, defaultImportRecorder,
    scriptTarget)]. *)
Definition new_ExpressionTranslatorVisitor (imports : ImportManager)
    : ExpressionTranslatorVisitor :=
  {| imports := imports; externalSourceFiles := ∅; effects := [] |}.

Definition translateExpression
    (expression : Expression) (imports : ImportManager)
    : Result ts.Node * ExpressionTranslatorVisitor :=
  visitExpression expression (new_Context false)
                  (new_ExpressionTranslatorVisitor imports).

Definition translateStatement
    (statement : Statement) (imports : ImportManager)
    : Result ts.Node * ExpressionTranslatorVisitor :=
  visitStatement statement (new_Context true)
                 (new_ExpressionTranslatorVisitor imports).



(* ------------------------------------------------------------------- *)
(** ** Observations used in the statements below *)
(* ------------------------------------------------------------------- *)


(** The single-line comment unit made of one line. *)
Definition lineComment (trailingNewline : bool) (line : string)
    : ts.SynthesizedComment :=
  {| ts.kind := ts.SingleLineCommentTrivia; ts.comment_text := line;
     ts.hasTrailingNewLine := trailingNewline |}.

(** [spec R m post]: from any visitor, [m] leaves a visitor related to
    the first by [R], whether it returns or throws, and what it returns
    satisfies [post]. *)
Definition spec {A} (R : relation ExpressionTranslatorVisitor)
    (m : M A) (post : A -> Prop) : Prop :=
  forall this,
    match m this with
    | (Ok a, this') => R this this' /\ post a
    | (Throw _, this') => R this this'
    end.

(** The relation that holds between any two visitors: with it, [spec]
    speaks about the returned value alone. *)
Definition any_visitor : relation ExpressionTranslatorVisitor :=
  fun _ _ => True.


Definition isConditionalExpression (n : ts.Node) : bool :=
  match ts.syntax n with
  | ts.ConditionalExpression _ _ _ => true
  | _ => false
  end.

(** The source-file descriptors created so far, oldest first. *)
Definition createdSources (l : list Effect) : list ts.SourceMapSource :=
  flat_map (fun e =>
              match e with
              | CreateSourceMapSource url content =>
                  [ts.createSourceMapSource url content]
              | _ => []
              end) l.

(** The state of the source-file map is sound: no two descriptors were
    created for the same URL, and the map holds, under each URL, the
    descriptor created for it and nothing else. *)
Definition cache_inv (this : ExpressionTranslatorVisitor) : Prop :=
  NoDup (map ts.fileName (createdSources (effects this))) /\
  forall url d,
    externalSourceFiles this !! url = Some d <->
    d ∈ createdSources (effects this) /\ ts.fileName d = url.

(** From [this] to [this'] no entry of the source-file map was removed
    or replaced, and soundness was kept. *)
Definition cache_grows : relation ExpressionTranslatorVisitor :=
  fun this this' =>
    externalSourceFiles this ⊆ externalSourceFiles this' /\
    (cache_inv this -> cache_inv this').


(** The base fields of a statement. *)
Definition base_of (s : Statement) : StatementBase :=
  match s with
  | DeclareVarStmt _ _ b | DeclareFunctionStmt _ _ _ b
  | ExpressionStatement _ b | ReturnStatement _ b | ClassStmt _ b
  | IfStmt _ _ _ b | TryCatchStmt _ _ b | ThrowStmt _ b => b
  end.





(** *** Reading a lowered localized string *)

Definition templateLiteral_text (n : ts.Node) : option CookedRawString :=
  match ts.syntax n with
  | ts.NoSubstitutionTemplateLiteral c r | ts.TemplateHead c r
  | ts.TemplateMiddle c r | ts.TemplateTail c r =>
      Some {| cooked := c; raw := r |}
  | _ => None
  end.

Definition templateSpan_expression (n : ts.Node) : option ts.Node :=
  match ts.syntax n with
  | ts.TemplateSpan e _ => Some e
  | _ => None
  end.

Definition templateSpan_text (n : ts.Node) : option CookedRawString :=
  match ts.syntax n with
  | ts.TemplateSpan _ literal => templateLiteral_text literal
  | _ => None
  end.

Definition stringLiteral_text (n : ts.Node) : option string :=
  match ts.syntax n with
  | ts.StringLiteral s => Some s
  | _ => None
  end.

(** The expressions spliced into a tagged template, first to last. *)
Definition template_expressions (r : ts.Node) : list ts.Node :=
  match ts.syntax r with
  | ts.TaggedTemplateExpression _ template =>
      match ts.syntax template with
      | ts.TemplateExpression _ spans => omap templateSpan_expression spans
      | _ => []
      end
  | _ => []
  end.

(** The literal pieces of a tagged template, first to last. *)
Definition template_texts (r : ts.Node) : list CookedRawString :=
  match ts.syntax r with
  | ts.TaggedTemplateExpression _ template =>
      match ts.syntax template with
      | ts.NoSubstitutionTemplateLiteral c r =>
          [ {| cooked := c; raw := r |} ]
      | ts.TemplateExpression head spans =>
          option_list (templateLiteral_text head)
          ++ omap templateSpan_text spans
      | _ => []
      end
  | _ => []
  end.

(** The expressions passed to a call of the form
    [f(g(cooked, raw), e1, ..., ek)], first to last. *)
Definition call_expressions (r : ts.Node) : list ts.Node :=
  match ts.syntax r with
  | ts.CallExpression _ (_ :: es) => es
  | _ => []
  end.

(** The literal pieces of such a call: the cooked and raw strings of
    the two arrays, paired by position. *)
Definition call_texts (r : ts.Node) : list CookedRawString :=
  match ts.syntax r with
  | ts.CallExpression _ (first :: _) =>
      match ts.syntax first with
      | ts.CallExpression _ [cookedLiterals; rawLiterals] =>
          match ts.syntax cookedLiterals, ts.syntax rawLiterals with
          | ts.ArrayLiteralExpression cs, ts.ArrayLiteralExpression ws =>
              zip_with Build_CookedRawString
                       (omap stringLiteral_text cs)
                       (omap stringLiteral_text ws)
          | _, _ => []
          end
      | _ => []
      end
  | _ => []
  end.

(** The literal pieces of a localized string with [k] expressions, as
    its own methods serialize them. *)
Definition serialized_texts (ast : Expression) (k : nat)
    : list CookedRawString :=
  serializeI18nHead ast
  :: map (serializeI18nTemplatePart ast) (seqZ 1 (Z.of_nat k)).

(** [o] is a translation of [e]: what some visit of [e] in [context]
    returned, up to the source-map range of the node itself. *)
Definition translates (context : Context) (e : Expression) (o : ts.Node)
    : Prop :=
  exists this1 o' this2,
    visitExpression e context this1 = (Ok o', this2) /\
    ts.syntax o = ts.syntax o' /\
    ts.leadingComments o = ts.leadingComments o'.

(** [m] returns, whatever the visitor it starts from. *)
Definition total {A} (m : M A) : Prop :=
  forall this, exists a this', m this = (Ok a, this').


(* ------------------------------------------------------------------- *)
(** ** Reasoning about the monad *)
(* ------------------------------------------------------------------- *)

Lemma bind_Ok {A B} (m : M A) (f : A -> M B) this b this' :
  bind m f this = (Ok b, this') <->
  exists a this1, m this = (Ok a, this1) /\ f a this1 = (Ok b, this').
Proof.
  unfold bind. split.
  - destruct (m this) as [[a|e] this1]; [eauto | discriminate].
  - intros (a & this1 & -> & H). exact H.
Qed.

Lemma bind_Throw {A B} (m : M A) (f : A -> M B) this e this' :
  bind m f this = (Throw e, this') <->
  m this = (Throw e, this') \/
  exists a this1, m this = (Ok a, this1) /\ f a this1 = (Throw e, this').
Proof.
  unfold bind. split.
  - destruct (m this) as [[a|e0] this1]; [eauto | intros [= -> ->]; eauto].
  - intros [-> | (a & this1 & -> & H)]; [reflexivity | exact H].
Qed.

Lemma ret_Ok {A} (a b : A) this this' :
  ret a this = (Ok b, this') <-> a = b /\ this = this'.
Proof. unfold ret. split; [intros [= -> ->] | intros [-> ->]]; auto. Qed.

Lemma throw_Ok {A} e (b : A) this this' :
  throw e this = (Ok b, this') <-> False.
Proof. unfold throw. split; [discriminate | tauto]. Qed.

(** Break a hypothesis [m this = (Ok r, this')] along the binds of [m]. *)
Ltac inv_M H :=
  lazymatch type of H with
  | bind _ _ _ = (Ok _, _) =>
      let a := fresh "a" in
      let this1 := fresh "this1" in
      let H1 := fresh "H" in
      let H2 := fresh "H" in
      apply bind_Ok in H; destruct H as (a & this1 & H1 & H2);
      try inv_M H2
  | ret _ _ = (Ok _, _) =>
      apply ret_Ok in H; destruct H as [? ?]; subst
  | throw _ _ = (Ok _, _) => apply throw_Ok in H; destruct H
  | _ => idtac
  end.


(* ------------------------------------------------------------------- *)
(** ** Writes: parentheses follow the context bit *)
(* ------------------------------------------------------------------- *)

(** [attachComments] touches the comments of a statement and nothing
    else. *)
Lemma attachComments_syntax statement leadingComments :
  ts.syntax (attachComments statement leadingComments) = ts.syntax statement.
Proof.
  destruct leadingComments as [cs|]; [|reflexivity]. simpl.
  revert statement. induction cs as [|c cs IH]; intros st; [reflexivity|].
  simpl. rewrite IH. destruct (multiline c).
  - destruct st; reflexivity.
  - generalize (String_split LF (text c)). intros ls. revert st.
    induction ls as [|l ls IHl]; intros st; [reflexivity|].
    simpl. rewrite IHl. destruct st; reflexivity.
Qed.

Lemma visitExpression_WriteVarExpr_Ok name value sourceSpan context
      this r this' :
  visitExpression (WriteVarExpr name value sourceSpan) context this
  = (Ok r, this') ->
  exists v,
    visitExpression value context this = (Ok v, this') /\
    r = if isStatement context
        then ts.createBinary (ts.createIdentifier name) ts.EqualsToken v
        else ts.createParen
               (ts.createBinary (ts.createIdentifier name)
                                ts.EqualsToken v).
Proof.
  intros H. cbn [visitExpression] in H. unfold visitWriteVarExpr in H.
  inv_M H. eexists; split; [eassumption | reflexivity].
Qed.

(** [held] is what the factory makes of the callee or receiver [e]: the
    node itself when it is a left-hand-side expression, and otherwise a
    parenthesized-expression node that holds it. *)
Definition accessed (e held : ts.Node) : Prop :=
  (ts.isLeftHandSideExpression e = true -> held = e) /\
  (ts.isLeftHandSideExpression e = false ->
   ts.syntax held = ts.ParenthesizedExpression e).

Lemma accessed_parenthesizeForAccess e :
  accessed e (ts.parenthesizeForAccess e).
Proof.
  unfold accessed, ts.parenthesizeForAccess.
  destruct (ts.isLeftHandSideExpression e); split;
    (discriminate || reflexivity || (intros _; reflexivity)).
Qed.

(** [assignment] is a binary node with the operator [=] whose left
    operand is [lhs] and whose right operand is [v]: [v] itself when it is
    an expression, none of which binds looser than an assignment, and [v]
    in parentheses of the factory's own when it is no expression. *)
Definition assigns (assignment lhs v : ts.Node) : Prop :=
  exists rhs,
    ts.syntax assignment = ts.BinaryExpression lhs ts.EqualsToken rhs /\
    (3 <= ts.getExpressionPrecedence v -> rhs = v) /\
    (ts.getExpressionPrecedence v < 3 ->
     ts.syntax rhs = ts.ParenthesizedExpression v).

Lemma parenthesizeBinaryOperand_assigned v leftOperand :
  let rhs := ts.parenthesizeBinaryOperand ts.EqualsToken v false leftOperand in
  (3 <= ts.getExpressionPrecedence v -> rhs = v) /\
  (ts.getExpressionPrecedence v < 3 ->
   ts.syntax rhs = ts.ParenthesizedExpression v).
Proof.
  cbv zeta.
  unfold ts.parenthesizeBinaryOperand, ts.binaryOperandNeedsParentheses,
    ts.isParenthesizedExpression, ts.getExpressionPrecedence,
    ts.getExpressionAssociativity.
  destruct v as [s range comments]. cbn [ts.syntax].
  destruct s; try destruct operator;
    cbn; split; intros H; try reflexivity; try lia.
Qed.

Lemma createBinary_assigns lhs v :
  ts.isParenthesizedExpression lhs = false ->
  (3 <? ts.getExpressionPrecedence lhs) = true ->
  assigns (ts.createBinary lhs ts.EqualsToken v) lhs v.
Proof.
  intros Hparen Hprec. unfold ts.createBinary.
  assert (ts.parenthesizeBinaryOperand ts.EqualsToken lhs true None = lhs)
    as ->.
  { unfold ts.parenthesizeBinaryOperand, ts.binaryOperandNeedsParentheses.
    rewrite Hparen. cbn [ts.getBinaryExpressionPrecedence].
    apply Z.ltb_lt in Hprec. apply Z.lt_gt in Hprec. unfold Z.gt in Hprec.
    now rewrite Hprec. }
  eexists. split; [reflexivity|].
  apply parenthesizeBinaryOperand_assigned.
Qed.

(** C2. A write-variable or write-by-key expression is translated, in
    statement mode, to an assignment node, and in expression mode to a
    parenthesized-expression node that holds that assignment node; a
    write-property expression is translated to an assignment node in
    either mode.  The assignment node is a binary node with the operator
    [=]; its right operand is the translated value, and its left operand
    is an identifier node of the variable, an element-access node of the
    translated receiver and index, or a property-access node of the
    translated receiver and the property name.  The receiver is held in
    parentheses when it is no left-hand-side expression. *)
Theorem C2_write_parentheses_follow_context :
  forall context this r this',
    (forall name value sourceSpan,
        visitExpression (WriteVarExpr name value sourceSpan) context this
        = (Ok r, this') ->
        exists v assignment lhs,
          visitExpression value context this = (Ok v, this') /\
          assigns assignment lhs v /\
          ts.syntax lhs = ts.Identifier name /\
          (isStatement context = true ->
           r = assignment /\ ts.isParenthesizedExpression r = false) /\
          (isStatement context = false ->
           ts.syntax r = ts.ParenthesizedExpression assignment))
    /\
    (forall receiver index value sourceSpan,
        visitExpression (WriteKeyExpr receiver index value sourceSpan)
                        context this
        = (Ok r, this') ->
        exists rcv idx v this1 this2 assignment lhs object,
          visitExpression receiver (withExpressionMode context) this
          = (Ok rcv, this1) /\
          visitExpression index (withExpressionMode context) this1
          = (Ok idx, this2) /\
          visitExpression value (withExpressionMode context) this2
          = (Ok v, this') /\
          assigns assignment lhs v /\
          ts.syntax lhs = ts.ElementAccessExpression object idx /\
          accessed rcv object /\
          (isStatement context = true ->
           r = assignment /\ ts.isParenthesizedExpression r = false) /\
          (isStatement context = false ->
           ts.syntax r = ts.ParenthesizedExpression assignment))
    /\
    (forall receiver name value sourceSpan,
        visitExpression (WritePropExpr receiver name value sourceSpan)
                        context this
        = (Ok r, this') ->
        exists rcv v this1 lhs object property,
          visitExpression receiver context this = (Ok rcv, this1) /\
          visitExpression value context this1 = (Ok v, this') /\
          assigns r lhs v /\
          ts.syntax lhs = ts.PropertyAccessExpression object property /\
          ts.syntax property = ts.Identifier name /\
          accessed rcv object /\
          ts.isParenthesizedExpression r = false).
Proof.
  intros context this r this'. repeat apply conj.
  - intros name value sourceSpan H.
    apply visitExpression_WriteVarExpr_Ok in H.
    destruct H as (v & Hv & ->).
    exists v, (ts.createBinary (ts.createIdentifier name) ts.EqualsToken v),
      (ts.createIdentifier name).
    split; [exact Hv|].
    split; [apply createBinary_assigns; reflexivity|].
    split; [reflexivity|].
    split; intros ->; [split|]; reflexivity.
  - intros receiver index value sourceSpan H.
    cbn [visitExpression] in H. unfold visitWriteKeyExpr in H.
    inv_M H.
    exists a, a0, a1, this1, this0,
      (ts.createBinary (ts.createElementAccess a a0) ts.EqualsToken a1),
      (ts.createElementAccess a a0), (ts.parenthesizeForAccess a).
    repeat (split; [eassumption|]).
    split; [apply createBinary_assigns; reflexivity|].
    split; [reflexivity|].
    split; [apply accessed_parenthesizeForAccess|].
    split; intros ->; [split|]; reflexivity.
  - intros receiver name value sourceSpan H.
    cbn [visitExpression] in H. unfold visitWritePropExpr in H.
    inv_M H.
    exists a, a0, this1, (ts.createPropertyAccess a (inl name)),
      (ts.parenthesizeForAccess a), (ts.createIdentifier name).
    repeat (split; [eassumption|]).
    split; [apply createBinary_assigns; reflexivity|].
    split; [reflexivity|]. split; [reflexivity|].
    split; [apply accessed_parenthesizeForAccess | reflexivity].
Qed.


(** C10. [translateExpression] starts in expression mode, so a
    write-variable expression handed to it comes back as a
    parenthesized-expression node that holds the assignment node;
    [translateStatement] starts in statement mode, so the same expression
    as the body of an expression statement comes back as the assignment
    node itself, with no parentheses between the statement and it.  The
    assignment node is a binary node with the operator [=], an identifier
    node of the variable on its left and the translated value on its
    right. *)
Theorem C10_entry_points_and_write_variable :
  forall name value sourceSpan imports r this',
    (translateExpression (WriteVarExpr name value sourceSpan) imports
     = (Ok r, this') ->
     exists v assignment lhs,
       translateExpression value imports = (Ok v, this') /\
       ts.syntax r = ts.ParenthesizedExpression assignment /\
       assigns assignment lhs v /\
       ts.syntax lhs = ts.Identifier name)
    /\
    (forall base,
        translateStatement
          (ExpressionStatement (WriteVarExpr name value sourceSpan) base)
          imports
        = (Ok r, this') ->
        exists v assignment lhs,
          visitExpression value (new_Context true)
                          (new_ExpressionTranslatorVisitor imports)
          = (Ok v, this') /\
          ts.syntax r = ts.ExpressionStatement assignment /\
          assigns assignment lhs v /\
          ts.syntax lhs = ts.Identifier name).
Proof.
  intros name value sourceSpan imports0 r this'. split.
  - unfold translateExpression. intros H.
    apply visitExpression_WriteVarExpr_Ok in H.
    destruct H as (v & Hv & ->).
    exists v, (ts.createBinary (ts.createIdentifier name) ts.EqualsToken v),
      (ts.createIdentifier name).
    split; [exact Hv|]. split; [reflexivity|].
    split; [apply createBinary_assigns; reflexivity | reflexivity].
  - intros base. unfold translateStatement. intros H.
    cbn [visitStatement] in H. unfold visitExpressionStmt in H.
    inv_M H.
    apply visitExpression_WriteVarExpr_Ok in H0.
    destruct H0 as (v & Hv & ->).
    exists v, (ts.createBinary (ts.createIdentifier name) ts.EqualsToken v),
      (ts.createIdentifier name).
    split; [exact Hv|].
    rewrite attachComments_syntax.
    split; [reflexivity|].
    split; [apply createBinary_assigns; reflexivity | reflexivity].
Qed.


(* ------------------------------------------------------------------- *)
(** ** Statements that wrap one expression *)
(* ------------------------------------------------------------------- *)

(** The node a printed expression begins with is an object literal or a
    function expression: as a statement it would read as a block or as a
    function declaration. *)
Definition startsWithObjectOrFunction (e : ts.Node) : bool :=
  match ts.syntax (ts.getLeftmostExpression e false) with
  | ts.ObjectLiteralExpression _ | ts.FunctionExpression _ _ _ => true
  | _ => false
  end.

(** [e] is a call whose callee is a function expression. *)
Definition callsFunctionExpression (e : ts.Node) : bool :=
  match ts.syntax e with
  | ts.CallExpression callee _ =>
      match ts.syntax callee with
      | ts.FunctionExpression _ _ _ => true
      | _ => false
      end
  | _ => false
  end.

Lemma parenthesizeExpressionForExpressionStatement_cases e :
  let e' := ts.parenthesizeExpressionForExpressionStatement e in
  (startsWithObjectOrFunction e = false -> e' = e) /\
  (startsWithObjectOrFunction e = true ->
   callsFunctionExpression e = false ->
   ts.syntax e' = ts.ParenthesizedExpression e) /\
  (callsFunctionExpression e = true ->
   exists callee arguments,
     ts.syntax e = ts.CallExpression callee arguments /\
     ts.syntax e'
     = ts.CallExpression (ts.createParen callee) arguments /\
     ts.sourceMapRange e' = ts.sourceMapRange e /\
     ts.leadingComments e' = ts.leadingComments e).
Proof.
  unfold startsWithObjectOrFunction, callsFunctionExpression.
  destruct e as [s range comments].
  destruct s; cbn [ts.syntax ts.parenthesizeExpressionForExpressionStatement];
    try (repeat apply conj;
         [ intros H;
           destruct (ts.syntax (ts.getLeftmostExpression _ false));
           (reflexivity || discriminate)
         | intros H _;
           destruct (ts.syntax (ts.getLeftmostExpression _ false));
           (reflexivity || discriminate)
         | discriminate ]).
  (* a call *)
  destruct expression as [callee crange ccomments].
  destruct callee;
    cbn [ts.syntax ts.getLeftmostExpression];
    repeat apply conj;
    try discriminate;
    try (intros H;
         destruct (ts.syntax (ts.getLeftmostExpression _ false)) eqn:E;
         simpl in *; rewrite ?E in *;
         (reflexivity || discriminate));
    try (intros H _;
         destruct (ts.syntax (ts.getLeftmostExpression _ false)) eqn:E;
         simpl in *; rewrite ?E in *;
         (reflexivity || discriminate));
    try (intros _; do 2 eexists; repeat split; reflexivity);
    try (intros; reflexivity).
Qed.

(** C4 (as the code has it). A return statement and a throw statement
    visit the expression they contain in expression mode, and the
    statement built holds the translated expression itself, with nothing
    wrapped around it.  An expression statement visits its expression in
    statement mode, and the statement built holds the translated
    expression itself unless that begins with an object literal or a
    function expression: then it holds it in parentheses, or, when it is
    a call of a function expression, with the callee in parentheses.  In
    all three the visit succeeds exactly when the visit of the expression
    does. *)
Theorem C4_statement_holds_translated_expression :
  forall context this r this',
    (forall value base,
        visitStatement (ReturnStatement value base) context this
        = (Ok r, this') <->
        exists e,
          visitExpression value (withExpressionMode context) this
          = (Ok e, this') /\
          r = attachComments (ts.createReturn e) (leadingComments base) /\
          ts.syntax r = ts.ReturnStatement e)
    /\
    (forall error base,
        visitStatement (ThrowStmt error base) context this
        = (Ok r, this') <->
        exists e,
          visitExpression error (withExpressionMode context) this
          = (Ok e, this') /\
          r = attachComments (ts.createThrow e) (leadingComments base) /\
          ts.syntax r = ts.ThrowStatement e)
    /\
    (forall expr base,
        visitStatement (ExpressionStatement expr base) context this
        = (Ok r, this') <->
        exists e held,
          visitExpression expr (withStatementMode context) this
          = (Ok e, this') /\
          r = attachComments (ts.createStatement e) (leadingComments base)
          /\ ts.syntax r = ts.ExpressionStatement held /\
          (startsWithObjectOrFunction e = false -> held = e) /\
          (startsWithObjectOrFunction e = true ->
           callsFunctionExpression e = false ->
           ts.syntax held = ts.ParenthesizedExpression e) /\
          (callsFunctionExpression e = true ->
           exists callee arguments wrapped,
             ts.syntax e = ts.CallExpression callee arguments /\
             ts.syntax held = ts.CallExpression wrapped arguments /\
             ts.syntax wrapped = ts.ParenthesizedExpression callee)).
Proof.
  intros context this r this'. repeat split.
  - intros H. cbn [visitStatement] in H. unfold visitReturnStmt in H.
    inv_M H. eexists. split; [eassumption|].
    split; [reflexivity | apply attachComments_syntax].
  - intros (e & He & -> & _). cbn [visitStatement].
    unfold visitReturnStmt. apply bind_Ok. eauto.
  - intros H. cbn [visitStatement] in H. unfold visitThrowStmt in H.
    inv_M H. eexists. split; [eassumption|].
    split; [reflexivity | apply attachComments_syntax].
  - intros (e & He & -> & _). cbn [visitStatement].
    unfold visitThrowStmt. apply bind_Ok. eauto.
  - intros H. cbn [visitStatement] in H. unfold visitExpressionStmt in H.
    inv_M H.
    exists a, (ts.parenthesizeExpressionForExpressionStatement a).
    split; [eassumption|]. split; [reflexivity|].
    split; [apply attachComments_syntax|].
    destruct (parenthesizeExpressionForExpressionStatement_cases a)
      as (H1 & H2 & H3).
    split; [exact H1|]. split; [exact H2|].
    intros Hc. destruct (H3 Hc) as (callee & arguments & Ha & Hh & _).
    exists callee, arguments, (ts.createParen callee).
    split; [exact Ha|]. split; [exact Hh | reflexivity].
  - intros (e & held & He & -> & _). cbn [visitStatement].
    unfold visitExpressionStmt. apply bind_Ok. eauto.
Qed.

(* ------------------------------------------------------------------- *)
(** ** Variable declarations *)
(* ------------------------------------------------------------------- *)



(** A declare-variable statement without an initializer is always
    translated. *)
Lemma visitDeclareVarStmt_no_initializer name base context this :
  exists r,
    visitStatement (DeclareVarStmt name None base) context this
    = (Ok r, this).
Proof. eexists. reflexivity. Qed.


(* ------------------------------------------------------------------- *)
(** ** External references *)
(* ------------------------------------------------------------------- *)

(** C6. An external reference with a symbol name and a module name asks
    the import manager once, for that module and symbol, and is
    translated to an identifier node of the symbol returned when no
    module alias comes back, and otherwise to a property-access node
    whose expression is an identifier node of the alias and whose name
    is an identifier node of the symbol returned; with a symbol name and
    no module name it is translated to an identifier node of the symbol
    name and the visitor, import manager included, is left as it was;
    without a symbol name the visit throws and nothing has been asked. *)
Theorem C6_external_reference_resolution :
  forall value sourceSpan context this,
    (forall symbolName,
        name value = Some symbolName ->
        (forall module,
            moduleName value = Some module ->
            let named :=
              fst (generateNamedImport (imports this) module symbolName) in
            exists r,
              visitExpression (ExternalExpr value sourceSpan) context this
              = (Ok r,
                 {| imports :=
                      snd (generateNamedImport (imports this)
                                               module symbolName);
                    externalSourceFiles := externalSourceFiles this;
                    effects :=
                      effects this
                      ++ [GenerateNamedImport module symbolName] |})
              /\
              match moduleImport named with
              | None => ts.syntax r = ts.Identifier (symbol named)
              | Some alias =>
                  exists object property,
                    ts.syntax r
                    = ts.PropertyAccessExpression object property /\
                    ts.syntax object = ts.Identifier alias /\
                    ts.syntax property = ts.Identifier (symbol named)
              end)
        /\
        (moduleName value = None ->
         exists r,
           visitExpression (ExternalExpr value sourceSpan) context this
           = (Ok r, this) /\
           ts.syntax r = ts.Identifier symbolName))
    /\
    (name value = None ->
     exists message,
       visitExpression (ExternalExpr value sourceSpan) context this
       = (Throw (Error_ message), this)).
Proof.
  intros value sourceSpan context this. split.
  - intros symbolName Hname. split.
    + intros module Hmodule. cbn [visitExpression].
      unfold visitExternalExpr. rewrite Hname, Hmodule.
      unfold bind, imports_generateNamedImport.
      destruct (generateNamedImport (imports this) module symbolName)
        as [named imports'].
      cbn [fst snd]. destruct (moduleImport named) as [alias|].
      * eexists. split; [reflexivity|].
        do 2 eexists. repeat split; reflexivity.
      * eexists. split; reflexivity.
    + intros Hmodule. cbn [visitExpression].
      unfold visitExternalExpr. rewrite Hname, Hmodule.
      eexists. split; reflexivity.
  - intros Hname. cbn [visitExpression]. unfold visitExternalExpr.
    rewrite Hname. eexists. reflexivity.
Qed.

(* ------------------------------------------------------------------- *)
(** ** Shapes the translator refuses *)
(* ------------------------------------------------------------------- *)

(** C7. The visit of a declare-class statement throws at every target,
    with a message that names the target when the target is below
    ES2015; the visit of a try-catch statement and of a comma expression
    throws "Method not implemented."; the visit of a unary or binary
    operator expression whose operator has no entry in the operator
    table throws.  In each case no node is returned and the visitor is
    left as it was. *)
Theorem C7_unsupported_shapes_throw :
  forall context this,
    (forall name base,
        visitStatement (ClassStmt name base) context this
        = (Throw
             (Error_
                (if ts.ScriptTarget_lt scriptTarget ts.ES2015 then
                   "Unsupported mode: Visiting a " +:+ dquote
                   +:+ "declare class" +:+ dquote
                   +:+ " statement (class " +:+ name +:+ ") while "
                   +:+ "targeting " +:+ ts.ScriptTarget_name scriptTarget
                   +:+ "."
                 else "Method not implemented.")),
           this))
    /\
    (forall bodyStmts catchStmts base,
        visitStatement (TryCatchStmt bodyStmts catchStmts base) context this
        = (Throw (Error_ "Method not implemented."), this))
    /\
    (forall parts sourceSpan,
        visitExpression (CommaExpr parts sourceSpan) context this
        = (Throw (Error_ "Method not implemented."), this))
    /\
    (forall operator expr sourceSpan,
        Map_has UNARY_OPERATORS operator = false ->
        visitExpression (UnaryOperatorExpr operator expr sourceSpan)
                        context this
        = (Throw (Error_ ("Unknown unary operator: "
                          +:+ UnaryOperator.name_of operator)),
           this))
    /\
    (forall operator lhs rhs sourceSpan,
        Map_has BINARY_OPERATORS operator = false ->
        visitExpression (BinaryOperatorExpr operator lhs rhs sourceSpan)
                        context this
        = (Throw (Error_ ("Unknown binary operator: "
                          +:+ BinaryOperator.name_of operator)),
           this)).
Proof.
  intros context this. repeat split.
  - intros name0 base. cbn [visitStatement]. unfold visitDeclareClassStmt.
    destruct (ts.ScriptTarget_lt scriptTarget ts.ES2015); reflexivity.
  - intros operator expr sourceSpan Hhas. cbn [visitExpression].
    unfold visitUnaryOperatorExpr. unfold Map_has in Hhas.
    apply bool_decide_eq_false in Hhas.
    destruct (Map_get UNARY_OPERATORS operator) as [token|] eqn:Hget.
    + exfalso. apply Hhas. eauto.
    + reflexivity.
  - intros operator lhs rhs sourceSpan Hhas. cbn [visitExpression].
    unfold visitBinaryOperatorExpr. unfold Map_has in Hhas.
    apply bool_decide_eq_false in Hhas.
    destruct (Map_get BINARY_OPERATORS operator) as [token|] eqn:Hget.
    + exfalso. apply Hhas. eauto.
    + reflexivity.
Qed.


(* ------------------------------------------------------------------- *)
(** ** Comments *)
(* ------------------------------------------------------------------- *)

Lemma String_split_not_nil sep s : String_split sep s <> [].
Proof.
  destruct s as [|c s]; simpl; [discriminate|].
  destruct (Ascii.eqb c sep); [discriminate|].
  destruct (String_split sep s); discriminate.
Qed.

Lemma String_split_length sep s :
  List.length (String_split sep s) = S (String_count sep s).
Proof.
  induction s as [|c s IH]; simpl; [reflexivity|].
  destruct (Ascii.eqb c sep); simpl; [now rewrite IH|].
  destruct (String_split sep s) as [|piece pieces] eqn:E; simpl in *;
    [discriminate | exact IH].
Qed.

Lemma String_join_split sep s : String_join sep (String_split sep s) = s.
Proof.
  induction s as [|c s IH]; simpl; [reflexivity|].
  destruct (Ascii.eqb_spec c sep) as [->|Hne].
  - pose proof (String_split_not_nil sep s) as Hnil.
    destruct (String_split sep s) as [|piece pieces]; [contradiction|].
    change (String_join sep (EmptyString :: piece :: pieces))
      with (String sep (String_join sep (piece :: pieces))).
    now rewrite IH.
  - pose proof (String_split_not_nil sep s) as Hnil.
    destruct (String_split sep s) as [|piece pieces]; [contradiction|].
    destruct pieces as [|piece' pieces].
    + simpl in *. now rewrite IH.
    + change (String_join sep (String c piece :: piece' :: pieces))
        with (String c (piece +:+ String sep
                          (String_join sep (piece' :: pieces)))).
      change (String_join sep (piece :: piece' :: pieces))
        with (piece +:+ String sep (String_join sep (piece' :: pieces)))
        in IH.
      now rewrite IH.
Qed.


Lemma addSyntheticLeadingComment_lines nl lines statement :
  ts.leadingComments
    (fold_left
       (fun statement line =>
          ts.addSyntheticLeadingComment
            statement ts.SingleLineCommentTrivia line nl)
       lines statement)
  = ts.leadingComments statement ++ map (lineComment nl) lines.
Proof.
  revert statement. induction lines as [|l lines IH]; intros st; simpl.
  - now rewrite app_nil_r.
  - rewrite IH. destruct st as [s r c]. simpl.
    now rewrite <- app_assoc.
Qed.

(** C8 (as the code has it). The comments [attachComments] adds to a
    statement come after the ones it has, one group per leading comment
    and in the order of the list.  The group of a block comment is one
    multi-line unit with the string the [toString()] of the comment
    gives, which for a comment of the class [LeadingComment] itself is
    not its text but its text between two spaces; the group of a line
    comment whose text has n line feeds is n + 1 single-line units, which
    all carry the trailing-newline flag of the comment and whose texts,
    joined by line feeds, are the text of the comment. *)
Theorem C8_comment_units :
  forall statement comments,
  exists groups : list (list ts.SynthesizedComment),
    ts.leadingComments (attachComments statement (Some comments))
    = ts.leadingComments statement ++ List.concat groups
    /\
    Forall2
      (fun comment group =>
         if multiline comment then
           group = [ {| ts.kind := ts.MultiLineCommentTrivia;
                        ts.comment_text := toString comment;
                        ts.hasTrailingNewLine := trailingNewline comment |} ]
           /\ (forall text nl,
                  comment = new_LeadingComment text true nl ->
                  group = [ {| ts.kind := ts.MultiLineCommentTrivia;
                               ts.comment_text := " " +:+ text +:+ " ";
                               ts.hasTrailingNewLine := nl |} ])
         else
           List.length group = S (String_count LF (text comment))
           /\ Forall (fun unit =>
                        ts.kind unit = ts.SingleLineCommentTrivia
                        /\ ts.hasTrailingNewLine unit
                           = trailingNewline comment) group
           /\ String_join LF (map ts.comment_text group) = text comment)
      comments groups.
Proof.
  intros statement comments. revert statement.
  induction comments as [|c cs IH]; intros statement.
  - exists []. simpl. rewrite app_nil_r. split; [reflexivity|constructor].
  - simpl.
    destruct (multiline c) eqn:Hmulti.
    + destruct (IH (ts.addSyntheticLeadingComment
                      statement ts.MultiLineCommentTrivia
                      (toString c) (trailingNewline c)))
        as (groups & Hcomments & Hgroups).
      eexists (_ :: groups). split.
      * simpl in Hcomments. rewrite Hcomments.
        destruct statement as [s r cm]. simpl.
        rewrite <- app_assoc. reflexivity.
      * constructor; [|exact Hgroups]. rewrite Hmulti.
        split; [reflexivity|]. intros text0 nl Hc. rewrite Hc. reflexivity.
    + destruct (IH (fold_left
                      (fun statement line =>
                         ts.addSyntheticLeadingComment
                           statement ts.SingleLineCommentTrivia line
                           (trailingNewline c))
                      (String_split LF (text c)) statement))
        as (groups & Hcomments & Hgroups).
      exists (map (lineComment (trailingNewline c))
                  (String_split LF (text c)) :: groups).
      split.
      * simpl in Hcomments. rewrite Hcomments.
        rewrite addSyntheticLeadingComment_lines.
        simpl. rewrite <- app_assoc. reflexivity.
      * constructor; [|exact Hgroups]. rewrite Hmulti.
        split; [|split].
        -- rewrite length_map. apply String_split_length.
        -- apply Forall_map. apply Forall_forall. intros; split; reflexivity.
        -- rewrite map_map. simpl. rewrite map_id.
           apply String_join_split.
Qed.


(* ------------------------------------------------------------------- *)
(** ** A program logic for the visitor *)
(* ------------------------------------------------------------------- *)


Lemma spec_Ok {A} R (m : M A) post this a this' :
  spec R m post -> m this = (Ok a, this') -> R this this' /\ post a.
Proof. intros H E. specialize (H this). now rewrite E in H. Qed.

Lemma spec_state {A} R (m : M A) post this :
  spec R m post -> R this (snd (m this)).
Proof.
  intros H. specialize (H this).
  destruct (m this) as [[a|e] this']; simpl; tauto.
Qed.

Section Rules.

Context (R : relation ExpressionTranslatorVisitor) `{!PreOrder R}.

Lemma spec_ret {A} (a : A) (post : A -> Prop) :
  post a -> spec R (ret a) post.
Proof. intros H this. simpl. split; [reflexivity | exact H]. Qed.

Lemma spec_throw {A} e (post : A -> Prop) : spec R (throw e) post.
Proof. intros this. simpl. reflexivity. Qed.

Lemma spec_bind {A B} (m : M A) (f : A -> M B) mid post :
  spec R m mid ->
  (forall a, mid a -> spec R (f a) post) ->
  spec R (bind m f) post.
Proof.
  intros Hm Hf this. unfold bind. specialize (Hm this).
  destruct (m this) as [[a|e] this1]; [|exact Hm].
  destruct Hm as [HR Ha]. specialize (Hf a Ha this1).
  destruct (f a this1) as [[b|e] this2].
  - destruct Hf as [HR' Hb]. split; [etransitivity; eassumption | exact Hb].
  - etransitivity; eassumption.
Qed.

Lemma spec_weaken {A} (m : M A) (post post' : A -> Prop) :
  spec R m post -> (forall a, post a -> post' a) -> spec R m post'.
Proof.
  intros Hm Himp this. specialize (Hm this).
  destruct (m this) as [[a|e] this1]; [|exact Hm].
  destruct Hm; split; auto.
Qed.

Lemma spec_gets {A} (f : ExpressionTranslatorVisitor -> A)
      (post : A -> Prop) :
  (forall this, post (f this)) -> spec R (gets f) post.
Proof. intros H this. simpl. split; [reflexivity | apply H]. Qed.

Lemma spec_modify f (post : unit -> Prop) :
  (forall this, R this (f this)) -> post tt -> spec R (modify f) post.
Proof. intros H Hp this. simpl. split; [apply H | exact Hp]. Qed.

Lemma spec_mapM {A B} (f : A -> M B) (post : A -> B -> Prop) l :
  Forall (fun x => spec R (f x) (post x)) l ->
  spec R (mapM f l) (Forall2 post l).
Proof.
  induction 1 as [|x l Hx Hl IH]; simpl.
  - apply spec_ret. constructor.
  - eapply spec_bind; [exact Hx|]. intros y Hy.
    eapply spec_bind; [exact IH|]. intros ys Hys.
    apply spec_ret. now constructor.
Qed.

Lemma spec_mapMi {A B} (f : A -> Z -> M B) (post : A -> B -> Prop) l :
  Forall (fun x => forall i, spec R (f x i) (post x)) l ->
  forall i, spec R (mapMi f l i) (Forall2 post l).
Proof.
  induction 1 as [|x l Hx Hl IH]; intros i; simpl.
  - apply spec_ret. constructor.
  - eapply spec_bind; [apply Hx|]. intros y Hy.
    eapply spec_bind; [apply IH|]. intros ys Hys.
    apply spec_ret. now constructor.
Qed.

Lemma spec_callAt {A B} (f : A -> M B) (post : A -> B -> Prop) l :
  Forall (fun x => spec R (f x) (post x)) l ->
  forall i,
    spec R (callAt f l i)
         (fun b => exists x, l !! i = Some x /\ post x b).
Proof.
  induction 1 as [|x l Hx Hl IH]; intros i; simpl.
  - apply spec_throw.
  - destruct i as [|i].
    + eapply spec_weaken; [exact Hx|]. intros b Hb. eauto.
    + apply IH.
Qed.

Lemma spec_callAtZ {A B} (f : A -> M B) (post : A -> B -> Prop) l i :
  Forall (fun x => spec R (f x) (post x)) l ->
  spec R (callAtZ f l i)
       (fun b => exists x,
            0 <= i /\ l !! Z.to_nat i = Some x /\ post x b).
Proof.
  intros Hl. unfold callAtZ. destruct (Z.ltb_spec i 0).
  - apply spec_throw.
  - eapply spec_weaken; [apply spec_callAt; exact Hl|].
    intros b (x & Hx & Hb). eauto.
Qed.

(** The rule for a counting loop, with an invariant on the loop's
    variables that depends on the index reached. *)
Lemma spec_forM_seqZ {St} (body : St -> Z -> M St)
      (Inv : Z -> St -> Prop)
      start (n : nat) acc :
  Inv start acc ->
  (forall i acc,
      start <= i < start + Z.of_nat n ->
      Inv i acc -> spec R (body acc i) (Inv (i + 1))) ->
  spec R (forM body (seqZ start (Z.of_nat n)) acc)
       (Inv (start + Z.of_nat n)).
Proof.
  revert start acc. induction n as [|n IH]; intros start acc Hinv Hbody.
  - simpl. apply spec_ret. now rewrite Z.add_0_r.
  - rewrite seqZ_cons by lia. simpl.
    eapply spec_bind; [apply Hbody; [lia | exact Hinv]|].
    intros acc' Hacc'.
    replace (Z.pred (Z.of_nat (S n))) with (Z.of_nat n) by lia.
    replace (start + Z.of_nat (S n)) with (Z.succ start + Z.of_nat n)
      by lia.
    apply IH.
    + now replace (Z.succ start) with (start + 1) by lia.
    + intros i acc0 Hi. apply Hbody. lia.
Qed.


(** The rule for a loop with an invariant that does not mention the
    index. *)
Lemma spec_forM {St} (body : St -> Z -> M St) (Inv : St -> Prop) l acc :
  Inv acc ->
  (forall acc i, Inv acc -> spec R (body acc i) Inv) ->
  spec R (forM body l acc) Inv.
Proof.
  intros Hinv Hbody. revert acc Hinv.
  induction l as [|i l IH]; intros acc Hinv; simpl.
  - now apply spec_ret.
  - eapply spec_bind; [apply Hbody, Hinv|]. intros acc' Hacc'.
    now apply IH.
Qed.

End Rules.


#[local] Instance any_visitor_preorder : PreOrder any_visitor.
Proof. split; [intros ? | intros ? ? ?]; unfold any_visitor; auto. Qed.


(* ------------------------------------------------------------------- *)
(** ** Conditionals: where the parentheses go *)
(* ------------------------------------------------------------------- *)

Lemma spec_any_visitor {A} (m : M A) (post : A -> Prop) :
  (forall this a this', m this = (Ok a, this') -> post a) ->
  spec any_visitor m post.
Proof.
  intros H this. destruct (m this) as [[a|e] this'] eqn:E.
  - split; [exact I | eapply H; exact E].
  - exact I.
Qed.

Lemma setSourceMapRange_total expr sourceSpan this :
  exists r this',
    setSourceMapRange expr sourceSpan this = (Ok r, this') /\
    ts.syntax r = ts.syntax expr /\
    ts.leadingComments r = ts.leadingComments expr.
Proof.
  unfold setSourceMapRange.
  destruct sourceSpan as [span|];
    [|do 2 eexists; split; [reflexivity | split; reflexivity]].
  destruct (truthy _);
    [|do 2 eexists; split; [reflexivity | split; reflexivity]].
  unfold bind, gets, modify, ret.
  destruct (negb _); simpl; do 2 eexists;
    (split; [reflexivity | destruct expr; split; reflexivity]).
Qed.

Lemma setSourceMapRange_syntax expr sourceSpan this r this' :
  setSourceMapRange expr sourceSpan this = (Ok r, this') ->
  ts.syntax r = ts.syntax expr.
Proof.
  intros H.
  destruct (setSourceMapRange_total expr sourceSpan this)
    as (r0 & this0 & E & Hs & _).
  rewrite E in H. now inversion H; subst.
Qed.

Lemma spec_conj {A} R (m : M A) (post post' : A -> Prop) :
  spec R m post -> spec R m post' ->
  spec R m (fun a => post a /\ post' a).
Proof.
  intros H H' this. specialize (H this). specialize (H' this).
  destruct (m this) as [[a|e] this']; tauto.
Qed.

Lemma spec_imports_generateNamedImport moduleName symbol :
  spec any_visitor (imports_generateNamedImport moduleName symbol)
       (fun _ => True).
Proof. apply spec_any_visitor. auto. Qed.

Lemma visit_ConditionalExpr_isConditionalExpression c context :
  spec any_visitor (visitExpression c context)
       (fun r => instanceof_ConditionalExpr c = true ->
                 isConditionalExpression r = true).
Proof.
  apply spec_any_visitor. intros this r this' H Hc.
  destruct c; try discriminate Hc.
  cbn [visitExpression] in H. unfold visitConditionalExpr in H.
  inv_M H. reflexivity.
Qed.

Lemma visit_instanceof_ConditionalExpr e context this r this' :
  visitExpression e context this = (Ok r, this') ->
  instanceof_ConditionalExpr e = true ->
  isConditionalExpression r = true.
Proof.
  intros H.
  exact (proj2 (spec_Ok _ _ _ _ _ _
                  (visit_ConditionalExpr_isConditionalExpression e context)
                  H)).
Qed.

(** A conditional node binds no tighter than a conditional, so as a
    condition the factory wraps it, and a parenthesized expression is
    never wrapped again. *)
Lemma parenthesizeForConditionalHead_conditional c :
  isConditionalExpression c = true ->
  ts.parenthesizeForConditionalHead c = ts.createParen c.
Proof.
  unfold isConditionalExpression, ts.parenthesizeForConditionalHead,
    ts.getExpressionPrecedence.
  destruct (ts.syntax c); try discriminate. reflexivity.
Qed.

Lemma parenthesizeForConditionalHead_createParen c :
  ts.parenthesizeForConditionalHead (ts.createParen c) = ts.createParen c.
Proof. reflexivity. Qed.

(** A conditional node binds looser than every operator of
    [BINARY_OPERATORS], so as an operand of one the factory wraps it. *)
Lemma parenthesizeBinaryOperand_conditional op token c isLeft leftOperand :
  Map_get BINARY_OPERATORS op = Some token ->
  isConditionalExpression c = true ->
  ts.parenthesizeBinaryOperand token c isLeft leftOperand
  = ts.createParen c.
Proof.
  intros Htoken Hc.
  unfold isConditionalExpression in Hc.
  unfold ts.parenthesizeBinaryOperand, ts.isParenthesizedExpression,
    ts.binaryOperandNeedsParentheses, ts.getExpressionPrecedence.
  destruct (ts.syntax c); try discriminate.
  destruct op; vm_compute in Htoken; try discriminate;
    inversion Htoken; subst; reflexivity.
Qed.

(** C1 (as the code has it). The translation of a conditional expression
    whose condition is itself a conditional expression is a conditional
    node whose condition is a parenthesized-expression node, and what
    that node holds is the translated inner conditional, a conditional
    node: it is wrapped once.  The two branches of a translated
    conditional are the translated branches themselves, so a conditional
    that is a branch is not in parentheses.  Elsewhere the translator
    adds no parentheses of its own but the factory does where the
    precedence asks for it: a conditional that is an operand of a binary
    operator is translated to a node in parentheses. *)
Theorem C1_conditional_parentheses :
  (forall c0 t0 f0 sp0 trueCase falseCase sourceSpan context this r this',
      visitExpression
        (ConditionalExpr (ConditionalExpr c0 t0 f0 sp0)
                         trueCase falseCase sourceSpan)
        context this
      = (Ok r, this') ->
      exists inner this1 condition whenTrue whenFalse,
        visitExpression (ConditionalExpr c0 t0 f0 sp0) context this
        = (Ok inner, this1) /\
        isConditionalExpression inner = true /\
        ts.syntax r
        = ts.ConditionalExpression condition whenTrue whenFalse /\
        ts.syntax condition = ts.ParenthesizedExpression inner)
  /\
  (forall condition trueCase falseCase sourceSpan context this r this',
      visitExpression
        (ConditionalExpr condition trueCase falseCase sourceSpan)
        context this
      = (Ok r, this') ->
      exists c this1 t this2 falseCase' f head,
        visitExpression condition context this = (Ok c, this1) /\
        visitExpression trueCase context this1 = (Ok t, this2) /\
        falseCase = Some falseCase' /\
        visitExpression falseCase' context this2 = (Ok f, this') /\
        ts.syntax r = ts.ConditionalExpression head t f /\
        (4 < ts.getExpressionPrecedence c ->
         instanceof_ConditionalExpr condition = false -> head = c) /\
        (forall c1 t1 f1 sp1,
            trueCase = ConditionalExpr c1 t1 f1 sp1 ->
            isConditionalExpression t = true) /\
        (forall c1 t1 f1 sp1,
            falseCase' = ConditionalExpr c1 t1 f1 sp1 ->
            isConditionalExpression f = true))
  /\
  (forall op c0 t0 f0 sp0 other sourceSpan context this r this',
      (visitExpression
         (BinaryOperatorExpr op (ConditionalExpr c0 t0 f0 sp0) other
                             sourceSpan)
         context this
       = (Ok r, this') ->
       exists inner this1 token lhs rhs,
         visitExpression (ConditionalExpr c0 t0 f0 sp0) context this
         = (Ok inner, this1) /\
         isConditionalExpression inner = true /\
         ts.syntax r = ts.BinaryExpression lhs token rhs /\
         ts.syntax lhs = ts.ParenthesizedExpression inner)
      /\
      (visitExpression
         (BinaryOperatorExpr op other (ConditionalExpr c0 t0 f0 sp0)
                             sourceSpan)
         context this
       = (Ok r, this') ->
       exists inner this1 token lhs rhs,
         visitExpression (ConditionalExpr c0 t0 f0 sp0) context this1
         = (Ok inner, this') /\
         isConditionalExpression inner = true /\
         ts.syntax r = ts.BinaryExpression lhs token rhs /\
         ts.syntax rhs = ts.ParenthesizedExpression inner)).
Proof.
  repeat apply conj.
  - intros c0 t0 f0 sp0 trueCase falseCase sourceSpan context this r this'
           H.
    cbn [visitExpression] in H. unfold visitConditionalExpr in H.
    apply bind_Ok in H. destruct H as (c & this1 & Hc & H).
    apply bind_Ok in H. destruct H as (t & this2 & Ht & H).
    apply bind_Ok in H. destruct H as (f & this3 & Hf & H).
    apply ret_Ok in H. destruct H as [<- <-].
    exists c, this1. do 3 eexists.
    split; [exact Hc|].
    split; [eapply visit_instanceof_ConditionalExpr;
            [exact Hc | reflexivity]|].
    cbn [instanceof_ConditionalExpr]. split; reflexivity.
  - intros condition trueCase falseCase sourceSpan context this r this' H.
    cbn [visitExpression] in H. unfold visitConditionalExpr in H.
    apply bind_Ok in H. destruct H as (c & this1 & Hc & H).
    apply bind_Ok in H. destruct H as (t & this2 & Ht & H).
    apply bind_Ok in H. destruct H as (f & this3 & Hf & H).
    apply ret_Ok in H. destruct H as [<- <-].
    destruct falseCase as [falseCase'|];
      [|apply throw_Ok in Hf; destruct Hf].
    exists c, this1, t, this2, falseCase', f. eexists.
    repeat (split; [eassumption || reflexivity|]).
    split; [|split].
    + intros Hprec Hinst. rewrite Hinst.
      unfold ts.parenthesizeForConditionalHead.
      apply Z.ltb_lt in Hprec. now rewrite Hprec.
    + intros c1 t1 f1 sp1 ->.
      eapply visit_instanceof_ConditionalExpr; [exact Ht | reflexivity].
    + intros c1 t1 f1 sp1 ->.
      eapply visit_instanceof_ConditionalExpr; [exact Hf | reflexivity].
  - intros op c0 t0 f0 sp0 other sourceSpan context this r this'.
    split; intros H; cbn [visitExpression] in H;
      unfold visitBinaryOperatorExpr in H.
    destruct (Map_get BINARY_OPERATORS op) as [token|] eqn:Htoken;
      [|apply throw_Ok in H; destruct H].
    inv_M H.
    pose proof (visit_instanceof_ConditionalExpr _ _ _ _ _ H0 eq_refl)
      as Hinner.
    do 5 eexists. split; [exact H0|]. split; [exact Hinner|].
    unfold ts.createBinary.
    rewrite (parenthesizeBinaryOperand_conditional op token) by assumption.
    split; reflexivity.
    destruct (Map_get BINARY_OPERATORS op) as [token|] eqn:Htoken;
      [|apply throw_Ok in H; destruct H].
    inv_M H.
    pose proof (visit_instanceof_ConditionalExpr _ _ _ _ _ H eq_refl)
      as Hinner.
    do 5 eexists. split; [exact H|]. split; [exact Hinner|].
    unfold ts.createBinary.
    rewrite (parenthesizeBinaryOperand_conditional op token _ false)
      by assumption.
    split; reflexivity.
Qed.


(* ------------------------------------------------------------------- *)
(** ** Source mapping *)
(* ------------------------------------------------------------------- *)

#[local] Instance cache_grows_preorder : PreOrder cache_grows.
Proof.
  split.
  - intros this. split; [reflexivity | auto].
  - intros a b c [Hab Iab] [Hbc Ibc].
    split; [etransitivity; eassumption | auto].
Qed.














Lemma attachComments_sourceMapRange statement leadingComments :
  ts.sourceMapRange (attachComments statement leadingComments)
  = ts.sourceMapRange statement.
Proof.
  destruct leadingComments as [cs|]; [|reflexivity]. simpl.
  revert statement. induction cs as [|c cs IH]; intros st; [reflexivity|].
  simpl. rewrite IH. destruct (multiline c).
  - destruct st; reflexivity.
  - generalize (String_split LF (text c)). intros ls. revert st.
    induction ls as [|l ls IHl]; intros st; [reflexivity|].
    simpl. rewrite IHl. destruct st; reflexivity.
Qed.


Ltac unfold_visit H :=
  cbn [visitExpression visitStatement] in H;
  unfold visitReadVarExpr, visitWriteVarExpr, visitWriteKeyExpr,
    visitWritePropExpr, visitInvokeMethodExpr, visitInvokeFunctionExpr,
    visitInstantiateExpr, visitLiteralExpr, visitExternalExpr,
    visitLocalizedString,
    visitConditionalExpr, visitNotExpr, visitAssertNotNullExpr,
    visitCastExpr, visitFunctionExpr, visitUnaryOperatorExpr,
    visitBinaryOperatorExpr, visitReadPropExpr, visitReadKeyExpr,
    visitLiteralArrayExpr, visitLiteralMapExpr, visitCommaExpr,
    visitWrappedNodeExpr, visitTypeofExpr, visitDeclareVarStmt,
    visitDeclareFunctionStmt, visitExpressionStmt, visitReturnStmt,
    visitDeclareClassStmt, visitIfStmt, visitTryCatchStmt,
    visitThrowStmt in H;
  cbv zeta in H.






Lemma spec_setSourceMapRange_same expr sourceSpan :
  spec any_visitor (setSourceMapRange expr sourceSpan)
       (fun r => ts.syntax r = ts.syntax expr /\
                 ts.leadingComments r = ts.leadingComments expr).
Proof.
  apply spec_any_visitor. intros this r this' H.
  destruct (setSourceMapRange_total expr sourceSpan this)
    as (r0 & this0 & E & Hs).
  rewrite E in H. now inversion H; subst.
Qed.








(* ------------------------------------------------------------------- *)
(** ** Localized strings: the two lowerings *)
(* ------------------------------------------------------------------- *)

Lemma total_ret {A} (a : A) : total (ret a).
Proof. intros this. now exists a, this. Qed.

Lemma total_bind {A B} (m : M A) (f : A -> M B) :
  total m -> (forall a, total (f a)) -> total (bind m f).
Proof.
  intros Hm Hf this. destruct (Hm this) as (a & this1 & E).
  destruct (Hf a this1) as (b & this2 & E').
  exists b, this2. unfold bind. now rewrite E.
Qed.

Lemma total_forM {St} (body : St -> Z -> M St) l :
  Forall (fun i => forall acc, total (body acc i)) l ->
  forall acc, total (forM body l acc).
Proof.
  induction 1 as [|i l Hi Hl IH]; intros acc; simpl.
  - apply total_ret.
  - apply total_bind; [apply Hi | exact IH].
Qed.

Lemma total_callAtZ {A B} (f : A -> M B) l i x :
  0 <= i -> l !! Z.to_nat i = Some x -> total (f x) ->
  total (callAtZ f l i).
Proof.
  intros Hi Hx Hf. unfold callAtZ.
  destruct (Z.ltb_spec i 0); [lia|].
  generalize dependent (Z.to_nat i). clear Hi H. intros n.
  revert l. induction n as [|n IH]; intros [|y l] Hx;
    try discriminate Hx; simpl in *.
  - now inversion Hx; subst.
  - now apply IH.
Qed.

Lemma total_mapMi {A B} (f : A -> Z -> M B) l :
  (forall x i, total (f x i)) -> forall i, total (mapMi f l i).
Proof.
  intros Hf. induction l as [|x l IH]; intros i; simpl.
  - apply total_ret.
  - apply total_bind; [apply Hf|]. intros y.
    apply total_bind; [apply IH|]. intros ys. apply total_ret.
Qed.

Lemma total_setSourceMapRange expr sourceSpan :
  total (setSourceMapRange expr sourceSpan).
Proof.
  intros this.
  destruct (setSourceMapRange_total expr sourceSpan this)
    as (r & this' & E & _).
  eauto.
Qed.

Lemma total_imports_generateNamedImport moduleName symbol :
  total (imports_generateNamedImport moduleName symbol).
Proof.
  intros this. unfold imports_generateNamedImport.
  destruct (generateNamedImport _ _ _). eauto.
Qed.

Lemma cooked_raw_eta m : {| cooked := cooked m; raw := raw m |} = m.
Proof. now destruct m. Qed.

Lemma seqZ_snoc m (n : nat) :
  seqZ m (Z.of_nat (S n)) = seqZ m (Z.of_nat n) ++ [m + Z.of_nat n].
Proof.
  replace (Z.of_nat (S n)) with (Z.of_nat n + 1) by lia.
  rewrite seqZ_app by lia. reflexivity.
Qed.


Lemma spec_visit_translates context e :
  spec any_visitor (visitExpression e context) (translates context e).
Proof.
  apply spec_any_visitor. intros this r this' H.
  exists this, r, this'. auto.
Qed.

Lemma spec_callAtZ_translates context es i :
  spec any_visitor
       (callAtZ (fun e => visitExpression e context) es i)
       (fun r => exists x,
            0 <= i /\ es !! Z.to_nat i = Some x /\ translates context x r).
Proof.
  apply (spec_callAtZ any_visitor _ (translates context)).
  apply Forall_forall. intros e _. apply spec_visit_translates.
Qed.

Lemma translates_same context e o o' :
  translates context e o' ->
  ts.syntax o = ts.syntax o' /\
  ts.leadingComments o = ts.leadingComments o' ->
  translates context e o.
Proof.
  intros (this1 & o0 & this2 & H & Hs & Hc) [Hs' Hc'].
  exists this1, o0, this2. repeat split; congruence.
Qed.


(** One more span keeps the spans in step with the expressions. *)
Lemma spliced_snoc ast context es spans (n : nat) x o literal :
    omap templateSpan_text spans
    = map (serializeI18nTemplatePart ast) (seqZ 1 (Z.of_nat n)) ->
    Forall2 (translates context) (take n es)
            (omap templateSpan_expression spans) ->
    es !! n = Some x ->
    translates context x o ->
    templateLiteral_text literal
    = Some (serializeI18nTemplatePart ast (Z.of_nat (S n))) ->
    omap templateSpan_text (spans ++ [ts.createTemplateSpan o literal])
    = map (serializeI18nTemplatePart ast) (seqZ 1 (Z.of_nat (S n)))
    /\
    Forall2 (translates context) (take (S n) es)
            (omap templateSpan_expression
                  (spans ++ [ts.createTemplateSpan o literal])).
  Proof.
    intros Htexts Hes Hx Ho Hliteral. split.
    - rewrite omap_app, Htexts, seqZ_snoc, map_app. simpl.
      unfold templateSpan_text at 1. simpl. rewrite Hliteral.
      do 3 f_equal. lia.
    - rewrite omap_app. erewrite take_S_r by exact Hx.
      apply Forall2_app; [exact Hes|]. simpl.
      constructor; [exact Ho | constructor].
  Qed.

Lemma createLocalizedStringTaggedTemplate_spec
      ast parts es sp context :
  List.length parts = S (List.length es) ->
  spec any_visitor
       (createLocalizedStringTaggedTemplate
          visitExpression ast parts es sp context)
       (fun r =>
          template_texts r = serialized_texts ast (List.length es) /\
          Forall2 (translates context) es (template_expressions r)).
Proof.
  intros well_formed.
  unfold createLocalizedStringTaggedTemplate. cbv zeta.
  eapply (spec_bind any_visitor _ _
            (fun template =>
               match ts.syntax template with
               | ts.NoSubstitutionTemplateLiteral c r =>
                   es = [] /\
                   {| cooked := c; raw := r |} = serializeI18nHead ast
               | ts.TemplateExpression head spans =>
                   templateLiteral_text head
                   = Some (serializeI18nHead ast) /\
                   omap templateSpan_text spans
                   = map (serializeI18nTemplatePart ast)
                         (seqZ 1 (Z.of_nat (List.length es))) /\
                   Forall2 (translates context) es
                           (omap templateSpan_expression spans)
               | _ => False
               end)).
  2: { intros template Ht.
       eapply (spec_weaken any_visitor);
         [apply spec_setSourceMapRange_same|].
       cbv beta. intros r [Hr _].
       unfold template_texts, template_expressions, serialized_texts.
       rewrite Hr. simpl.
       destruct (ts.syntax template); try contradiction.
       - destruct Ht as [-> Ht]. simpl. rewrite Ht. auto.
       - destruct Ht as (Hhead & Htexts & Hes).
         rewrite Hhead, Htexts. auto. }
  destruct es as [|e0 es1] eqn:Ees.
  - (* no expression: one message part *)
    destruct parts as [|p0 [|p1 parts']]; try discriminate well_formed.
    simpl.
    eapply (spec_weaken any_visitor);
      [apply spec_setSourceMapRange_same|].
    cbv beta. intros r [Hr _]. rewrite Hr. simpl.
    split; [reflexivity | apply cooked_raw_eta].
  - destruct parts as [|p0 [|p1 parts']]; try discriminate well_formed.
    assert (List.length parts' = List.length es1) as Hlen
        by (simpl in well_formed; lia).
    destruct (Z.eqb_spec (Z.of_nat (List.length (p0 :: p1 :: parts'))) 1)
      as [Hone|_]; [simpl in Hone; lia|].
    replace (Z.of_nat (List.length (p0 :: p1 :: parts')) - 2)
      with (Z.of_nat (List.length es1)) by (simpl List.length; lia).
    replace (Z.of_nat (List.length (p0 :: p1 :: parts')) - 1)
      with (Z.of_nat (S (List.length es1))) by (simpl List.length; lia).
    rewrite <- Ees.
    eapply (spec_bind any_visitor);
      [apply spec_setSourceMapRange_same|].
    cbv beta. intros head [Hhead _].
    eapply (spec_bind any_visitor).
    + apply (spec_forM_seqZ any_visitor _
               (fun i spans =>
                  omap templateSpan_text spans
                  = map (serializeI18nTemplatePart ast)
                        (seqZ 1 (Z.of_nat (Z.to_nat (i - 1)))) /\
                  Forall2 (translates context)
                          (take (Z.to_nat (i - 1)) es)
                          (omap templateSpan_expression spans))).
      * simpl. split; [reflexivity | rewrite take_0; constructor].
      * intros i spans Hi [Htexts Hes].
        eapply (spec_bind any_visitor);
          [apply spec_callAtZ_translates|].
        cbv beta. intros o' (x & Hi0 & Hx & Ho').
        eapply (spec_bind any_visitor);
          [apply spec_setSourceMapRange_same|].
        cbv beta. intros o Ho.
        eapply (spec_bind any_visitor);
          [apply spec_setSourceMapRange_same|].
        cbv beta. intros literal [Hliteral _].
        apply (spec_ret any_visitor).
        replace (Z.to_nat (i + 1 - 1)) with (S (Z.to_nat (i - 1)))
          by lia.
        apply (spliced_snoc ast context es spans _ x); try assumption.
        -- eapply translates_same; eassumption.
        -- unfold templateLiteral_text. rewrite Hliteral. simpl.
           rewrite cooked_raw_eta. do 2 f_equal. lia.
    + cbv beta. intros spans [Htexts Hes].
      replace (Z.to_nat (1 + Z.of_nat (List.length es1) - 1))
        with (List.length es1) in * by lia.
      eapply (spec_bind any_visitor);
        [apply spec_callAtZ_translates|].
      cbv beta. intros o' (x & Hi0 & Hx & Ho').
      rewrite Nat2Z.id in Hx.
      eapply (spec_bind any_visitor);
        [apply spec_setSourceMapRange_same|].
      cbv beta. intros o Ho.
      eapply (spec_bind any_visitor);
        [apply spec_setSourceMapRange_same|].
      cbv beta. intros literal [Hliteral _].
      apply (spec_ret any_visitor). simpl.
      destruct (spliced_snoc ast context es spans (List.length es1)
                             x o literal)
        as [Htexts' Hes']; try assumption.
      * eapply translates_same; eassumption.
      * unfold templateLiteral_text. rewrite Hliteral. simpl.
        now rewrite cooked_raw_eta.
      * split; [|split].
        -- unfold templateLiteral_text. rewrite Hhead. simpl.
           now rewrite cooked_raw_eta.
        -- rewrite Htexts'. subst es. reflexivity.
        -- rewrite take_ge in Hes' by (subst es; simpl; lia).
           exact Hes'.
Qed.


Lemma spec_createLiteral_text text span :
  spec any_visitor (createLiteral text span)
       (fun r => stringLiteral_text r = Some text).
Proof.
  unfold createLiteral.
  eapply (spec_weaken any_visitor); [apply spec_setSourceMapRange_same|].
  cbv beta. intros r [Hr _]. unfold stringLiteral_text. now rewrite Hr.
Qed.

Lemma omap_Forall2 {A B C} (f : B -> option C) (g : A -> C) l k :
  Forall2 (fun a b => f b = Some (g a)) l k -> omap f k = map g l.
Proof.
  induction 1 as [|a b l k Hab Hlk IH]; [reflexivity|].
  change (omap f (b :: k))
    with (match f b with Some y => y :: omap f k | None => omap f k end).
  rewrite Hab, IH. reflexivity.
Qed.

Lemma zip_cooked_raw (l : list CookedRawString) :
  zip_with Build_CookedRawString (map cooked l) (map raw l) = l.
Proof.
  induction l as [|m l IH]; [reflexivity|].
  simpl. now rewrite IH, cooked_raw_eta.
Qed.

Lemma createLocalizedStringFunctionCall_spec ast parts es context :
  List.length parts = S (List.length es) ->
  spec any_visitor
       (createLocalizedStringFunctionCall
          visitExpression ast parts es context)
       (fun r =>
          call_texts r = serialized_texts ast (List.length es) /\
          Forall2 (translates context) es (call_expressions r)).
Proof.
  intros well_formed. unfold createLocalizedStringFunctionCall.
  replace (Z.of_nat (List.length parts) - 1)
    with (Z.of_nat (List.length es)) by lia.
  eapply (spec_bind any_visitor _ _
            (fun arrays =>
               fst arrays = serialized_texts ast (List.length es) /\
               Forall2 (translates context) es (snd arrays))).
  - eapply (spec_weaken any_visitor).
    + apply (spec_forM_seqZ any_visitor _
               (fun i arrays =>
                  fst arrays
                  = serialized_texts ast (Z.to_nat (i - 1)) /\
                  Forall2 (translates context)
                          (take (Z.to_nat (i - 1)) es) (snd arrays))).
      * simpl. split; [reflexivity | rewrite take_0; constructor].
      * intros i arrays Hi [Htexts Hes].
        eapply (spec_bind any_visitor); [apply spec_callAtZ_translates|].
        cbv beta. intros o (x & Hi0 & Hx & Ho).
        apply (spec_ret any_visitor). simpl.
        replace (Z.to_nat (i + 1 - 1)) with (S (Z.to_nat (i - 1))) by lia.
        split.
        -- rewrite Htexts. unfold serialized_texts.
           rewrite seqZ_snoc, map_app. simpl. do 4 f_equal. lia.
        -- erewrite take_S_r by exact Hx.
           apply Forall2_app; [exact Hes|].
           constructor; [exact Ho | constructor].
    + cbv beta. intros arrays [Htexts Hes].
      replace (Z.to_nat (1 + Z.of_nat (List.length es) - 1))
        with (List.length es) in * by lia.
      split; [exact Htexts|]. now rewrite take_ge in Hes by lia.
  - intros arrays [Htexts Hes]. cbv zeta.
    eapply (spec_bind any_visitor);
      [apply spec_imports_generateNamedImport|].
    cbv beta. intros helper _.
    eapply (spec_bind any_visitor).
    { apply (spec_mapMi any_visitor _
               (fun part r => stringLiteral_text r = Some (cooked part))).
      apply Forall_forall. intros; apply spec_createLiteral_text. }
    cbv beta. intros cookedLiterals Hcooked.
    eapply (spec_bind any_visitor).
    { apply (spec_mapMi any_visitor _
               (fun part r => stringLiteral_text r = Some (raw part))).
      apply Forall_forall. intros; apply spec_createLiteral_text. }
    cbv beta. intros rawLiterals Hraw.
    apply (spec_ret any_visitor).
    unfold call_texts, call_expressions. simpl.
    rewrite (omap_Forall2 _ _ _ _ Hcooked), (omap_Forall2 _ _ _ _ Hraw).
    rewrite zip_cooked_raw. auto.
Qed.


Lemma total_callAtZ_visit context es i :
  Forall (fun e => total (visitExpression e context)) es ->
  0 <= i < Z.of_nat (List.length es) ->
  total (callAtZ (fun e => visitExpression e context) es i).
Proof.
  intros Hes Hi.
  destruct (lookup_lt_is_Some_2 es (Z.to_nat i)) as [x Hx]; [lia|].
  apply (total_callAtZ _ _ _ x); [lia | exact Hx |].
  exact (Forall_lookup_1 _ _ _ _ Hes Hx).
Qed.

Lemma createLocalizedStringTaggedTemplate_total ast parts es sp context :
  List.length parts = S (List.length es) ->
  Forall (fun e => total (visitExpression e context)) es ->
  total (createLocalizedStringTaggedTemplate
           visitExpression ast parts es sp context).
Proof.
  intros well_formed Hes.
  unfold createLocalizedStringTaggedTemplate. cbv zeta.
  apply total_bind; [|intros; apply total_setSourceMapRange].
  destruct (Z.eqb_spec (Z.of_nat (List.length parts)) 1) as [Hone|Hmore].
  - apply total_setSourceMapRange.
  - apply total_bind; [apply total_setSourceMapRange|]. intros head.
    apply total_bind.
    + apply total_forM. apply Forall_forall. intros i Hi spans.
      apply elem_of_seqZ in Hi.
      apply total_bind; [apply total_callAtZ_visit; [exact Hes | lia]|].
      intros o. apply total_bind; [apply total_setSourceMapRange|].
      intros o'. apply total_bind; [apply total_setSourceMapRange|].
      intros literal. apply total_ret.
    + intros spans.
      apply total_bind; [apply total_callAtZ_visit; [exact Hes | lia]|].
      intros o. apply total_bind; [apply total_setSourceMapRange|].
      intros o'. apply total_bind; [apply total_setSourceMapRange|].
      intros literal. apply total_ret.
Qed.

Lemma createLocalizedStringFunctionCall_total ast parts es context :
  List.length parts = S (List.length es) ->
  Forall (fun e => total (visitExpression e context)) es ->
  total (createLocalizedStringFunctionCall
           visitExpression ast parts es context).
Proof.
  intros well_formed Hes.
  unfold createLocalizedStringFunctionCall.
  apply total_bind.
  - apply total_forM. apply Forall_forall. intros i Hi arrays.
    apply elem_of_seqZ in Hi.
    apply total_bind; [apply total_callAtZ_visit; [exact Hes | lia]|].
    intros o. apply total_ret.
  - intros arrays. cbv zeta.
    apply total_bind; [apply total_imports_generateNamedImport|].
    intros helper.
    apply total_bind;
      [apply total_mapMi; intros; apply total_setSourceMapRange|].
    intros cookedLiterals.
    apply total_bind;
      [apply total_mapMi; intros; apply total_setSourceMapRange|].
    intros rawLiterals. apply total_ret.
Qed.

(** C3. For a localized string with k expressions and k + 1 message
    parts, the tagged template of the modern lowering and the call of
    the legacy lowering each hold k spliced expressions, the i-th being
    a translation of the i-th expression of the string, and the same
    literal pieces, namely the serialized head and the serialized
    template parts 1 to k; each lowering returns whenever the visits of
    the expressions do; and the visit of the string runs the modern
    lowering when the target is at least ES2015 and the legacy one
    otherwise, the node it returns holding the pieces and expressions
    of that lowering. *)
Theorem C3_localized_string_lowerings :
  forall metaBlock messageParts placeHolderNames expressions sourceSpan
         context,
    let ast := LocalizedString metaBlock messageParts placeHolderNames
                               expressions sourceSpan in
    let k := List.length expressions in
    List.length messageParts = S k ->
    (forall this r this',
        createLocalizedStringTaggedTemplate
          visitExpression ast messageParts expressions sourceSpan context
          this
        = (Ok r, this') ->
        template_texts r = serialized_texts ast k /\
        List.length (template_expressions r) = k /\
        Forall2 (translates context) expressions (template_expressions r))
    /\
    (forall this r this',
        createLocalizedStringFunctionCall
          visitExpression ast messageParts expressions context this
        = (Ok r, this') ->
        call_texts r = serialized_texts ast k /\
        List.length (call_expressions r) = k /\
        Forall2 (translates context) expressions (call_expressions r))
    /\
    (Forall (fun e => total (visitExpression e context)) expressions ->
     total (createLocalizedStringTaggedTemplate
              visitExpression ast messageParts expressions sourceSpan
              context)
     /\
     total (createLocalizedStringFunctionCall
              visitExpression ast messageParts expressions context)
     /\
     total (visitExpression ast context))
    /\
    (forall this r this',
        visitExpression ast context this = (Ok r, this') ->
        if ts.ScriptTarget_ge scriptTarget ts.ES2015 then
          template_texts r = serialized_texts ast k /\
          Forall2 (translates context) expressions (template_expressions r)
        else
          call_texts r = serialized_texts ast k /\
          Forall2 (translates context) expressions (call_expressions r)).
Proof.
  intros metaBlock messageParts placeHolderNames expressions sourceSpan
         context ast k well_formed.
  repeat apply conj.
  - intros this r this' H.
    destruct (spec_Ok _ _ _ _ _ _
                (createLocalizedStringTaggedTemplate_spec
                   ast messageParts expressions sourceSpan context
                   well_formed) H) as [_ [Htexts Hes]].
    repeat split; try assumption.
    symmetry. eapply Forall2_length, Hes.
  - intros this r this' H.
    destruct (spec_Ok _ _ _ _ _ _
                (createLocalizedStringFunctionCall_spec
                   ast messageParts expressions context well_formed) H)
      as [_ [Htexts Hes]].
    repeat split; try assumption.
    symmetry. eapply Forall2_length, Hes.
  - intros Hes. repeat apply conj.
    + now apply createLocalizedStringTaggedTemplate_total.
    + now apply createLocalizedStringFunctionCall_total.
    + subst ast. cbn [visitExpression]. unfold visitLocalizedString.
      apply total_bind; [|intros; apply total_setSourceMapRange].
      destruct (ts.ScriptTarget_ge scriptTarget ts.ES2015).
      * now apply createLocalizedStringTaggedTemplate_total.
      * now apply createLocalizedStringFunctionCall_total.
  - intros this r this' H. subst ast.
    cbn [visitExpression] in H. unfold visitLocalizedString in H.
    apply bind_Ok in H. destruct H as (r0 & this1 & H0 & H).
    apply setSourceMapRange_syntax in H.
    destruct (ts.ScriptTarget_ge scriptTarget ts.ES2015).
    + destruct (spec_Ok _ _ _ _ _ _
                  (createLocalizedStringTaggedTemplate_spec
                     _ messageParts expressions sourceSpan context
                     well_formed) H0) as [_ [Htexts Hes]].
      unfold template_texts, template_expressions in *.
      rewrite H. auto.
    + destruct (spec_Ok _ _ _ _ _ _
                  (createLocalizedStringFunctionCall_spec
                     _ messageParts expressions context well_formed) H0)
        as [_ [Htexts Hes]].
      unfold call_texts, call_expressions in *.
      rewrite H. auto.
Qed.


(* ===================================================================== *)
(** * Further properties of the visitor *)
(* ===================================================================== *)

(** ** Observations *)

(** The operator token of a binary or prefix expression. *)
Definition operator_token (n : ts.Node) : option ts.SyntaxKind :=
  match ts.syntax n with
  | ts.BinaryExpression _ token _ => Some token
  | ts.PrefixUnaryExpression token _ => Some token
  | _ => None
  end.

(** ** The operator tables lose nothing *)

Lemma BINARY_OPERATORS_inj op op' token :
  Map_get BINARY_OPERATORS op = Some token ->
  Map_get BINARY_OPERATORS op' = Some token ->
  op = op'.
Proof.
  destruct op; try discriminate; intros [= <-];
    destruct op'; try discriminate; reflexivity.
Qed.

Lemma UNARY_OPERATORS_inj op op' token :
  Map_get UNARY_OPERATORS op = Some token ->
  Map_get UNARY_OPERATORS op' = Some token ->
  op = op'.
Proof.
  destruct op; try discriminate; intros [= <-];
    destruct op'; try discriminate; reflexivity.
Qed.

Lemma visit_BinaryOperatorExpr_token op lhs rhs sp context this r this' :
  visitExpression (BinaryOperatorExpr op lhs rhs sp) context this
  = (Ok r, this') ->
  exists token,
    Map_get BINARY_OPERATORS op = Some token /\
    operator_token r = Some token.
Proof.
  intros H. cbn [visitExpression] in H. unfold visitBinaryOperatorExpr in H.
  destruct (Map_get BINARY_OPERATORS op) as [token|]; inv_M H.
  exists token. split; reflexivity.
Qed.

Lemma visit_UnaryOperatorExpr_token op e sp context this r this' :
  visitExpression (UnaryOperatorExpr op e sp) context this = (Ok r, this') ->
  exists token,
    Map_get UNARY_OPERATORS op = Some token /\
    operator_token r = Some token.
Proof.
  intros H. cbn [visitExpression] in H. unfold visitUnaryOperatorExpr in H.
  destruct (Map_get UNARY_OPERATORS op) as [token|]; inv_M H.
  exists token. split; reflexivity.
Qed.

(** X1. Two binary operator expressions whose translations carry the same
    operator token have the same operator, and likewise two unary operator
    expressions: the tables send different operators to different
    tokens. *)
Theorem X1_operator_token_determines_operator :
  (forall op lhs rhs sp context this r this'
          op' lhs' rhs' sp' context' that r' that',
      visitExpression (BinaryOperatorExpr op lhs rhs sp) context this
      = (Ok r, this') ->
      visitExpression (BinaryOperatorExpr op' lhs' rhs' sp') context' that
      = (Ok r', that') ->
      operator_token r = operator_token r' ->
      op = op')
  /\
  (forall op e sp context this r this' op' e' sp' context' that r' that',
      visitExpression (UnaryOperatorExpr op e sp) context this
      = (Ok r, this') ->
      visitExpression (UnaryOperatorExpr op' e' sp') context' that
      = (Ok r', that') ->
      operator_token r = operator_token r' ->
      op = op').
Proof.
  split.
  - intros op lhs rhs sp context this r this'
           op' lhs' rhs' sp' context' that r' that' H H' Heq.
    apply visit_BinaryOperatorExpr_token in H, H'.
    destruct H as (token & Hop & Ht), H' as (token' & Hop' & Ht').
    rewrite Ht, Ht' in Heq. inversion Heq; subst.
    eapply BINARY_OPERATORS_inj; eassumption.
  - intros op e sp context this r this' op' e' sp' context' that r' that'
           H H' Heq.
    apply visit_UnaryOperatorExpr_token in H, H'.
    destruct H as (token & Hop & Ht), H' as (token' & Hop' & Ht').
    rewrite Ht, Ht' in Heq. inversion Heq; subst.
    eapply UNARY_OPERATORS_inj; eassumption.
Qed.


(** ** The source-file map: hits and misses *)

(** X2. When the source-file map already holds a descriptor for the URL
    of a span, [setSourceMapRange] attaches that descriptor and leaves the
    visitor as it was, whatever the content of the span's file; when it
    holds none, it creates one from the URL and content of the span,
    stores it and attaches it.  So of two spans with the same URL the
    content of the first one seen is the content every later range
    carries. *)
Theorem X2_setSourceMapRange_hit_and_miss :
  forall expr span this,
    truthy (url (file (start span))) = true ->
    (forall d,
        externalSourceFiles this !! url (file (start span)) = Some d ->
        setSourceMapRange expr (Some span) this
        = (Ok (ts.setSourceMapRange expr
                 {| ts.pos := offset (start span);
                    ts.end_ := offset (end_ span);
                    ts.source := Some d |}),
           this))
    /\
    (externalSourceFiles this !! url (file (start span)) = None ->
     let d := ts.createSourceMapSource (url (file (start span)))
                                       (content (file (start span))) in
     let this' :=
       {| imports := imports this;
          externalSourceFiles :=
            <[url (file (start span)) := d]> (externalSourceFiles this);
          effects :=
            effects this
            ++ [CreateSourceMapSource (url (file (start span)))
                                      (content (file (start span)))] |} in
     setSourceMapRange expr (Some span) this
     = (Ok (ts.setSourceMapRange expr
              {| ts.pos := offset (start span);
                 ts.end_ := offset (end_ span);
                 ts.source := Some d |}),
        this')
     /\
     forall expr' span',
       url (file (start span')) = url (file (start span)) ->
       setSourceMapRange expr' (Some span') this'
       = (Ok (ts.setSourceMapRange expr'
                {| ts.pos := offset (start span');
                   ts.end_ := offset (end_ span');
                   ts.source := Some d |}),
          this')).
Proof.
  intros expr span this Hurl.
  assert (Hhit : forall expr span this d,
             truthy (url (file (start span))) = true ->
             externalSourceFiles this !! url (file (start span)) = Some d ->
             setSourceMapRange expr (Some span) this
             = (Ok (ts.setSourceMapRange expr
                      {| ts.pos := offset (start span);
                         ts.end_ := offset (end_ span);
                         ts.source := Some d |}),
                this)).
  { clear. intros expr span this d Hurl Hd.
    unfold setSourceMapRange. rewrite Hurl.
    unfold bind, gets, modify, ret. rewrite Hd.
    rewrite bool_decide_eq_true_2 by eauto. simpl. rewrite Hd.
    reflexivity. }
  split; [intros d Hd; now apply Hhit|].
  intros Hnone. cbv zeta. split.
  - unfold setSourceMapRange. rewrite Hurl.
    unfold bind, gets, modify, ret. rewrite Hnone.
    rewrite bool_decide_eq_false_2 by (intros [? ?]; congruence).
    simpl. rewrite lookup_insert_eq. reflexivity.
  - intros expr' span' Hsame. apply Hhit.
    + now rewrite Hsame.
    + simpl. rewrite Hsame. apply lookup_insert_eq.
Qed.

(** ** Comments compose *)

(** X3. Attaching no comments, whether the list is absent or empty,
    leaves a statement as it is, and attaching one list of comments and
    then another is attaching the two lists joined; the syntax and the
    source-map range of the statement are never touched. *)
Theorem X3_attachComments_composes :
  forall statement,
    attachComments statement None = statement /\
    attachComments statement (Some []) = statement /\
    (forall comments comments',
        attachComments (attachComments statement (Some comments))
                       (Some comments')
        = attachComments statement (Some (comments ++ comments'))) /\
    (forall leadingComments,
        ts.syntax (attachComments statement leadingComments)
        = ts.syntax statement /\
        ts.sourceMapRange (attachComments statement leadingComments)
        = ts.sourceMapRange statement).
Proof.
  intros statement. repeat apply conj; try reflexivity.
  - intros comments comments'. simpl. now rewrite fold_left_app.
  - intros leadingComments. split.
    + apply attachComments_syntax.
    + apply attachComments_sourceMapRange.
Qed.

(** ** Casts and non-null assertions *)

(** X4. A cast and a non-null assertion are translated to the very node
    of their operand.  As the condition of a conditional they make no
    difference either.  The check of the translator does not look through
    them, so under a cast it puts no parentheses around a conditional
    that is a condition; but the factory wraps a conditional condition
    itself, and does not wrap one that is wrapped already.  So the run is
    the one of the conditional without the cast, and its output holds the
    inner conditional in parentheses, once. *)
Theorem X4_cast_is_transparent_in_condition :
  (forall e sp context this,
      visitExpression (CastExpr e sp) context this
      = visitExpression e context this /\
      visitExpression (AssertNotNull e sp) context this
      = visitExpression e context this)
  /\
  (forall wrapped inner trueCase falseCase sp context this,
      (exists sp0, wrapped = CastExpr inner sp0 \/
                   wrapped = AssertNotNull inner sp0) ->
      visitExpression (ConditionalExpr wrapped trueCase falseCase sp)
                      context this
      = visitExpression (ConditionalExpr inner trueCase falseCase sp)
                        context this)
  /\
  (forall wrapped inner trueCase falseCase sp context this r this',
      instanceof_ConditionalExpr inner = true ->
      (exists sp0, wrapped = CastExpr inner sp0 \/
                   wrapped = AssertNotNull inner sp0) ->
      visitExpression (ConditionalExpr wrapped trueCase falseCase sp)
                      context this
      = (Ok r, this') ->
      exists c this1 condition t f,
        visitExpression inner context this = (Ok c, this1) /\
        isConditionalExpression c = true /\
        ts.syntax r = ts.ConditionalExpression condition t f /\
        ts.syntax condition = ts.ParenthesizedExpression c).
Proof.
  assert (forall wrapped inner trueCase falseCase sp context this,
             (exists sp0, wrapped = CastExpr inner sp0 \/
                          wrapped = AssertNotNull inner sp0) ->
             visitExpression (ConditionalExpr wrapped trueCase falseCase sp)
                             context this
             = visitExpression (ConditionalExpr inner trueCase falseCase sp)
                               context this) as Hsame.
  { intros wrapped inner trueCase falseCase sp context this [sp0 Hw].
    assert (visitExpression wrapped context this
            = visitExpression inner context this
            /\ instanceof_ConditionalExpr wrapped = false) as [Hv Hi]
      by (destruct Hw as [-> | ->]; split; reflexivity).
    cbn [visitExpression]. unfold visitConditionalExpr, bind.
    rewrite Hv, Hi.
    destruct (visitExpression inner context this) as [[c|err] this1] eqn:Hc;
      [|reflexivity].
    destruct (visitExpression trueCase context this1) as [[t|err] this2];
      [|reflexivity].
    destruct falseCase as [falseCase'|]; [|reflexivity].
    destruct (visitExpression falseCase' context this2) as [[f|err] this3];
      [|reflexivity].
    destruct (instanceof_ConditionalExpr inner) eqn:Hinner; [|reflexivity].
    unfold ret, ts.createConditional.
    rewrite (parenthesizeForConditionalHead_conditional c)
      by exact (visit_instanceof_ConditionalExpr inner _ _ _ _ Hc Hinner).
    reflexivity. }
  split; [intros; split; reflexivity|].
  split; [exact Hsame|].
  intros wrapped inner trueCase falseCase sp context this r this'
         Hinner Hwrapped H.
  rewrite (Hsame _ _ _ _ _ _ _ Hwrapped) in H.
  cbn [visitExpression] in H. unfold visitConditionalExpr in H.
  apply bind_Ok in H. destruct H as (c & this1 & Hc & H).
  apply bind_Ok in H. destruct H as (t & this2 & Ht & H).
  apply bind_Ok in H. destruct H as (f & this3 & Hf & H).
  apply ret_Ok in H. destruct H as [<- <-].
  rewrite Hinner. exists c, this1. do 3 eexists.
  split; [exact Hc|].
  split; [eapply visit_instanceof_ConditionalExpr; eassumption|].
  split; reflexivity.
Qed.


(** ** Calls, aggregates and statements with blocks *)


(** The hint comment of a call marked pure. *)
Definition PURE : ts.SynthesizedComment :=
  {| ts.kind := ts.MultiLineCommentTrivia; ts.comment_text := "@__PURE__";
     ts.hasTrailingNewLine := false |}.

Lemma mapM_Ok_Forall2 {A B} (f : A -> M B) l this rs this' :
  mapM f l this = (Ok rs, this') ->
  Forall2 (fun x r => exists this1 this2, f x this1 = (Ok r, this2)) l rs.
Proof.
  intros H.
  refine (proj2 (spec_Ok any_visitor _ _ _ _ _ _ H)).
  apply spec_mapM; [apply _|].
  apply Forall_forall. intros x _. apply spec_any_visitor.
  intros this1 r this2 Hr. eauto.
Qed.

Lemma mapM_visitExpression_translates context args this rs this' :
  mapM (fun arg => visitExpression arg context) args this = (Ok rs, this') ->
  Forall2 (translates context) args rs.
Proof.
  intros H. apply mapM_Ok_Forall2 in H.
  eapply Forall2_impl; [exact H|].
  intros e r (this1 & this2 & Hr). exists this1, r, this2. auto.
Qed.


Lemma setSourceMapRange_Ok_same expr sourceSpan this r this' :
  setSourceMapRange expr sourceSpan this = (Ok r, this') ->
  ts.syntax r = ts.syntax expr /\
  ts.leadingComments r = ts.leadingComments expr.
Proof.
  intros H.
  exact (proj2 (spec_Ok _ _ _ _ _ _
                  (spec_setSourceMapRange_same expr sourceSpan) H)).
Qed.

(** X5. A function invocation, a method invocation and an instantiation
    are translated to a call (or [new]) node whose arguments are the
    translated arguments, one for one and in order, the function,
    receiver or class being visited first.  The callee of the call node
    is the translated function when that is a left-hand-side expression
    and the translated function in parentheses otherwise.  A method
    invocation with a name calls a property access of that name on the
    translated receiver, which is in parentheses unless it is a
    left-hand-side expression; one without a name calls the translated
    receiver, parenthesized likewise.  The class of a [new] node is the
    translated class as [parenthesizeForNew] leaves it: itself when it is
    an identifier, in parentheses when it is a call.  A function
    invocation marked pure carries the one comment [@__PURE__], and one
    not marked carries no comment. *)
Theorem X5_calls_keep_callee_and_arguments :
  forall context this r this',
    (forall fn args pure sp,
        visitExpression (InvokeFunctionExpr fn args pure sp) context this
        = (Ok r, this') ->
        exists callee this1 arguments held,
          visitExpression fn context this = (Ok callee, this1) /\
          Forall2 (translates context) args arguments /\
          ts.syntax r = ts.CallExpression held arguments /\
          accessed callee held /\
          ts.leadingComments r = if pure then [PURE] else [])
    /\
    (forall receiver name args sp,
        visitExpression (InvokeMethodExpr receiver name args sp) context this
        = (Ok r, this') ->
        exists target this1 arguments held,
          visitExpression receiver context this = (Ok target, this1) /\
          Forall2 (translates context) args arguments /\
          ts.syntax r = ts.CallExpression held arguments /\
          match name with
          | Some name =>
              exists object property,
                ts.syntax held
                = ts.PropertyAccessExpression object property /\
                ts.syntax property = ts.Identifier name /\
                accessed target object
          | None => accessed target held
          end)
    /\
    (forall classExpr args sp,
        visitExpression (InstantiateExpr classExpr args sp) context this
        = (Ok r, this') ->
        exists c this1 arguments held,
          visitExpression classExpr context this = (Ok c, this1) /\
          Forall2 (translates context) args arguments /\
          ts.syntax r = ts.NewExpression held arguments /\
          held = ts.parenthesizeForNew c /\
          (forall x, ts.syntax c = ts.Identifier x -> held = c) /\
          (forall e es,
              ts.syntax c = ts.CallExpression e es ->
              ts.syntax held = ts.ParenthesizedExpression c)).
Proof.
  intros context this r this'. repeat apply conj.
  - intros fn args pure sp H. unfold_visit H. inv_M H.
    match goal with
    | Hm : mapM _ _ _ = _, Hs : setSourceMapRange _ _ _ = _ |- _ =>
        apply mapM_visitExpression_translates in Hm;
        apply setSourceMapRange_Ok_same in Hs; destruct Hs as [Hsyn Hcom]
    end.
    do 3 eexists. exists (ts.parenthesizeForAccess a).
    split; [eassumption|]. split; [eassumption|].
    rewrite Hsyn, Hcom.
    split; [destruct pure; reflexivity|].
    split; [apply accessed_parenthesizeForAccess|].
    destruct pure; reflexivity.
  - intros receiver name0 args sp H. unfold_visit H. inv_M H.
    match goal with
    | Hm : mapM _ _ _ = _, Hs : setSourceMapRange _ _ _ = _ |- _ =>
        apply mapM_visitExpression_translates in Hm;
        apply setSourceMapRange_Ok_same in Hs; destruct Hs as [Hsyn Hcom]
    end.
    do 3 eexists.
    exists (ts.parenthesizeForAccess
              (match name0 with
               | Some name => ts.createPropertyAccess a (inl name)
               | None => a
               end)).
    split; [eassumption|]. split; [eassumption|].
    rewrite Hsyn. split; [reflexivity|].
    destruct name0 as [name1|].
    + do 2 eexists. split; [reflexivity|]. split; [reflexivity|].
      apply accessed_parenthesizeForAccess.
    + apply accessed_parenthesizeForAccess.
  - intros classExpr args sp H. unfold_visit H. inv_M H.
    match goal with
    | Hm : mapM _ _ _ = _ |- _ =>
        apply mapM_visitExpression_translates in Hm
    end.
    do 3 eexists. exists (ts.parenthesizeForNew a).
    split; [eassumption|]. split; [eassumption|].
    split; [reflexivity|]. split; [reflexivity|].
    split.
    + intros x Hx. destruct a as [s range comments]. simpl in Hx. subst s.
      reflexivity.
    + intros e es He. destruct a as [s range comments]. simpl in He.
      subst s. reflexivity.
Qed.






(** ** Where the context bit can reach *)

(** The translation of [e] cannot reach a read of [context.isStatement]
    with the context [e] is visited in: [e] has no write to a variable or
    to a key, outside the statements of a function literal that start
    from a mode of their own.  Every statement but [if] fixes the mode of
    what it holds; an [if] hands its own context to its condition. *)
Fixpoint contextFree (e : Expression) : bool :=
  match e with
  | ReadVarExpr _ _ | LiteralExpr _ _ | ExternalExpr _ _
  | CommaExpr _ _ | WrappedNodeExpr _ _ => true
  | WriteVarExpr _ _ _ | WriteKeyExpr _ _ _ _ => false
  | WritePropExpr r _ v _ => contextFree r && contextFree v
  | InvokeMethodExpr r _ args _ => contextFree r && forallb contextFree args
  | InvokeFunctionExpr f args _ _ =>
      contextFree f && forallb contextFree args
  | InstantiateExpr c args _ => contextFree c && forallb contextFree args
  | LocalizedString _ _ _ es _ => forallb contextFree es
  | ConditionalExpr c t f _ =>
      contextFree c && contextFree t
      && match f with Some f => contextFree f | None => true end
  | NotExpr c _ | AssertNotNull c _ => contextFree c
  | CastExpr v _ => contextFree v
  | FunctionExpr _ stmts _ _ => forallb contextFree_stmt stmts
  | UnaryOperatorExpr _ e _ | TypeofExpr e _ => contextFree e
  | BinaryOperatorExpr _ l r _ => contextFree l && contextFree r
  | ReadPropExpr r _ _ => contextFree r
  | ReadKeyExpr r i _ => contextFree r && contextFree i
  | LiteralArrayExpr es _ => forallb contextFree es
  | LiteralMapExpr es _ =>
      forallb (fun entry => contextFree (value entry)) es
  end
with contextFree_stmt (s : Statement) : bool :=
  match s with
  | IfStmt c _ _ _ => contextFree c
  | _ => true
  end.

(** Two computations that do the same from every visitor. *)
Definition same_run {A} (m m' : M A) : Prop :=
  forall this, m this = m' this.

Lemma same_run_refl {A} (m : M A) : same_run m m.
Proof. intros this. reflexivity. Qed.

Lemma bind_ext {A B} (m m' : M A) (f g : A -> M B) :
  same_run m m' -> (forall a, same_run (f a) (g a)) ->
  same_run (bind m f) (bind m' g).
Proof.
  intros Hm Hf this. unfold bind. rewrite Hm.
  destruct (m' this) as [[a|e] s]; [apply Hf | reflexivity].
Qed.

Lemma mapM_ext {A B} (f g : A -> M B) l :
  Forall (fun x => same_run (f x) (g x)) l ->
  same_run (mapM f l) (mapM g l).
Proof.
  induction 1 as [|x l Hx _ IH]; [apply same_run_refl|].
  simpl. apply bind_ext; [exact Hx|]. intros y.
  apply bind_ext; [exact IH|]. intros ys. apply same_run_refl.
Qed.

Lemma callAt_ext {A B} (f g : A -> M B) l i :
  Forall (fun x => same_run (f x) (g x)) l ->
  same_run (callAt f l i) (callAt g l i).
Proof.
  intros H. revert i.
  induction H as [|x l Hx _ IH]; intros i; [apply same_run_refl|].
  destruct i as [|j]; simpl; [exact Hx | apply IH].
Qed.

Lemma callAtZ_ext {A B} (f g : A -> M B) l i :
  Forall (fun x => same_run (f x) (g x)) l ->
  same_run (callAtZ f l i) (callAtZ g l i).
Proof.
  intros H. unfold callAtZ.
  destruct (i <? 0); [apply same_run_refl | now apply callAt_ext].
Qed.

Lemma forM_ext {S} (body body' : S -> Z -> M S) l acc :
  (forall acc i, same_run (body acc i) (body' acc i)) ->
  same_run (forM body l acc) (forM body' l acc).
Proof.
  intros H. revert acc.
  induction l as [|i l IH]; intros acc; [apply same_run_refl|].
  simpl. apply bind_ext; [apply H | exact IH].
Qed.

Lemma Forall_contextFree {A} (P : A -> Prop) (free : A -> bool) l
    (R : A -> Prop) :
  (forall x, P x -> free x = true -> R x) ->
  Forall P l -> forallb free l = true -> Forall R l.
Proof.
  intros HR H. induction H as [|x l Hx _ IH]; intros Hf; [constructor|].
  simpl in Hf. apply andb_prop in Hf. destruct Hf as [Hx' Hl].
  constructor; auto.
Qed.

Ltac split_andb :=
  repeat match goal with
         | H : _ && _ = true |- _ =>
             apply andb_prop in H; destruct H
         end.

Ltac ext_visit :=
  repeat first
    [ apply same_run_refl
    | match goal with
      | IH : _ -> forall c c', same_run (_ ?e c) (_ ?e c')
        |- same_run (_ ?e _) (_ ?e _) => apply IH; assumption
      end
    | match goal with
      | |- same_run (if ?b then _ else _) _ => destruct b
      | |- same_run (match ?x with Some _ => _ | None => _ end) _ =>
          destruct x
      | Hall : Forall _ ?l |- Forall _ ?l =>
          (eapply Forall_impl; [exact Hall|]); cbv beta; intros;
          solve [auto]
      end
    | apply bind_ext
    | apply mapM_ext
    | apply forM_ext
    | apply callAtZ_ext
    | intro ].

Lemma visit_contextFree :
  (forall e, contextFree e = true ->
             forall c c', same_run (visitExpression e c)
                                   (visitExpression e c')) /\
  (forall s, contextFree_stmt s = true ->
             forall c c', same_run (visitStatement s c)
                                   (visitStatement s c')).
Proof.
  apply Expression_Statement_ind;
    try (intros; intros this; reflexivity);
    try discriminate.
  all: intros; cbn [contextFree contextFree_stmt] in *; split_andb.
  all: try match goal with
           | H : P_option _ ?f |- _ => destruct f; simpl in H
           end.
  all: try match goal with
           | HF : Forall _ ?l, Hb : forallb _ ?l = true |- _ =>
               first
                 [ pose proof
                     (Forall_contextFree _ _ l
                        (fun x => forall c c',
                             same_run (visitExpression x c)
                                      (visitExpression x c'))
                        (fun x HP Hx => HP Hx) HF Hb) as Hall
                 | pose proof
                     (Forall_contextFree _ _ l
                        (fun x => forall c c',
                             same_run (visitStatement x c)
                                      (visitStatement x c'))
                        (fun x HP Hx => HP Hx) HF Hb) as Hall
                 | pose proof
                     (Forall_contextFree _ _ l
                        (fun x => forall c c',
                             same_run (visitExpression (value x) c)
                                      (visitExpression (value x) c'))
                        (fun x HP Hx => HP Hx) HF Hb) as Hall ]
           end.
  all: cbn [visitExpression visitStatement].
  all: unfold visitWritePropExpr, visitInvokeMethodExpr,
         visitInvokeFunctionExpr, visitInstantiateExpr,
         visitLocalizedString, createLocalizedStringTaggedTemplate,
         createLocalizedStringFunctionCall,
         visitConditionalExpr, visitNotExpr, visitAssertNotNullExpr,
         visitCastExpr, visitFunctionExpr, visitUnaryOperatorExpr,
         visitBinaryOperatorExpr, visitReadPropExpr, visitReadKeyExpr,
         visitLiteralArrayExpr, visitLiteralMapExpr, visitTypeofExpr,
         visitIfStmt.
  all: try solve [ext_visit].
  apply bind_ext; [|intros; apply same_run_refl].
  apply mapM_ext. eapply Forall_impl; [exact Hall|].
  cbv beta. intros entry He.
  apply bind_ext; [apply He | intros; apply same_run_refl].
Qed.

(** X9. The context a node is visited in matters to its translation only
    through writes to a variable or to a key.  An expression without such
    a write, the statements of function literals apart unless they are
    [if] statements whose condition has one, is translated to the same
    node, with the same effects on the visitor, in statement mode and in
    expression mode; so is every statement that is not an [if], and an
    [if] whose condition is such an expression. *)
Theorem X9_context_reaches_only_writes :
  (forall e c c' this,
      contextFree e = true ->
      visitExpression e c this = visitExpression e c' this) /\
  (forall s c c' this,
      contextFree_stmt s = true ->
      visitStatement s c this = visitStatement s c' this).
Proof.
  split.
  - intros e c c' this H. now apply (proj1 visit_contextFree).
  - intros s c c' this H. now apply (proj2 visit_contextFree).
Qed.


(** ** What a visit can do to the visitor *)

(** A relation between visitors that the three primitive steps respect
    is respected by every visit, whether it returns or throws. *)
Ltac frame_visit :=
  lazymatch goal with
  | |- spec ?R (bind _ _) _ =>
      eapply (spec_bind R _ _ (fun _ => True)); [ | intros ? _ ]
  | |- spec ?R (ret _) _ => apply (spec_ret R); exact I
  | |- spec ?R (throw _) _ => apply (spec_throw R)
  | |- spec ?R (mapM _ _) _ =>
      eapply (spec_weaken R);
      [ apply (spec_mapM R _ (fun _ _ => True));
        eapply Forall_impl; [eassumption | cbv beta; intros ? HH]
      | auto ]
  | |- spec ?R (mapMi _ _ _) _ =>
      eapply (spec_weaken R);
      [ apply (spec_mapMi R _ (fun _ _ => True));
        apply Forall_forall; intros ? _ ?
      | auto ]
  | |- spec ?R (forM _ _ _) _ =>
      apply (spec_forM R _ (fun _ => True)); [exact I | intros ? ? _]
  | |- spec ?R (callAtZ _ _ _) _ =>
      eapply (spec_weaken R);
      [ apply (spec_callAtZ R _ (fun _ _ => True));
        eapply Forall_impl; [eassumption | cbv beta; intros ? HH]
      | auto ]
  | |- spec _ (setSourceMapRange _ _) _ => solve [auto]
  | |- spec _ (createLiteral _ _) _ => unfold createLiteral; solve [auto]
  | |- spec _ (imports_generateNamedImport _ _) _ => solve [auto]
  | |- spec _ (defaultImportRecorder_recordUsedIdentifier _) _ =>
      solve [auto]
  | |- spec _ (visitExpression _ _) _ => solve [eauto]
  | |- spec _ (visitStatement _ _) _ => solve [eauto]
  | |- spec ?R (if ?b then _ else _) _ => destruct b eqn:?
  | |- spec ?R (match ?x with _ => _ end) _ => destruct x eqn:?
  end.

Lemma visit_frame (R : relation ExpressionTranslatorVisitor)
    `{!PreOrder R} :
  (forall expr sourceSpan,
      spec R (setSourceMapRange expr sourceSpan) (fun _ => True)) ->
  (forall moduleName symbol,
      spec R (imports_generateNamedImport moduleName symbol)
           (fun _ => True)) ->
  (forall node,
      spec R (defaultImportRecorder_recordUsedIdentifier node)
           (fun _ => True)) ->
  (forall e context, spec R (visitExpression e context) (fun _ => True))
  /\
  (forall s context, spec R (visitStatement s context) (fun _ => True)).
Proof.
  intros Hrange Himport Hrecord.
  apply Expression_Statement_ind; intros;
    cbn [visitExpression visitStatement];
    unfold visitReadVarExpr, visitWriteVarExpr, visitWriteKeyExpr,
      visitWritePropExpr, visitInvokeMethodExpr, visitInvokeFunctionExpr,
      visitInstantiateExpr, visitLiteralExpr, visitExternalExpr,
      visitLocalizedString, createLocalizedStringTaggedTemplate,
      createLocalizedStringFunctionCall,
      visitConditionalExpr, visitNotExpr, visitAssertNotNullExpr,
      visitCastExpr, visitFunctionExpr, visitUnaryOperatorExpr,
      visitBinaryOperatorExpr, visitReadPropExpr, visitReadKeyExpr,
      visitLiteralArrayExpr, visitLiteralMapExpr, visitCommaExpr,
      visitWrappedNodeExpr, visitTypeofExpr, visitDeclareVarStmt,
      visitDeclareFunctionStmt, visitExpressionStmt, visitReturnStmt,
      visitDeclareClassStmt, visitIfStmt, visitTryCatchStmt,
      visitThrowStmt;
    cbv zeta; cbn [P_option P_entry] in *;
    repeat frame_visit.
Qed.

(** The three steps by which the translator changes its visitor: it
    adds a source-file descriptor under a URL, it asks the import manager
    for a named import, it tells the recorder of an identifier. *)
Definition replay (this : ExpressionTranslatorVisitor) (e : Effect)
    : ExpressionTranslatorVisitor :=
  match e with
  | CreateSourceMapSource url content =>
      {| imports := imports this;
         externalSourceFiles :=
           <[url := ts.createSourceMapSource url content]>
             (externalSourceFiles this);
         effects := effects this ++ [e] |}
  | GenerateNamedImport moduleName symbol =>
      {| imports :=
           snd (generateNamedImport (imports this) moduleName symbol);
         externalSourceFiles := externalSourceFiles this;
         effects := effects this ++ [e] |}
  | RecordUsedIdentifier _ => log e this
  end.

(** [this'] is [this] after some such steps. *)
Definition by_steps : relation ExpressionTranslatorVisitor :=
  fun this this' => exists steps, this' = fold_left replay steps this.

#[local] Instance by_steps_PreOrder : PreOrder by_steps.
Proof.
  split.
  - intros this. now exists [].
  - intros a b c [s1 ->] [s2 ->]. exists (s1 ++ s2).
    now rewrite fold_left_app.
Qed.

Lemma by_steps_one e this : by_steps this (replay this e).
Proof. now exists [e]. Qed.

Lemma replay_effects steps this :
  effects (fold_left replay steps this) = effects this ++ steps.
Proof.
  revert this. induction steps as [|e steps IH]; intros this; simpl.
  - now rewrite app_nil_r.
  - rewrite IH. destruct e; simpl; now rewrite <- app_assoc.
Qed.

Lemma replay_imports steps this :
  Forall (fun e => match e with
                   | GenerateNamedImport _ _ => False
                   | _ => True
                   end) steps ->
  imports (fold_left replay steps this) = imports this.
Proof.
  intros H. revert this.
  induction H as [|e steps He _ IH]; intros this; simpl; [reflexivity|].
  rewrite IH. destruct e; simpl; tauto.
Qed.

Lemma replay_externalSourceFiles steps this :
  Forall (fun e => match e with
                   | CreateSourceMapSource _ _ => False
                   | _ => True
                   end) steps ->
  externalSourceFiles (fold_left replay steps this)
  = externalSourceFiles this.
Proof.
  intros H. revert this.
  induction H as [|e steps He _ IH]; intros this; simpl; [reflexivity|].
  rewrite IH. destruct e; simpl; tauto.
Qed.

Lemma visit_by_steps :
  (forall e context,
      spec by_steps (visitExpression e context) (fun _ => True)) /\
  (forall s context,
      spec by_steps (visitStatement s context) (fun _ => True)).
Proof.
  apply (visit_frame by_steps).
  - intros expr sourceSpan this. unfold setSourceMapRange.
    destruct sourceSpan as [span|]; [|simpl; split; [reflexivity|exact I]].
    destruct (truthy _); [|simpl; split; [reflexivity|exact I]].
    unfold bind, gets, modify, ret.
    destruct (externalSourceFiles this !! url (file (start span))) eqn:E.
    + rewrite bool_decide_eq_true_2 by eauto. simpl.
      split; [reflexivity|exact I].
    + rewrite bool_decide_eq_false_2 by (intros [? ?]; congruence). simpl.
      split; [|exact I].
      apply (by_steps_one
               (CreateSourceMapSource (url (file (start span)))
                                      (content (file (start span))))).
  - intros moduleName symbol0 this. unfold imports_generateNamedImport.
    pose proof (by_steps_one (GenerateNamedImport moduleName symbol0) this)
      as Hstep.
    simpl in Hstep.
    destruct (generateNamedImport _ _ _) as [named imports'].
    split; [exact Hstep|exact I].
  - intros node this. simpl. split; [|exact I].
    apply (by_steps_one (RecordUsedIdentifier node)).
Qed.

(** X10. Whatever a visit of an expression or a statement does, and
    whether it returns or throws, it changes the visitor only by a
    sequence of three kinds of steps: adding a source-file descriptor to
    the map, asking the import manager for a named import, and telling
    the recorder of an identifier.  The visitor it leaves is the one it
    started from after exactly the steps it logged, in order.  So the
    import manager is the one it started with when no import was asked
    for, and the source-file map is the one it started with when no
    descriptor was created. *)
Theorem X10_visitor_changes_by_logged_steps :
  forall context this,
    let changed (this' : ExpressionTranslatorVisitor) :=
      exists steps,
        this' = fold_left replay steps this /\
        effects this' = effects this ++ steps /\
        (Forall (fun e => match e with
                          | GenerateNamedImport _ _ => False
                          | _ => True
                          end) steps ->
         imports this' = imports this) /\
        (Forall (fun e => match e with
                          | CreateSourceMapSource _ _ => False
                          | _ => True
                          end) steps ->
         externalSourceFiles this' = externalSourceFiles this) in
    (forall e, changed (snd (visitExpression e context this))) /\
    (forall s, changed (snd (visitStatement s context this))).
Proof.
  intros context this changed.
  assert (forall this', by_steps this this' -> changed this') as Hc.
  { intros this' [steps ->]. exists steps.
    split; [reflexivity|]. split; [apply replay_effects|].
    split; [apply replay_imports | apply replay_externalSourceFiles]. }
  split.
  - intros e. apply Hc.
    exact (spec_state _ _ _ this (proj1 visit_by_steps e context)).
  - intros s. apply Hc.
    exact (spec_state _ _ _ this (proj2 visit_by_steps s context)).
Qed.


(** ** Which inputs the translator accepts *)

(** The first [n] elements of a list exist and all satisfy [f]. *)
Definition all_take {A} (f : A -> bool) : list A -> nat -> bool :=
  fix go (l : list A) (n : nat) : bool :=
    match l with
    | [] => match n with O => true | S _ => false end
    | x :: rest =>
        match n with
        | O => true
        | S n' => f x && go rest n'
        end
    end.

(** The localized strings of an input have what the two serializers
    read: a first message part, and a placeholder name for each message
    part after the first. *)
Fixpoint serializable (e : Expression) : bool :=
  match e with
  | ReadVarExpr _ _ | LiteralExpr _ _ | WrappedNodeExpr _ _
  | ExternalExpr _ _ => true
  | CommaExpr es _ => forallb serializable es
  | WriteVarExpr _ v _ => serializable v
  | WriteKeyExpr r i v _ =>
      serializable r && serializable i && serializable v
  | WritePropExpr r _ v _ => serializable r && serializable v
  | InvokeMethodExpr r _ args _ =>
      serializable r && forallb serializable args
  | InvokeFunctionExpr f args _ _ =>
      serializable f && forallb serializable args
  | InstantiateExpr c args _ =>
      serializable c && forallb serializable args
  | LocalizedString _ parts names es _ =>
      (1 <=? List.length parts)%nat
      && (List.length parts - 1 <=? List.length names)%nat
      && forallb serializable es
  | ConditionalExpr c t f _ =>
      serializable c && serializable t
      && match f with Some f => serializable f | None => true end
  | NotExpr c _ | AssertNotNull c _ => serializable c
  | CastExpr v _ => serializable v
  | FunctionExpr _ stmts _ _ => forallb serializable_stmt stmts
  | UnaryOperatorExpr _ e _ => serializable e
  | BinaryOperatorExpr _ l r _ => serializable l && serializable r
  | TypeofExpr e _ => serializable e
  | ReadPropExpr r _ _ => serializable r
  | ReadKeyExpr r i _ => serializable r && serializable i
  | LiteralArrayExpr es _ => forallb serializable es
  | LiteralMapExpr es _ =>
      forallb (fun entry => serializable (value entry)) es
  end
with serializable_stmt (s : Statement) : bool :=
  match s with
  | DeclareVarStmt _ v _ =>
      match v with Some v => serializable v | None => true end
  | DeclareFunctionStmt _ _ stmts _ => forallb serializable_stmt stmts
  | ExpressionStatement e _ | ReturnStatement e _ | ThrowStmt e _ =>
      serializable e
  | ClassStmt _ _ => true
  | TryCatchStmt b c _ =>
      forallb serializable_stmt b && forallb serializable_stmt c
  | IfStmt c t f _ =>
      serializable c && forallb serializable_stmt t
      && forallb serializable_stmt f
  end.

(** The shapes the translator has a translation for.  It has none for a
    variable read without a name, a comma expression, a class, a
    try-catch statement, an operator outside its tables, an external
    reference without a symbol name and a conditional without a false
    case; of a localized string it reads one expression less than there
    are message parts, each of which must be there, and at targets from
    ES2015 on it reads the expression before the last message part also
    when there is no message part. *)
Fixpoint supported (e : Expression) : bool :=
  match e with
  | ReadVarExpr name _ =>
      match name with Some _ => true | None => false end
  | LiteralExpr _ _ | WrappedNodeExpr _ _ => true
  | CommaExpr _ _ => false
  | ExternalExpr v _ =>
      match name v with Some _ => true | None => false end
  | WriteVarExpr _ v _ => supported v
  | WriteKeyExpr r i v _ => supported r && supported i && supported v
  | WritePropExpr r _ v _ => supported r && supported v
  | InvokeMethodExpr r _ args _ => supported r && forallb supported args
  | InvokeFunctionExpr f args _ _ => supported f && forallb supported args
  | InstantiateExpr c args _ => supported c && forallb supported args
  | LocalizedString _ parts _ es _ =>
      (if ts.ScriptTarget_ge scriptTarget ts.ES2015
       then negb (Nat.eqb (List.length parts) 0)
       else true)
      && all_take supported es (List.length parts - 1)
  | ConditionalExpr c t f _ =>
      supported c && supported t
      && match f with Some f => supported f | None => false end
  | NotExpr c _ | AssertNotNull c _ => supported c
  | CastExpr v _ => supported v
  | FunctionExpr _ stmts _ _ => forallb supported_stmt stmts
  | UnaryOperatorExpr op e _ =>
      match Map_get UNARY_OPERATORS op with
      | Some _ => supported e
      | None => false
      end
  | BinaryOperatorExpr op l r _ =>
      match Map_get BINARY_OPERATORS op with
      | Some _ => supported l && supported r
      | None => false
      end
  | TypeofExpr e _ => supported e
  | ReadPropExpr r _ _ => supported r
  | ReadKeyExpr r i _ => supported r && supported i
  | LiteralArrayExpr es _ => forallb supported es
  | LiteralMapExpr es _ =>
      forallb (fun entry => supported (value entry)) es
  end
with supported_stmt (s : Statement) : bool :=
  match s with
  | DeclareVarStmt _ v _ =>
      match v with Some v => supported v | None => true end
  | DeclareFunctionStmt _ _ stmts _ => forallb supported_stmt stmts
  | ExpressionStatement e _ | ReturnStatement e _ | ThrowStmt e _ =>
      supported e
  | ClassStmt _ _ | TryCatchStmt _ _ _ => false
  | IfStmt c t f _ =>
      supported c && forallb supported_stmt t && forallb supported_stmt f
  end.

(** [m] throws, whatever the visitor it starts from. *)
Definition throws {A} (m : M A) : Prop :=
  forall this, exists e this', m this = (Throw e, this').

(** [m] returns from every visitor when [b] holds and throws from every
    visitor when it does not. *)
Definition outcome {A} (b : bool) (m : M A) : Prop :=
  if b then total m else throws m.

Lemma outcome_ret {A} (a : A) : outcome true (ret a).
Proof. apply total_ret. Qed.

Lemma outcome_throw {A} e : outcome false (@throw A e).
Proof. intros this. now exists e, this. Qed.

Lemma outcome_total {A} (m : M A) : total m -> outcome true m.
Proof. auto. Qed.

Lemma outcome_eq {A} b b' (m : M A) : outcome b m -> b = b' -> outcome b' m.
Proof. now intros H <-. Qed.

Lemma outcome_bind {A B} b b' (m : M A) (f : A -> M B) :
  outcome b m -> (forall a, outcome b' (f a)) ->
  outcome (b && b') (bind m f).
Proof.
  intros Hm Hf. destruct b; simpl in *.
  - destruct b'; simpl in *.
    + now apply total_bind.
    + intros this. destruct (Hm this) as (a & this1 & E).
      destruct (Hf a this1) as (e & this2 & E').
      exists e, this2. unfold bind. now rewrite E.
  - intros this. destruct (Hm this) as (e & this1 & E).
    exists e, this1. unfold bind. now rewrite E.
Qed.

Lemma outcome_mapM {A B} (b : A -> bool) (f : A -> M B) l :
  Forall (fun x => outcome (b x) (f x)) l ->
  outcome (forallb b l) (mapM f l).
Proof.
  induction 1 as [|x l Hx _ IH]; simpl; [apply outcome_ret|].
  apply outcome_bind; [exact Hx|]. intros y.
  eapply outcome_eq;
    [apply outcome_bind; [exact IH | intros ys; apply outcome_ret]|].
  apply andb_true_r.
Qed.

Lemma outcome_callAtZ {A B} (b : A -> bool) (f : A -> M B) l i :
  Forall (fun x => outcome (b x) (f x)) l ->
  outcome (match (if i <? 0 then None else l !! Z.to_nat i) with
           | Some x => b x
           | None => false
           end)
          (callAtZ f l i).
Proof.
  intros H. unfold callAtZ. destruct (i <? 0); [apply outcome_throw|].
  generalize (Z.to_nat i). intros n. revert n.
  induction H as [|x l Hx _ IH]; intros n.
  - destruct n; apply outcome_throw.
  - destruct n as [|n]; simpl; [exact Hx | apply IH].
Qed.

Lemma all_take_0 {A} (b : A -> bool) l : all_take b l 0 = true.
Proof. now destruct l. Qed.

Lemma all_take_S_r {A} (b : A -> bool) l n :
  all_take b l (S n)
  = all_take b l n
    && match l !! n with Some x => b x | None => false end.
Proof.
  revert l. induction n as [|n IH]; intros l.
  - destruct l as [|x l]; simpl; [reflexivity|].
    now rewrite all_take_0, andb_true_r.
  - destruct l as [|x l]; [reflexivity|].
    change (all_take b (x :: l) (S (S n)))
      with (b x && all_take b l (S n)).
    rewrite IH. simpl. apply andb_assoc.
Qed.

Lemma seqZ_to_nat m len : seqZ m len = seqZ m (Z.of_nat (Z.to_nat len)).
Proof. unfold seqZ. now rewrite Nat2Z.id. Qed.

(** A counting loop whose body starts with a call on the element one
    below the counter, and cannot fail after it. *)
Lemma outcome_forM_from {A B St} (b : A -> bool) (f : A -> M B) es
      (k : St -> Z -> B -> M St) n start acc :
  Forall (fun x => outcome (b x) (f x)) es ->
  (forall acc i r, total (k acc i r)) ->
  outcome (all_take b (drop start es) n)
          (forM (fun acc i => bind (callAtZ f es (i - 1)) (k acc i))
                (seqZ (Z.of_nat start + 1) (Z.of_nat n)) acc).
Proof.
  intros Hes Hk. revert start acc.
  induction n as [|n IH]; intros start acc;
    [rewrite all_take_0; apply outcome_ret|].
  rewrite seqZ_cons by lia.
  replace (Z.succ (Z.of_nat start + 1)) with (Z.of_nat (S start) + 1)
    by lia.
  replace (Z.pred (Z.of_nat (S n))) with (Z.of_nat n) by lia.
  cbn [forM].
  pose proof (outcome_callAtZ b f es (Z.of_nat start + 1 - 1) Hes) as Hc.
  replace (Z.of_nat start + 1 - 1) with (Z.of_nat start) in * by lia.
  destruct (Z.ltb_spec (Z.of_nat start) 0) as [?|_]; [lia|].
  rewrite Nat2Z.id in Hc.
  eapply outcome_eq.
  - apply outcome_bind; [|intros acc'; apply IH].
    apply outcome_bind; [exact Hc | intros r; apply outcome_total, Hk].
  - destruct (es !! start) as [x|] eqn:Hx.
    + rewrite (drop_S _ _ _ Hx).
      change (all_take b (x :: drop (S start) es) (S n))
        with (b x && all_take b (drop (S start) es) n).
      now rewrite andb_true_r.
    + rewrite (drop_ge es start) by (now apply lookup_ge_None).
      reflexivity.
Qed.

Lemma outcome_forM {A B St} (b : A -> bool) (f : A -> M B) es
      (k : St -> Z -> B -> M St) len acc :
  Forall (fun x => outcome (b x) (f x)) es ->
  (forall acc i r, total (k acc i r)) ->
  outcome (all_take b es (Z.to_nat len))
          (forM (fun acc i => bind (callAtZ f es (i - 1)) (k acc i))
                (seqZ 1 len) acc).
Proof.
  intros Hes Hk. rewrite seqZ_to_nat.
  exact (outcome_forM_from b f es k (Z.to_nat len) 0 acc Hes Hk).
Qed.


Ltac outcome_step :=
  lazymatch goal with
  | |- outcome _ (bind _ _) => eapply outcome_bind; [ | intros ? ]
  | |- outcome _ (ret _) => apply outcome_ret
  | |- outcome _ (throw _) => apply outcome_throw
  | |- outcome _ (setSourceMapRange _ _) =>
      apply outcome_total, total_setSourceMapRange
  | |- outcome _ (imports_generateNamedImport _ _) =>
      apply outcome_total, total_imports_generateNamedImport
  | |- outcome _ (modify _) => apply outcome_total; intros ?; eexists _, _; reflexivity
  | |- outcome _ (mapMi _ _ _) =>
      apply outcome_total, total_mapMi; intros ? ?;
      apply total_setSourceMapRange
  | |- outcome _ (visitExpression ?e _) =>
      match goal with
      | IH : forall c, outcome _ (visitExpression e c) |- _ => apply IH
      end
  | |- outcome _ (mapM _ _) =>
      eapply outcome_mapM;
      (eapply Forall_impl; [eassumption|]); cbv beta; intros ? HH;
      apply HH
  | |- outcome _ (callAtZ _ _ _) =>
      eapply outcome_callAtZ;
      (eapply Forall_impl; [eassumption|]); cbv beta; intros ? HH;
      apply HH
  | |- outcome _ (forM _ _ _) =>
      eapply (outcome_forM supported);
      [ (eapply Forall_impl; [eassumption|]); cbv beta; intros ? HH;
        apply HH
      | intros ? ? ?;
        repeat (apply total_bind; [|intros ?]);
        first [apply total_setSourceMapRange | apply total_ret] ]
  | |- outcome _ (if ?b then _ else _) => destruct b
  | |- outcome _ (match ?x with _ => _ end) => destruct x
  end.

Ltac outcome_visit :=
  eapply outcome_eq;
  [ repeat outcome_step
  | rewrite ?andb_true_r, ?andb_true_l, ?andb_assoc; reflexivity ].

Lemma visit_outcome :
  (forall e context, outcome (supported e) (visitExpression e context)) /\
  (forall s context,
      outcome (supported_stmt s) (visitStatement s context)).
Proof.
  apply Expression_Statement_ind; intros;
    cbn [supported supported_stmt visitExpression visitStatement];
    unfold visitReadVarExpr, visitWriteVarExpr, visitWriteKeyExpr,
      visitWritePropExpr, visitInvokeMethodExpr, visitInvokeFunctionExpr,
      visitInstantiateExpr, visitLiteralExpr, visitExternalExpr,
      visitConditionalExpr, visitNotExpr, visitAssertNotNullExpr,
      visitCastExpr, visitFunctionExpr, visitUnaryOperatorExpr,
      visitBinaryOperatorExpr, visitReadPropExpr, visitReadKeyExpr,
      visitLiteralArrayExpr, visitLiteralMapExpr, visitCommaExpr,
      visitWrappedNodeExpr, visitTypeofExpr, visitDeclareVarStmt,
      visitDeclareFunctionStmt, visitExpressionStmt, visitReturnStmt,
      visitDeclareClassStmt, visitTryCatchStmt,
      visitThrowStmt, defaultImportRecorder_recordUsedIdentifier;
    cbv zeta;
    try match goal with
        | H : P_option _ ?f |- _ => destruct f; simpl in H
        end;
    repeat match goal with
           | |- outcome _ (match ?x with _ => _ end) => destruct x eqn:?
           | |- outcome _ (if ?b then _ else _) => destruct b eqn:?
           end;
    try solve [outcome_visit].
  - (* LocalizedString *)
    unfold visitLocalizedString.
    destruct (ts.ScriptTarget_ge scriptTarget ts.ES2015).
    + unfold createLocalizedStringTaggedTemplate. cbv zeta.
      destruct parts as [|p [|p' parts]].
      * change (Z.of_nat (List.length (@nil MessagePiece)) =? 1)
          with false.
        cbv iota.
        eapply outcome_eq; [repeat outcome_step|].
        rewrite all_take_0. reflexivity.
      * change (Z.of_nat (List.length [p]) =? 1) with true. cbv iota.
        eapply outcome_eq; [repeat outcome_step|].
        simpl. now rewrite all_take_0.
      * destruct (Z.eqb_spec (Z.of_nat (List.length (p :: p' :: parts))) 1)
          as [Hone|_]; [simpl in Hone; lia|].
        replace (Z.of_nat (List.length (p :: p' :: parts)) - 2)
          with (Z.of_nat (List.length parts)) by (simpl List.length; lia).
        eapply outcome_eq; [repeat outcome_step|].
        destruct (Z.ltb_spec (Z.of_nat (List.length parts)) 0); [lia|].
        rewrite Nat2Z.id.
        change (List.length (p :: p' :: parts) - 1)%nat
          with (S (List.length parts)).
        rewrite all_take_S_r.
        change (negb (S (S (List.length parts)) =? 0)%nat) with true.
        now rewrite ?andb_true_r, ?andb_true_l.
    + unfold createLocalizedStringFunctionCall. cbv zeta.
      eapply outcome_eq; [repeat outcome_step|].
      replace (Z.to_nat (Z.of_nat (List.length parts) - 1))
        with (List.length parts - 1)%nat by lia.
      now rewrite ?andb_true_r, ?andb_true_l.
  - (* LiteralMapExpr *)
    eapply outcome_eq;
      [apply outcome_bind;
       [apply (outcome_mapM (fun entry => supported (value entry)))
       |intros; apply outcome_total, total_setSourceMapRange]
      |apply andb_true_r].
    eapply Forall_impl; [eassumption|]. cbv beta. intros entry He.
    unfold P_entry in He.
    eapply outcome_eq;
      [apply outcome_bind; [apply He | intros; apply outcome_ret]
      |apply andb_true_r].
  - (* IfStmt *)
    unfold visitIfStmt. cbv zeta.
    destruct f as [|s f].
    + change (0 <? Z.of_nat (List.length (@nil Statement))) with false.
      cbv iota.
      eapply outcome_eq; [repeat outcome_step|].
      simpl. destruct (supported c), (forallb supported_stmt t);
        reflexivity.
    + change (0 <? Z.of_nat (List.length (s :: f))) with true. cbv iota.
      eapply outcome_eq; [repeat outcome_step|].
      destruct (supported c), (forallb supported_stmt t),
        (forallb supported_stmt (s :: f)); reflexivity.
Qed.


Lemma outcome_Ok_iff {A} b (m : M A) this :
  outcome b m -> (exists a this', m this = (Ok a, this')) <-> b = true.
Proof.
  intros H. destruct b; simpl in H.
  - split; [reflexivity | intros _; apply H].
  - split; [|discriminate].
    intros (a & this' & E). destruct (H this) as (e & this'' & E').
    congruence.
Qed.

(** X11. Whether a translation returns or throws is decided by the shape
    of its input alone: not by the context, and not by the visitor it
    starts from.  Take an input whose localized strings have what the
    serializers read, a first message part and a placeholder name for
    each later one.  Its visit returns exactly when the part of it the
    translator reads has no variable read without a name, no comma
    expression, no class and no try-catch statement, no operator outside
    the two tables, no external reference without a symbol name, no
    conditional without a false case, and no localized string with fewer
    expressions than message parts less one; the same holds of a
    statement.  Whatever is not of this kind throws. *)
Theorem X11_returns_exactly_on_supported_shapes :
  forall context this,
    (forall e,
        serializable e = true ->
        (exists r this', visitExpression e context this = (Ok r, this'))
        <-> supported e = true) /\
    (forall s,
        serializable_stmt s = true ->
        (exists r this', visitStatement s context this = (Ok r, this'))
        <-> supported_stmt s = true) /\
    (forall e,
        serializable e = true ->
        supported e = false ->
        exists error this',
          visitExpression e context this = (Throw error, this')) /\
    (forall s,
        serializable_stmt s = true ->
        supported_stmt s = false ->
        exists error this',
          visitStatement s context this = (Throw error, this')).
Proof.
  intros context this. repeat apply conj.
  - intros e _. apply outcome_Ok_iff, (proj1 visit_outcome).
  - intros s _. apply outcome_Ok_iff, (proj2 visit_outcome).
  - intros e _ He. pose proof (proj1 visit_outcome e context) as H.
    rewrite He in H. apply H.
  - intros s _ Hs. pose proof (proj2 visit_outcome s context) as H.
    rewrite Hs in H. apply H.
Qed.


(** ** A range set twice *)

Lemma setSourceMapRange_hit expr span this d :
  truthy (url (file (start span))) = true ->
  externalSourceFiles this !! url (file (start span)) = Some d ->
  setSourceMapRange expr (Some span) this
  = (Ok (ts.setSourceMapRange expr
           {| ts.pos := offset (start span);
              ts.end_ := offset (end_ span);
              ts.source := Some d |}),
     this).
Proof.
  intros Hurl Hd. unfold setSourceMapRange. rewrite Hurl.
  unfold bind, gets, modify, ret. rewrite Hd.
  rewrite bool_decide_eq_true_2 by eauto. simpl. rewrite Hd.
  reflexivity.
Qed.

Lemma setSourceMapRange_miss expr span this :
  truthy (url (file (start span))) = true ->
  externalSourceFiles this !! url (file (start span)) = None ->
  setSourceMapRange expr (Some span) this
  = (Ok (ts.setSourceMapRange expr
           {| ts.pos := offset (start span);
              ts.end_ := offset (end_ span);
              ts.source :=
                Some (ts.createSourceMapSource
                        (url (file (start span)))
                        (content (file (start span)))) |}),
     replay this (CreateSourceMapSource (url (file (start span)))
                                        (content (file (start span))))).
Proof.
  intros Hurl Hnone. unfold setSourceMapRange. rewrite Hurl.
  unfold bind, gets, modify, ret. rewrite Hnone.
  rewrite bool_decide_eq_false_2 by (intros [? ?]; congruence).
  simpl. rewrite lookup_insert_eq. reflexivity.
Qed.

Lemma ts_setSourceMapRange_twice n r r' :
  ts.setSourceMapRange (ts.setSourceMapRange n r) r'
  = ts.setSourceMapRange n r'.
Proof. now destruct n. Qed.

Lemma setSourceMapRange_twice expr sourceSpan :
  same_run (let* r := setSourceMapRange expr sourceSpan in
            setSourceMapRange r sourceSpan)
           (setSourceMapRange expr sourceSpan).
Proof.
  intros this. unfold bind at 1.
  destruct sourceSpan as [span|]; [|reflexivity].
  destruct (truthy (url (file (start span)))) eqn:Hurl;
    [|unfold setSourceMapRange; rewrite Hurl; reflexivity].
  destruct (externalSourceFiles this !! url (file (start span)))
    as [d|] eqn:Hd.
  - rewrite (setSourceMapRange_hit _ _ _ d Hurl Hd).
    rewrite (setSourceMapRange_hit _ _ _ d Hurl Hd).
    now rewrite ts_setSourceMapRange_twice.
  - rewrite (setSourceMapRange_miss _ _ _ Hurl Hd).
    erewrite setSourceMapRange_hit;
      [|exact Hurl|simpl; apply lookup_insert_eq].
    now rewrite ts_setSourceMapRange_twice.
Qed.

Lemma bind_assoc {A B C} (m : M A) (f : A -> M B) (g : B -> M C) :
  same_run (bind (bind m f) g) (bind m (fun a => bind (f a) g)).
Proof.
  intros this. unfold bind.
  destruct (m this) as [[a|e] this1]; reflexivity.
Qed.

(** X12. Setting the source-map range of a node twice from the same span
    is setting it once: the second call finds the descriptor the first
    one stored, creates nothing and attaches the same range.  At targets
    from ES2015 on the translation of a localized string does this, in
    the lowering and again on its return, so there the visit is the
    lowering and nothing more. *)
Theorem X12_range_set_twice_is_set_once :
  (forall expr sourceSpan this,
      (let* r := setSourceMapRange expr sourceSpan in
       setSourceMapRange r sourceSpan) this
      = setSourceMapRange expr sourceSpan this) /\
  (ts.ScriptTarget_ge scriptTarget ts.ES2015 = true ->
   forall m parts names es sp context this,
     visitExpression (LocalizedString m parts names es sp) context this
     = createLocalizedStringTaggedTemplate visitExpression
         (LocalizedString m parts names es sp) parts es sp context this).
Proof.
  split; [intros; apply setSourceMapRange_twice|].
  intros Hge m parts names es sp context this.
  cbn [visitExpression]. unfold visitLocalizedString. rewrite Hge.
  unfold createLocalizedStringTaggedTemplate. cbv zeta.
  rewrite bind_assoc.
  apply bind_ext; [apply same_run_refl|].
  intros template. apply setSourceMapRange_twice.
Qed.


(** ** What a translation asks of the import manager and the recorder *)

(** [f] over the first [n] elements of a list, joined. *)
Definition flat_take {A B} (f : A -> list B) : list A -> nat -> list B :=
  fix go (l : list A) (n : nat) : list B :=
    match l with
    | [] => []
    | x :: rest =>
        match n with
        | O => []
        | S n' => f x ++ go rest n'
        end
    end.

(** The calls the translation of a node makes to the import manager and
    to the recorder, in the order it makes them: one named import for
    each external reference with a module name, one notification for
    each wrapped node that is an identifier, and below ES2015 one import
    of the template-object helper of [tslib] for each localized string,
    after the calls of its expressions.  The children are taken in the
    order they are visited in, which for an [if] statement is the true
    case, the false case and then the condition. *)
Fixpoint calls (e : Expression) : list Effect :=
  match e with
  | ReadVarExpr _ _ | LiteralExpr _ _ | CommaExpr _ _ => []
  | WrappedNodeExpr node _ =>
      if ts.isIdentifier node then [RecordUsedIdentifier node] else []
  | ExternalExpr v _ =>
      match name v with
      | Some name =>
          match moduleName v with
          | Some moduleName => [GenerateNamedImport moduleName name]
          | None => []
          end
      | None => []
      end
  | WriteVarExpr _ v _ => calls v
  | WriteKeyExpr r i v _ => calls r ++ calls i ++ calls v
  | WritePropExpr r _ v _ => calls r ++ calls v
  | InvokeMethodExpr r _ args _ => calls r ++ flat_map calls args
  | InvokeFunctionExpr f args _ _ => calls f ++ flat_map calls args
  | InstantiateExpr c args _ => calls c ++ flat_map calls args
  | LocalizedString _ parts _ es _ =>
      flat_take calls es (List.length parts - 1)
      ++ (if ts.ScriptTarget_ge scriptTarget ts.ES2015 then []
          else [GenerateNamedImport "tslib" "__makeTemplateObject"])
  | ConditionalExpr c t f _ =>
      calls c ++ calls t
      ++ match f with Some f => calls f | None => [] end
  | NotExpr c _ | AssertNotNull c _ => calls c
  | CastExpr v _ => calls v
  | FunctionExpr _ stmts _ _ => flat_map calls_stmt stmts
  | UnaryOperatorExpr _ e _ | TypeofExpr e _ => calls e
  | BinaryOperatorExpr _ l r _ => calls l ++ calls r
  | ReadPropExpr r _ _ => calls r
  | ReadKeyExpr r i _ => calls r ++ calls i
  | LiteralArrayExpr es _ => flat_map calls es
  | LiteralMapExpr es _ => flat_map (fun entry => calls (value entry)) es
  end
with calls_stmt (s : Statement) : list Effect :=
  match s with
  | DeclareVarStmt _ v _ =>
      match v with Some v => calls v | None => [] end
  | DeclareFunctionStmt _ _ stmts _ => flat_map calls_stmt stmts
  | ExpressionStatement e _ | ReturnStatement e _ | ThrowStmt e _ =>
      calls e
  | ClassStmt _ _ | TryCatchStmt _ _ _ => []
  | IfStmt c t f _ =>
      flat_map calls_stmt t ++ flat_map calls_stmt f ++ calls c
  end.

(** The entries of a log that are calls to the import manager or the
    recorder. *)
Definition outside (l : list Effect) : list Effect :=
  List.filter (fun e => match e with
                        | CreateSourceMapSource _ _ => false
                        | _ => true
                        end) l.

(** When [m] returns, the calls it has added to the log are [l]. *)
Definition emits {A} (m : M A) (l : list Effect) : Prop :=
  forall this a this',
    m this = (Ok a, this') ->
    exists new, effects this' = effects this ++ new /\ outside new = l.

Lemma emits_ret {A} (a : A) : emits (ret a) [].
Proof.
  intros this a' this' H. inv_M H. exists [].
  now rewrite app_nil_r.
Qed.

Lemma emits_throw {A} e l : emits (@throw A e) l.
Proof. intros this a this' H. discriminate. Qed.

Lemma emits_eq {A} (m : M A) l l' : emits m l -> l = l' -> emits m l'.
Proof. now intros H <-. Qed.

Lemma emits_bind {A B} (m : M A) (f : A -> M B) l1 l2 :
  emits m l1 -> (forall a, emits (f a) l2) -> emits (bind m f) (l1 ++ l2).
Proof.
  intros Hm Hf this b this' H.
  apply bind_Ok in H. destruct H as (a & this1 & H1 & H2).
  destruct (Hm _ _ _ H1) as (n1 & E1 & O1).
  destruct (Hf _ _ _ _ H2) as (n2 & E2 & O2).
  exists (n1 ++ n2). split.
  - now rewrite E2, E1, <- app_assoc.
  - unfold outside in *. now rewrite List.filter_app, O1, O2.
Qed.

Lemma emits_mapM {A B} (g : A -> list Effect) (f : A -> M B) l :
  Forall (fun x => emits (f x) (g x)) l ->
  emits (mapM f l) (flat_map g l).
Proof.
  induction 1 as [|x l Hx _ IH]; simpl; [apply emits_ret|].
  apply emits_bind; [exact Hx|]. intros y.
  eapply emits_eq;
    [apply emits_bind; [exact IH | intros ys; apply emits_ret]|].
  apply app_nil_r.
Qed.

Lemma emits_mapMi_nil {A B} (f : A -> Z -> M B) l i :
  (forall x i, emits (f x i) []) -> emits (mapMi f l i) [].
Proof.
  intros Hf. revert i. induction l as [|x l IH]; intros i; simpl.
  - apply emits_ret.
  - apply (emits_bind _ _ [] []); [apply Hf|]. intros y.
    apply (emits_bind _ _ [] []); [apply IH|]. intros ys.
    apply emits_ret.
Qed.

Lemma emits_callAtZ {A B} (g : A -> list Effect) (f : A -> M B) l i :
  Forall (fun x => emits (f x) (g x)) l ->
  emits (callAtZ f l i)
        (match (if i <? 0 then None else l !! Z.to_nat i) with
         | Some x => g x
         | None => []
         end).
Proof.
  intros H. unfold callAtZ. destruct (i <? 0); [apply emits_throw|].
  generalize (Z.to_nat i). intros n. revert n.
  induction H as [|x l Hx _ IH]; intros n.
  - destruct n; apply emits_throw.
  - destruct n as [|n]; simpl; [exact Hx | apply IH].
Qed.

Lemma flat_take_0 {A B} (g : A -> list B) l : flat_take g l 0 = [].
Proof. now destruct l. Qed.

Lemma flat_take_S_r {A B} (g : A -> list B) l n :
  flat_take g l (S n)
  = flat_take g l n ++ match l !! n with Some x => g x | None => [] end.
Proof.
  revert l. induction n as [|n IH]; intros l.
  - destruct l as [|x l]; simpl; [reflexivity|].
    rewrite flat_take_0. apply app_nil_r.
  - destruct l as [|x l]; [reflexivity|].
    change (flat_take g (x :: l) (S (S n)))
      with (g x ++ flat_take g l (S n)).
    rewrite IH. simpl. apply app_assoc.
Qed.

Lemma emits_forM_from {A B St} (g : A -> list Effect) (f : A -> M B) es
      (k : St -> Z -> B -> M St) n start acc :
  Forall (fun x => emits (f x) (g x)) es ->
  (forall acc i r, emits (k acc i r) []) ->
  emits (forM (fun acc i => bind (callAtZ f es (i - 1)) (k acc i))
              (seqZ (Z.of_nat start + 1) (Z.of_nat n)) acc)
        (flat_take g (drop start es) n).
Proof.
  intros Hes Hk. revert start acc.
  induction n as [|n IH]; intros start acc;
    [rewrite flat_take_0; apply emits_ret|].
  rewrite seqZ_cons by lia.
  replace (Z.succ (Z.of_nat start + 1)) with (Z.of_nat (S start) + 1)
    by lia.
  replace (Z.pred (Z.of_nat (S n))) with (Z.of_nat n) by lia.
  cbn [forM].
  pose proof (emits_callAtZ g f es (Z.of_nat start + 1 - 1) Hes) as Hc.
  replace (Z.of_nat start + 1 - 1) with (Z.of_nat start) in * by lia.
  destruct (Z.ltb_spec (Z.of_nat start) 0) as [?|_]; [lia|].
  rewrite Nat2Z.id in Hc.
  eapply emits_eq.
  - apply emits_bind; [|intros acc'; apply IH].
    apply emits_bind; [exact Hc | intros r; apply Hk].
  - destruct (es !! start) as [x|] eqn:Hx.
    + rewrite (drop_S _ _ _ Hx).
      change (flat_take g (x :: drop (S start) es) (S n))
        with (g x ++ flat_take g (drop (S start) es) n).
      now rewrite app_nil_r.
    + rewrite (drop_ge es start) by (now apply lookup_ge_None).
      rewrite (drop_ge es (S start))
        by (apply lookup_ge_None in Hx; lia).
      reflexivity.
Qed.

Lemma emits_forM {A B St} (g : A -> list Effect) (f : A -> M B) es
      (k : St -> Z -> B -> M St) len acc :
  Forall (fun x => emits (f x) (g x)) es ->
  (forall acc i r, emits (k acc i r) []) ->
  emits (forM (fun acc i => bind (callAtZ f es (i - 1)) (k acc i))
              (seqZ 1 len) acc)
        (flat_take g es (Z.to_nat len)).
Proof.
  intros Hes Hk. rewrite seqZ_to_nat.
  exact (emits_forM_from g f es k (Z.to_nat len) 0 acc Hes Hk).
Qed.

Lemma emits_setSourceMapRange expr sourceSpan :
  emits (setSourceMapRange expr sourceSpan) [].
Proof.
  intros this r this' H.
  assert (exists new : list Effect,
             effects this = effects this ++ new /\ outside new = [])
    as Hnil by (exists []; split; [now rewrite app_nil_r | reflexivity]).
  destruct sourceSpan as [span|];
    [|inversion H; subst; exact Hnil].
  destruct (truthy (url (file (start span)))) eqn:Hurl;
    [|unfold setSourceMapRange in H; rewrite Hurl in H;
      inversion H; subst; exact Hnil].
  destruct (externalSourceFiles this !! url (file (start span)))
    as [d|] eqn:Hd.
  - rewrite (setSourceMapRange_hit _ _ _ d Hurl Hd) in H.
    inversion H; subst. exact Hnil.
  - rewrite (setSourceMapRange_miss _ _ _ Hurl Hd) in H.
    inversion H; subst. eexists. split; reflexivity.
Qed.

Lemma emits_generateNamedImport moduleName symbol :
  emits (imports_generateNamedImport moduleName symbol)
        [GenerateNamedImport moduleName symbol].
Proof.
  intros this r this' H. unfold imports_generateNamedImport in H.
  destruct (generateNamedImport _ _ _) as [named imports'].
  inversion H; subst. eexists. split; reflexivity.
Qed.

Lemma emits_recordUsedIdentifier node :
  emits (defaultImportRecorder_recordUsedIdentifier node)
        [RecordUsedIdentifier node].
Proof.
  intros this r this' H. inversion H; subst.
  eexists. split; reflexivity.
Qed.

Ltac emits_step :=
  lazymatch goal with
  | |- emits (bind _ _) _ => eapply emits_bind; [ | intros ? ]
  | |- emits (ret _) _ => apply emits_ret
  | |- emits (throw _) _ => apply emits_throw
  | |- emits (setSourceMapRange _ _) _ => apply emits_setSourceMapRange
  | |- emits (imports_generateNamedImport _ _) _ =>
      apply emits_generateNamedImport
  | |- emits (defaultImportRecorder_recordUsedIdentifier _) _ =>
      apply emits_recordUsedIdentifier
  | |- emits (mapMi _ _ _) _ =>
      apply emits_mapMi_nil; intros ? ?; apply emits_setSourceMapRange
  | |- emits (visitExpression ?e _) _ =>
      match goal with
      | IH : forall c, emits (visitExpression e c) _ |- _ => apply IH
      end
  | |- emits (mapM _ _) _ =>
      eapply emits_mapM;
      (eapply Forall_impl; [eassumption|]); cbv beta; intros ? HH;
      apply HH
  | |- emits (callAtZ _ _ _) _ =>
      eapply emits_callAtZ;
      (eapply Forall_impl; [eassumption|]); cbv beta; intros ? HH;
      apply HH
  | |- emits (forM _ _ _) _ =>
      eapply (emits_forM calls);
      [ (eapply Forall_impl; [eassumption|]); cbv beta; intros ? HH;
        apply HH
      | intros ? ? ?;
        repeat (apply (emits_bind _ _ [] []); [|intros ?]);
        first [apply emits_setSourceMapRange | apply emits_ret] ]
  | |- emits (if ?b then _ else _) _ => destruct b
  | |- emits (match ?x with _ => _ end) _ => destruct x
  end.

Ltac emits_visit :=
  eapply emits_eq;
  [ repeat emits_step
  | rewrite ?app_nil_r, ?app_nil_l, <- ?app_assoc; reflexivity ].

Lemma visit_emits :
  (forall e context, emits (visitExpression e context) (calls e)) /\
  (forall s context, emits (visitStatement s context) (calls_stmt s)).
Proof.
  apply Expression_Statement_ind; intros;
    cbn [calls calls_stmt visitExpression visitStatement];
    unfold visitReadVarExpr, visitWriteVarExpr, visitWriteKeyExpr,
      visitWritePropExpr, visitInvokeMethodExpr, visitInvokeFunctionExpr,
      visitInstantiateExpr, visitLiteralExpr, visitExternalExpr,
      visitConditionalExpr, visitNotExpr, visitAssertNotNullExpr,
      visitCastExpr, visitFunctionExpr, visitUnaryOperatorExpr,
      visitBinaryOperatorExpr, visitReadPropExpr, visitReadKeyExpr,
      visitLiteralArrayExpr, visitLiteralMapExpr, visitCommaExpr,
      visitWrappedNodeExpr, visitTypeofExpr, visitDeclareVarStmt,
      visitDeclareFunctionStmt, visitExpressionStmt, visitReturnStmt,
      visitDeclareClassStmt, visitTryCatchStmt,
      visitThrowStmt;
    cbv zeta;
    try match goal with
        | H : P_option _ ?f |- _ => destruct f; simpl in H
        end;
    try match goal with
        | |- context [ts.isIdentifier ?n] => destruct (ts.isIdentifier n)
        end;
    repeat match goal with
           | |- emits (match ?x with _ => _ end) _ => destruct x eqn:?
           | |- emits (if ?b then _ else _) _ => destruct b eqn:?
           end;
    try solve [emits_visit].
  - (* LocalizedString *)
    unfold visitLocalizedString.
    destruct (ts.ScriptTarget_ge scriptTarget ts.ES2015).
    + unfold createLocalizedStringTaggedTemplate. cbv zeta.
      destruct parts as [|p [|p' parts]].
      * change (Z.of_nat (List.length (@nil MessagePiece)) =? 1)
          with false.
        cbv iota.
        eapply emits_eq; [repeat emits_step|].
        now rewrite !flat_take_0.
      * change (Z.of_nat (List.length [p]) =? 1) with true. cbv iota.
        eapply emits_eq; [repeat emits_step|].
        simpl. now rewrite flat_take_0.
      * destruct (Z.eqb_spec (Z.of_nat (List.length (p :: p' :: parts))) 1)
          as [Hone|_]; [simpl in Hone; lia|].
        replace (Z.of_nat (List.length (p :: p' :: parts)) - 2)
          with (Z.of_nat (List.length parts)) by (simpl List.length; lia).
        eapply emits_eq; [repeat emits_step|].
        destruct (Z.ltb_spec (Z.of_nat (List.length parts)) 0); [lia|].
        rewrite Nat2Z.id.
        change (List.length (p :: p' :: parts) - 1)%nat
          with (S (List.length parts)).
        rewrite flat_take_S_r.
        now rewrite ?app_nil_r, ?app_nil_l.
    + unfold createLocalizedStringFunctionCall. cbv zeta.
      eapply emits_eq; [repeat emits_step|].
      replace (Z.to_nat (Z.of_nat (List.length parts) - 1))
        with (List.length parts - 1)%nat by lia.
      now rewrite ?app_nil_r, ?app_nil_l.
  - (* LiteralMapExpr *)
    eapply emits_eq;
      [apply emits_bind;
       [apply (emits_mapM (fun entry => calls (value entry)))
       |intros; apply emits_setSourceMapRange]
      |apply app_nil_r].
    eapply Forall_impl; [eassumption|]. cbv beta. intros entry He.
    unfold P_entry in He.
    eapply emits_eq;
      [apply emits_bind; [apply He | intros; apply emits_ret]
      |apply app_nil_r].
  - (* IfStmt *)
    unfold visitIfStmt. cbv zeta.
    destruct f as [|s f].
    + change (0 <? Z.of_nat (List.length (@nil Statement))) with false.
      cbv iota.
      eapply emits_eq; [repeat emits_step|].
      simpl. now rewrite ?app_nil_r, ?app_nil_l.
    + change (0 <? Z.of_nat (List.length (s :: f))) with true. cbv iota.
      eapply emits_eq; [repeat emits_step|].
      now rewrite ?app_nil_r, ?app_nil_l.
Qed.

(** X13. A translation that returns has asked the import manager and
    told the recorder exactly what its input calls for, in the order the
    translator reads the input: one named import for each external
    reference with a module name, one notification for each wrapped node
    that is an identifier, and, below ES2015, one import of the
    template-object helper of [tslib] for each localized string, after
    the calls of the expressions of that string.  Nothing else is asked
    or told; the only other entries of the log are the source-file
    descriptors created. *)
Theorem X13_calls_are_those_of_the_input :
  forall context this r this',
    (forall e,
        visitExpression e context this = (Ok r, this') ->
        exists new,
          effects this' = effects this ++ new /\ outside new = calls e) /\
    (forall s,
        visitStatement s context this = (Ok r, this') ->
        exists new,
          effects this' = effects this ++ new /\
          outside new = calls_stmt s).
Proof.
  intros context this r this'. split.
  - intros e H. exact (proj1 visit_emits e context _ _ _ H).
  - intros s H. exact (proj2 visit_emits s context _ _ _ H).
Qed.


(** ** Statements and their comments *)

(** X14. Every statement that is translated is the node built for it,
    which has no comments and no source-map range, with the leading
    comments of that very statement attached: the comments of a
    translated statement are its own and no others, of whatever kind the
    statement is, and a statement without leading comments is translated
    to a node without comments. *)
Theorem X14_statement_comments_are_its_own :
  forall s context this r this',
    visitStatement s context this = (Ok r, this') ->
    exists bare,
      r = attachComments bare (leadingComments (base_of s)) /\
      ts.leadingComments bare = [] /\
      ts.sourceMapRange bare = None /\
      ts.syntax bare = ts.syntax r /\
      (leadingComments (base_of s) = None -> ts.leadingComments r = []).
Proof.
  intros s context this r this' H.
  destruct s; unfold_visit H;
    try (destruct (ts.ScriptTarget_lt scriptTarget ts.ES2015));
    inv_M H;
    (eexists; split; [reflexivity|]);
    rewrite attachComments_syntax;
    repeat apply conj; try reflexivity;
    simpl; intros ->; reflexivity.
Qed.

End Translator.

(* ===================================================================== *)
(** * Runs on concrete inputs *)
(* ===================================================================== *)

(** Stand-ins for what the translator takes from elsewhere.  The import
    manager keeps the list of the modules it was asked for; it reports the
    module named "ambient" as needing no import and gives any other module
    an alias.  The serializers take a message part as it is. *)

Definition stub_generateNamedImport
    (imports : list string) (moduleName symbol : string)
    : NamedImport * list string :=
  if String.eqb moduleName "ambient"
  then ({| moduleImport := None; symbol := symbol |}, imports)
  else ({| moduleImport := Some (moduleName +:+ "_1"); symbol := symbol |},
        imports ++ [moduleName]).

Definition stub_messagePart (ast : Expression) (i : Z) : option MessagePiece :=
  match ast with
  | LocalizedString _ messageParts _ _ _ =>
      if i <? 0 then None else messageParts !! Z.to_nat i
  | _ => None
  end.

Definition stub_serializeI18nTemplatePart (ast : Expression) (i : Z)
    : CookedRawString :=
  match stub_messagePart ast i with
  | Some piece => {| cooked := piece_text piece; raw := piece_text piece |}
  | None => {| cooked := EmptyString; raw := EmptyString |}
  end.

Definition stub_serializeI18nHead (ast : Expression) : CookedRawString :=
  stub_serializeI18nTemplatePart ast 0.

Definition stub_getMessagePartSourceSpan (ast : Expression) (i : Z)
    : option ParseSourceSpan :=
  match stub_messagePart ast i with
  | Some piece => piece_sourceSpan piece
  | None => None
  end.

Definition stub_getPlaceholderSourceSpan (ast : Expression) (i : Z)
    : option ParseSourceSpan :=
  match ast with
  | LocalizedString _ _ placeHolderNames _ _ =>
      if i <? 0 then None
      else match placeHolderNames !! Z.to_nat i with
           | Some piece => piece_sourceSpan piece
           | None => None
           end
  | _ => None
  end.

Definition stub_ExternalReference_toString (r : ExternalReference) : string :=
  "[object Object]".

(** The translator with the stand-ins plugged in. *)
Definition run_visitExpression (scriptTarget : ts.ScriptTarget) :=
  visitExpression (list string) stub_generateNamedImport
    stub_serializeI18nHead stub_serializeI18nTemplatePart
    stub_getMessagePartSourceSpan stub_getPlaceholderSourceSpan
    stub_ExternalReference_toString
    scriptTarget.

Definition run_visitStatement (scriptTarget : ts.ScriptTarget) :=
  visitStatement (list string) stub_generateNamedImport
    stub_serializeI18nHead stub_serializeI18nTemplatePart
    stub_getMessagePartSourceSpan stub_getPlaceholderSourceSpan
    stub_ExternalReference_toString
    scriptTarget.

Definition run_translateExpression (scriptTarget : ts.ScriptTarget) :=
  translateExpression (list string) stub_generateNamedImport
    stub_serializeI18nHead stub_serializeI18nTemplatePart
    stub_getMessagePartSourceSpan stub_getPlaceholderSourceSpan
    stub_ExternalReference_toString
    scriptTarget.

Definition run_translateStatement (scriptTarget : ts.ScriptTarget) :=
  translateStatement (list string) stub_generateNamedImport
    stub_serializeI18nHead stub_serializeI18nTemplatePart
    stub_getMessagePartSourceSpan stub_getPlaceholderSourceSpan
    stub_ExternalReference_toString
    scriptTarget.

(** A fresh visitor whose import manager was asked for nothing yet. *)
Definition fresh : ExpressionTranslatorVisitor (list string) :=
  new_ExpressionTranslatorVisitor (list string) [].

Definition no_base : StatementBase :=
  {| modifiers := []; stmt_sourceSpan := None; leadingComments := None |}.


Definition number (n : Z) : Expression :=
  LiteralExpr (primitive (ts.PNumber n)) None.

Definition variable (x : string) : Expression :=
  ReadVarExpr (Some x) None.

(** [x = 1]. *)
Definition write_x : Expression := WriteVarExpr "x" (number 1) None.

(** [a ? b : c], and the same in the three positions of another
    conditional. *)
Definition a_b_c : Expression :=
  ConditionalExpr (variable "a") (variable "b") (Some (variable "c")) None.

Definition conditional_as_condition : Expression :=
  ConditionalExpr a_b_c (variable "d") (Some (variable "e")) None.

Definition conditional_as_branches : Expression :=
  ConditionalExpr (variable "d") a_b_c (Some a_b_c) None.

(** A span in a file with a URL. *)
Definition span_in_file : ParseSourceSpan :=
  let file := {| content := "let x;"; url := "a.ts" |} in
  {| start := {| file := file; offset := 4 |};
     end_ := {| file := file; offset := 5 |} |}.



(** A localized string with two expressions and three message parts. *)
Definition hello_a_b : Expression :=
  LocalizedString
    {| customId := None; meaning := None; description := None;
       legacyIds := [] |}
    [ {| piece_text := "Hello "; piece_sourceSpan := None |};
      {| piece_text := " and "; piece_sourceSpan := None |};
      {| piece_text := "!"; piece_sourceSpan := None |} ]
    [ {| piece_text := "A"; piece_sourceSpan := None |};
      {| piece_text := "B"; piece_sourceSpan := None |} ]
    [ variable "a"; variable "b" ]
    None.

(** The nodes the translator is expected to build for them. *)
Definition identifier (x : string) : ts.Node :=
  ts.createIdentifier x.

Definition out_one : ts.Node := ts.createLiteral (ts.PNumber 1).

Definition out_write_x : ts.Node :=
  ts.createBinary (identifier "x") ts.EqualsToken out_one.

Definition out_a_b_c : ts.Node :=
  ts.createConditional (identifier "a") (identifier "b") (identifier "c").

Definition out_conditional_as_condition : ts.Node :=
  ts.createConditional (ts.createParen out_a_b_c)
                       (identifier "d") (identifier "e").

Definition out_conditional_as_branches : ts.Node :=
  ts.createConditional (identifier "d") out_a_b_c out_a_b_c.

Definition out_hello_modern : ts.Node :=
  ts.createTaggedTemplate
    (identifier "$localize")
    (ts.createTemplateExpression
       (ts.createTemplateHead "Hello " "Hello ")
       [ ts.createTemplateSpan
           (identifier "a")
           (ts.createSynthesizedNode (ts.TemplateMiddle " and " " and "));
         ts.createTemplateSpan
           (identifier "b")
           (ts.createSynthesizedNode (ts.TemplateTail "!" "!")) ]).

Definition out_hello_legacy : ts.Node :=
  ts.createCall
    (identifier "$localize")
    [ ts.createCall
        (ts.createPropertyAccess (identifier "tslib_1")
                                 (inr (identifier "__makeTemplateObject")))
        [ ts.createArrayLiteral
            [ ts.createStringLiteral "Hello ";
              ts.createStringLiteral " and ";
              ts.createStringLiteral "!" ];
          ts.createArrayLiteral
            [ ts.createStringLiteral "Hello ";
              ts.createStringLiteral " and ";
              ts.createStringLiteral "!" ] ];
      identifier "a"; identifier "b" ].

(** The visitor after the legacy lowering asked for the template helper. *)
Definition asked_tslib : ExpressionTranslatorVisitor (list string) :=
  {| imports := ["tslib"]; externalSourceFiles := ∅;
     effects := [GenerateNamedImport "tslib" "__makeTemplateObject"] |}.

(** [(a ? b : c) + d] and [d + (a ? b : c)]. *)
Definition conditional_plus_d : Expression :=
  BinaryOperatorExpr BinaryOperator.Plus a_b_c (variable "d") None.

Definition d_plus_conditional : Expression :=
  BinaryOperatorExpr BinaryOperator.Plus (variable "d") a_b_c None.

Definition out_conditional_plus_d : ts.Node :=
  ts.createSynthesizedNode
    (ts.BinaryExpression (ts.createParen out_a_b_c) ts.PlusToken
                         (identifier "d")).

Definition out_d_plus_conditional : ts.Node :=
  ts.createSynthesizedNode
    (ts.BinaryExpression (identifier "d") ts.PlusToken
                         (ts.createParen out_a_b_c)).

(** The translation of [(a ? b : c) + d] holds the conditional, which is
    not the condition of anything, in parentheses. *)
Lemma C1_counterexample :
  exists r lhs rhs,
    fst (run_translateExpression ts.ES2015 conditional_plus_d [])
    = Ok r /\
    ts.syntax r = ts.BinaryExpression lhs ts.PlusToken rhs /\
    ts.syntax lhs = ts.ParenthesizedExpression out_a_b_c /\
    isConditionalExpression out_a_b_c = true /\
    ts.isParenthesizedExpression lhs = true.
Proof.
  exists out_conditional_plus_d, (ts.createParen out_a_b_c), (identifier "d").
  repeat split; reflexivity.
Defined.

(** C1 on [(a ? b : c) ? d : e], on [d ? a ? b : c : a ? b : c], and on
    [(a ? b : c) + d] and [d + (a ? b : c)]: the inner conditional is in
    parentheses as a condition and as an operand, and not as a branch. *)
Lemma C1_witness :
  (exists condition whenTrue whenFalse,
      ts.syntax out_conditional_as_condition
      = ts.ConditionalExpression condition whenTrue whenFalse /\
      ts.syntax condition = ts.ParenthesizedExpression out_a_b_c)
  /\
  (exists t f,
      ts.syntax out_conditional_as_branches
      = ts.ConditionalExpression (identifier "d") t f /\
      isConditionalExpression t = true /\
      isConditionalExpression f = true)
  /\
  (exists token lhs rhs,
      ts.syntax out_conditional_plus_d = ts.BinaryExpression lhs token rhs /\
      ts.syntax lhs = ts.ParenthesizedExpression out_a_b_c)
  /\
  (exists token lhs rhs,
      ts.syntax out_d_plus_conditional = ts.BinaryExpression lhs token rhs /\
      ts.syntax rhs = ts.ParenthesizedExpression out_a_b_c).
Proof.
  pose (C1 := C1_conditional_parentheses
                (list string) stub_generateNamedImport
                stub_serializeI18nHead stub_serializeI18nTemplatePart
                stub_getMessagePartSourceSpan stub_getPlaceholderSourceSpan
                stub_ExternalReference_toString
                ts.ES2015).
  split; [|split; [|split]].
  - destruct (proj1 C1 (variable "a") (variable "b") (Some (variable "c"))
                None (variable "d") (Some (variable "e")) None
                (new_Context false) fresh out_conditional_as_condition fresh
                eq_refl)
      as (inner & this1 & condition & whenTrue & whenFalse & Hinner & _ & Hr
          & Hc).
    injection Hinner as <- _.
    exists condition, whenTrue, whenFalse. split; [exact Hr | exact Hc].
  - destruct (proj1 (proj2 C1) (variable "d") a_b_c (Some a_b_c) None
                (new_Context false) fresh out_conditional_as_branches fresh
                eq_refl)
      as (c & this1 & t & this2 & falseCase' & f & head & Hc & _ & Hfalse
          & _ & Hr & Hhead & Ht & Hf).
    injection Hc as <- _. injection Hfalse as <-.
    exists t, f. split.
    + rewrite Hr. rewrite (Hhead ltac:(reflexivity) eq_refl). reflexivity.
    + split; [eapply Ht | eapply Hf]; reflexivity.
  - destruct (proj1 (proj2 (proj2 C1) BinaryOperator.Plus
                       (variable "a") (variable "b") (Some (variable "c"))
                       None (variable "d") None (new_Context false) fresh
                       out_conditional_plus_d fresh)
                eq_refl)
      as (inner & this1 & token & lhs & rhs & Hinner & _ & Hr & Hl).
    injection Hinner as <- _.
    exists token, lhs, rhs. split; [exact Hr | exact Hl].
  - destruct (proj2 (proj2 (proj2 C1) BinaryOperator.Plus
                       (variable "a") (variable "b") (Some (variable "c"))
                       None (variable "d") None (new_Context false) fresh
                       out_d_plus_conditional fresh)
                eq_refl)
      as (inner & this1 & token & lhs & rhs & Hinner & _ & Hr & Hl).
    assert (inner = out_a_b_c) as ->.
    { clear -Hinner.
      assert (this1 = fresh) as ->; [|now injection Hinner as <-].
      vm_compute in Hinner. destruct this1. now inversion Hinner. }
    exists token, lhs, rhs. split; [exact Hr | exact Hl].
Defined.

(** [o[k] = 1]. *)
Definition write_o_k : Expression :=
  WriteKeyExpr (variable "o") (variable "k") (number 1) None.

Definition out_write_o_k : ts.Node :=
  ts.createSynthesizedNode
    (ts.BinaryExpression
       (ts.createSynthesizedNode
          (ts.ElementAccessExpression (identifier "o") (identifier "k")))
       ts.EqualsToken out_one).

Definition out_write_o_p : ts.Node :=
  ts.createSynthesizedNode
    (ts.BinaryExpression
       (ts.createSynthesizedNode
          (ts.PropertyAccessExpression (identifier "o") (identifier "p")))
       ts.EqualsToken out_one).

(** C2 on [x = 1] and on [o[k] = 1], each in expression mode and in
    statement mode, and on [o.p = 1] in expression mode. *)
Lemma C2_witness :
  (exists assignment,
      ts.syntax (ts.createParen out_write_x)
      = ts.ParenthesizedExpression assignment /\
      ts.syntax assignment
      = ts.BinaryExpression (identifier "x") ts.EqualsToken out_one)
  /\
  (exists assignment,
      out_write_x = assignment /\
      ts.isParenthesizedExpression out_write_x = false /\
      ts.syntax assignment
      = ts.BinaryExpression (identifier "x") ts.EqualsToken out_one)
  /\
  (exists assignment object,
      ts.syntax (ts.createParen out_write_o_k)
      = ts.ParenthesizedExpression assignment /\
      ts.syntax assignment
      = ts.BinaryExpression object ts.EqualsToken out_one /\
      ts.syntax object
      = ts.ElementAccessExpression (identifier "o") (identifier "k"))
  /\
  (exists assignment object,
      out_write_o_k = assignment /\
      ts.isParenthesizedExpression out_write_o_k = false /\
      ts.syntax assignment
      = ts.BinaryExpression object ts.EqualsToken out_one /\
      ts.syntax object
      = ts.ElementAccessExpression (identifier "o") (identifier "k"))
  /\
  (exists object,
      ts.syntax out_write_o_p
      = ts.BinaryExpression object ts.EqualsToken out_one /\
      ts.syntax object
      = ts.PropertyAccessExpression (identifier "o") (identifier "p") /\
      ts.isParenthesizedExpression out_write_o_p = false).
Proof.
  pose (C2 := C2_write_parentheses_follow_context
                (list string) stub_generateNamedImport
                stub_serializeI18nHead stub_serializeI18nTemplatePart
                stub_getMessagePartSourceSpan stub_getPlaceholderSourceSpan
                stub_ExternalReference_toString
                ts.ES2015).
  split; [|split; [|split; [|split]]].
  - destruct (proj1 (C2 (new_Context false) fresh
                        (ts.createParen out_write_x) fresh)
                "x" (number 1) None eq_refl)
      as (v & assignment & lhs & Hv & (rhs & Ha & Hrhs & _) & Hlhs & _
          & Hexpr).
    injection Hv as <-.
    exists assignment. split; [exact (Hexpr eq_refl)|].
    rewrite Ha, (Hrhs ltac:(vm_compute; discriminate)).
    specialize (Hexpr eq_refl). injection Hexpr as <-.
    injection Ha as <- _. reflexivity.
  - destruct (proj1 (C2 (new_Context true) fresh out_write_x fresh)
                "x" (number 1) None eq_refl)
      as (v & assignment & lhs & Hv & (rhs & Ha & Hrhs & _) & Hlhs & Hstmt
          & _).
    injection Hv as <-.
    destruct (Hstmt eq_refl) as [Hr Hp].
    exists assignment. split; [exact Hr|]. split; [exact Hp|].
    subst assignment. injection Ha as <- _.
    reflexivity.
  - destruct (proj1 (proj2 (C2 (new_Context false) fresh
                               (ts.createParen out_write_o_k) fresh))
                (variable "o") (variable "k") (number 1) None eq_refl)
      as (rcv & idx & v & this1 & this2 & assignment & lhs & object & Hrcv
          & Hidx & Hv & (rhs & Ha & Hrhs & _) & Hlhs & Hobject & _ & Hexpr).
    injection Hrcv as <- <-. injection Hidx as <- <-. injection Hv as <-.
    specialize (Hexpr eq_refl). injection Hexpr as <-.
    injection Ha as <- _.
    exists out_write_o_k, (ts.createElementAccess (identifier "o")
                                                  (identifier "k")).
    split; [reflexivity|]. split; reflexivity.
  - destruct (proj1 (proj2 (C2 (new_Context true) fresh out_write_o_k
                               fresh))
                (variable "o") (variable "k") (number 1) None eq_refl)
      as (rcv & idx & v & this1 & this2 & assignment & lhs & object & Hrcv
          & Hidx & Hv & (rhs & Ha & Hrhs & _) & Hlhs & Hobject & Hstmt & _).
    injection Hrcv as <- <-. injection Hidx as <- <-. injection Hv as <-.
    destruct (Hstmt eq_refl) as [Hr Hp].
    exists assignment, lhs.
    split; [exact Hr|]. split; [exact Hp|].
    split.
    + rewrite Ha, (Hrhs ltac:(vm_compute; discriminate)). reflexivity.
    + rewrite Hlhs, (proj1 Hobject eq_refl). reflexivity.
  - destruct (proj2 (proj2 (C2 (new_Context false) fresh out_write_o_p
                               fresh))
                (variable "o") "p" (number 1) None eq_refl)
      as (rcv & v & this1 & lhs & object & property & Hrcv & Hv
          & (rhs & Ha & Hrhs & _) & Hlhs & Hproperty & Hobject & Hp).
    injection Hrcv as <- <-. injection Hv as <-.
    injection Ha as <- _.
    exists (ts.createPropertyAccess (identifier "o") (inl "p")).
    split; [reflexivity|]. split; [reflexivity | exact Hp].
Defined.

(** C3 on a localized string with two expressions: the two lowerings hold
    the same three literal pieces and two spliced expressions each. *)
Lemma C3_witness :
  template_texts out_hello_modern = call_texts out_hello_legacy
  /\ List.length (template_expressions out_hello_modern) = 2%nat
  /\ List.length (call_expressions out_hello_legacy) = 2%nat
  /\ Forall2 (translates (list string) stub_generateNamedImport
                stub_serializeI18nHead stub_serializeI18nTemplatePart
                stub_getMessagePartSourceSpan stub_getPlaceholderSourceSpan
                stub_ExternalReference_toString
                ts.ES2015 (new_Context false))
             [variable "a"; variable "b"]
             (template_expressions out_hello_modern).
Proof.
  pose (C3 := fun target =>
          C3_localized_string_lowerings
            (list string) stub_generateNamedImport
            stub_serializeI18nHead stub_serializeI18nTemplatePart
            stub_getMessagePartSourceSpan stub_getPlaceholderSourceSpan
            stub_ExternalReference_toString
            target
            {| customId := None; meaning := None; description := None;
               legacyIds := [] |}
            [ {| piece_text := "Hello "; piece_sourceSpan := None |};
              {| piece_text := " and "; piece_sourceSpan := None |};
              {| piece_text := "!"; piece_sourceSpan := None |} ]
            [ {| piece_text := "A"; piece_sourceSpan := None |};
              {| piece_text := "B"; piece_sourceSpan := None |} ]
            [ variable "a"; variable "b" ]
            None (new_Context false) eq_refl).
  destruct (proj1 (C3 ts.ES2015) fresh out_hello_modern fresh eq_refl)
    as (Hmodern & Hk & Hes).
  destruct (proj1 (proj2 (C3 ts.ES5)) fresh out_hello_legacy asked_tslib
              eq_refl)
    as (Hlegacy & Hk' & _).
  split; [|split; [|split]].
  - rewrite Hmodern, Hlegacy. reflexivity.
  - exact Hk.
  - exact Hk'.
  - exact Hes.
Defined.

(** [{a: 1}]. *)
Definition map_a_1 : Expression :=
  LiteralMapExpr [ {| key := "a"; value := number 1; quoted := false |} ]
                 None.

Definition out_map_a_1 : ts.Node :=
  ts.createObjectLiteral
    [ts.createPropertyAssignment (identifier "a") out_one].

(** The expression statement [x = 1;] holds the bare assignment, while a
    visit of [x = 1] in expression mode returns it in parentheses: the
    expression of an expression statement is not visited in expression
    mode.  And the expression statement of [{a: 1}] holds the object
    literal in parentheses, [({a: 1});]: not every statement holds its
    translated expression with nothing around it. *)
Lemma C4_counterexample :
  (exists r e,
      fst (run_translateStatement ts.ES2015
             (ExpressionStatement write_x no_base) [])
      = Ok r /\
      fst (run_visitExpression ts.ES2015 write_x
             (withExpressionMode (new_Context true)) fresh)
      = Ok e /\
      ts.syntax r = ts.ExpressionStatement out_write_x /\
      ts.syntax e = ts.ParenthesizedExpression out_write_x /\
      ts.syntax r <> ts.ExpressionStatement e)
  /\
  (exists r e held,
      fst (run_visitExpression ts.ES2015 map_a_1
             (withStatementMode (new_Context true)) fresh)
      = Ok e /\
      fst (run_translateStatement ts.ES2015
             (ExpressionStatement map_a_1 no_base) [])
      = Ok r /\
      ts.syntax r = ts.ExpressionStatement held /\
      ts.syntax held = ts.ParenthesizedExpression e /\
      ts.isParenthesizedExpression e = false).
Proof.
  split.
  - exists (ts.createStatement out_write_x), (ts.createParen out_write_x).
    repeat apply conj; try reflexivity.
    simpl. intros H. inversion H.
  - exists (ts.createStatement out_map_a_1), out_map_a_1,
      (ts.createParen out_map_a_1).
    repeat apply conj; reflexivity.
Defined.

(** C4 on [return (x = 1);], on [throw (x = 1);], on [x = 1;] and on
    [({a: 1});]. *)
Lemma C4_witness :
  (exists e,
      ts.syntax e = ts.ParenthesizedExpression out_write_x /\
      ts.syntax (ts.createReturn (ts.createParen out_write_x))
      = ts.ReturnStatement e)
  /\
  (exists e,
      ts.syntax e = ts.ParenthesizedExpression out_write_x /\
      ts.syntax (ts.createThrow (ts.createParen out_write_x))
      = ts.ThrowStatement e)
  /\
  ts.syntax (ts.createStatement out_write_x)
  = ts.ExpressionStatement out_write_x
  /\
  (exists held,
      ts.syntax (ts.createStatement out_map_a_1)
      = ts.ExpressionStatement held /\
      ts.syntax held = ts.ParenthesizedExpression out_map_a_1).
Proof.
  pose (C4 := C4_statement_holds_translated_expression
                (list string) stub_generateNamedImport
                stub_serializeI18nHead stub_serializeI18nTemplatePart
                stub_getMessagePartSourceSpan stub_getPlaceholderSourceSpan
                stub_ExternalReference_toString
                ts.ES2015 (new_Context true) fresh).
  split; [|split; [|split]].
  - destruct (proj1 (proj1 (C4 (ts.createReturn (ts.createParen out_write_x))
                               fresh)
                       write_x no_base) eq_refl)
      as (e & He & _ & Hr).
    exists e. split; [|exact Hr]. now injection He as <-.
  - destruct (proj1 (proj1 (proj2 (C4 (ts.createThrow
                                         (ts.createParen out_write_x))
                                      fresh))
                       write_x no_base) eq_refl)
      as (e & He & _ & Hr).
    exists e. split; [|exact Hr]. now injection He as <-.
  - destruct (proj1 (proj2 (proj2 (C4 (ts.createStatement out_write_x)
                                      fresh))
                       write_x no_base) eq_refl)
      as (e & held & He & _ & Hr & Hsame & _).
    injection He as <-. rewrite Hr. now rewrite (Hsame eq_refl).
  - destruct (proj1 (proj2 (proj2 (C4 (ts.createStatement out_map_a_1)
                                      fresh))
                       map_a_1 no_base) eq_refl)
      as (e & held & He & _ & Hr & _ & Hparen & _).
    injection He as <-. exists held.
    split; [exact Hr | exact (Hparen eq_refl eq_refl)].
Defined.


(** C6 on the symbol [s] of module [m], of module [ambient] and of no
    module, and on a reference without a symbol name. *)
Lemma C6_witness :
  (exists r object property,
      run_visitExpression ts.ES2015
        (ExternalExpr {| moduleName := Some "m"; name := Some "s" |} None)
        (new_Context false) fresh
      = (Ok r,
         {| imports := ["m"]; externalSourceFiles := ∅;
            effects := [GenerateNamedImport "m" "s"] |}) /\
      ts.syntax r = ts.PropertyAccessExpression object property /\
      ts.syntax object = ts.Identifier "m_1" /\
      ts.syntax property = ts.Identifier "s")
  /\
  (exists r,
      run_visitExpression ts.ES2015
        (ExternalExpr {| moduleName := Some "ambient"; name := Some "s" |}
                      None)
        (new_Context false) fresh
      = (Ok r,
         {| imports := []; externalSourceFiles := ∅;
            effects := [GenerateNamedImport "ambient" "s"] |}) /\
      ts.syntax r = ts.Identifier "s")
  /\
  (exists r,
      run_visitExpression ts.ES2015
        (ExternalExpr {| moduleName := None; name := Some "s" |} None)
        (new_Context false) fresh
      = (Ok r, fresh) /\
      ts.syntax r = ts.Identifier "s")
  /\
  (exists message,
      run_visitExpression ts.ES2015
        (ExternalExpr {| moduleName := Some "m"; name := None |} None)
        (new_Context false) fresh
      = (Throw (Error_ message), fresh)).
Proof.
  pose (C6 := fun value =>
          C6_external_reference_resolution
            (list string) stub_generateNamedImport
            stub_serializeI18nHead stub_serializeI18nTemplatePart
            stub_getMessagePartSourceSpan stub_getPlaceholderSourceSpan
            stub_ExternalReference_toString
            ts.ES2015 value None (new_Context false) fresh).
  split; [|split; [|split]].
  - destruct (proj1 (proj1 (C6 {| moduleName := Some "m";
                                  name := Some "s" |})
                          "s" eq_refl)
                "m" eq_refl)
      as (r & Hr & object & property & Hs & Ho & Hp).
    exists r, object, property.
    split; [exact Hr|]. split; [exact Hs|]. split; [exact Ho | exact Hp].
  - destruct (proj1 (proj1 (C6 {| moduleName := Some "ambient";
                                  name := Some "s" |})
                          "s" eq_refl)
                "ambient" eq_refl)
      as (r & Hr & Hs).
    exists r. split; [exact Hr | exact Hs].
  - exact (proj2 (proj1 (C6 {| moduleName := None; name := Some "s" |})
                        "s" eq_refl)
             eq_refl).
  - exact (proj2 (C6 {| moduleName := Some "m"; name := None |}) eq_refl).
Defined.

(** C7 on operators that have no entry in the tables. *)
Lemma C7_witness :
  run_visitExpression ts.ES2015
    (UnaryOperatorExpr (UnaryOperator.Unlisted "BitwiseNot") (variable "x")
                       None)
    (new_Context false) fresh
  = (Throw (Error_ "Unknown unary operator: BitwiseNot"), fresh)
  /\
  run_visitExpression ts.ES2015
    (BinaryOperatorExpr (BinaryOperator.Unlisted "NullishCoalesce")
                        (variable "x") (variable "y") None)
    (new_Context false) fresh
  = (Throw (Error_ "Unknown binary operator: NullishCoalesce"), fresh).
Proof.
  pose (C7 := C7_unsupported_shapes_throw
                (list string) stub_generateNamedImport
                stub_serializeI18nHead stub_serializeI18nTemplatePart
                stub_getMessagePartSourceSpan stub_getPlaceholderSourceSpan
                stub_ExternalReference_toString
                ts.ES2015 (new_Context false) fresh).
  split.
  - exact (proj1 (proj2 (proj2 (proj2 C7)))
             (UnaryOperator.Unlisted "BitwiseNot") (variable "x") None
             eq_refl).
  - exact (proj2 (proj2 (proj2 (proj2 C7)))
             (BinaryOperator.Unlisted "NullishCoalesce")
             (variable "x") (variable "y") None eq_refl).
Defined.

(** The block comment [note] of the class [LeadingComment] and the line
    comment of the two lines [a] and [b]. *)
Definition block_note : LeadingComment := new_LeadingComment "note" true false.

Definition lines_a_b : LeadingComment :=
  new_LeadingComment ("a" +:+ String LF "b") false true.

(** The block comment whose text is [note] is attached with the text
    [ note ], a space on either side: not with its exact text. *)
Lemma C8_counterexample :
  exists unit,
    ts.leadingComments
      (attachComments (ts.createReturn out_one) (Some [block_note]))
    = [unit] /\
    ts.kind unit = ts.MultiLineCommentTrivia /\
    text block_note = "note" /\
    ts.comment_text unit = " note " /\
    ts.comment_text unit <> text block_note.
Proof.
  eexists. split; [reflexivity|]. split; [reflexivity|].
  split; [reflexivity|]. split; [reflexivity|].
  simpl. discriminate.
Defined.

(** C8 on a statement under the block comment [note] and the line
    comment of two lines: one unit and then two. *)
Lemma C8_witness :
  exists block first second,
    ts.leadingComments
      (attachComments (ts.createReturn out_one)
                      (Some [block_note; lines_a_b]))
    = [block; first; second] /\
    ts.comment_text block = " note " /\
    ts.kind block = ts.MultiLineCommentTrivia /\
    String_join LF [ts.comment_text first; ts.comment_text second]
    = text lines_a_b /\
    ts.hasTrailingNewLine first = true /\
    ts.hasTrailingNewLine second = true.
Proof.
  destruct (C8_comment_units (ts.createReturn out_one)
                             [block_note; lines_a_b])
    as (groups & Hcomments & Hgroups).
  inversion Hgroups as [|c g cs gs Hblock Hrest]; subst.
  inversion Hrest as [|c' g' cs' gs' Hlines Hnil]; subst.
  inversion Hnil; subst.
  cbn [multiline block_note lines_a_b new_LeadingComment] in Hblock, Hlines.
  destruct Hblock as [_ Hblock].
  specialize (Hblock "note" false eq_refl). subst g.
  destruct Hlines as (Hlen & Hunits & Hjoin).
  destruct g' as [|first [|second [|third g']]]; try discriminate Hlen.
  exists {| ts.kind := ts.MultiLineCommentTrivia;
            ts.comment_text := " note ";
            ts.hasTrailingNewLine := false |}, first, second.
  split; [exact Hcomments|]. split; [reflexivity|]. split; [reflexivity|].
  split; [exact Hjoin|].
  inversion Hunits as [|u us [_ H1] Hus]; subst.
  inversion Hus as [|u' us' [_ H2] _]; subst.
  split; [exact H1 | exact H2].
Defined.




(** C10 on [x = 1] handed to [translateExpression], and on [x = 1;]
    handed to [translateStatement]. *)
Lemma C10_witness :
  (exists assignment,
      ts.syntax (ts.createParen out_write_x)
      = ts.ParenthesizedExpression assignment /\
      ts.syntax assignment
      = ts.BinaryExpression (identifier "x") ts.EqualsToken out_one)
  /\
  (exists assignment,
      ts.syntax (ts.createStatement out_write_x)
      = ts.ExpressionStatement assignment /\
      ts.syntax assignment
      = ts.BinaryExpression (identifier "x") ts.EqualsToken out_one).
Proof.
  pose (C10 := C10_entry_points_and_write_variable
                 (list string) stub_generateNamedImport
                 stub_serializeI18nHead stub_serializeI18nTemplatePart
                 stub_getMessagePartSourceSpan stub_getPlaceholderSourceSpan
                 stub_ExternalReference_toString
                 ts.ES2015 "x" (number 1) None []).
  split.
  - destruct (proj1 (C10 (ts.createParen out_write_x) fresh) eq_refl)
      as (v & assignment & lhs & Hv & Hr & (rhs & Ha & Hrhs & _) & Hlhs).
    injection Hv as <-. exists assignment. split; [exact Hr|].
    rewrite Ha, (Hrhs ltac:(vm_compute; discriminate)).
    injection Hr as <-. injection Ha as <- _. reflexivity.
  - destruct (proj2 (C10 (ts.createStatement out_write_x) fresh) no_base
                eq_refl)
      as (v & assignment & lhs & Hv & Hr & (rhs & Ha & Hrhs & _) & Hlhs).
    injection Hv as <-. exists assignment. split; [exact Hr|].
    rewrite Ha, (Hrhs ltac:(vm_compute; discriminate)).
    injection Hr as <-. injection Ha as <- _. reflexivity.
Defined.

(* ===================================================================== *)
(** * Runs of the further properties *)
(* ===================================================================== *)

(** [a && b] and [c && d]. *)
Definition a_and_b : Expression :=
  BinaryOperatorExpr BinaryOperator.And (variable "a") (variable "b") None.

Definition c_and_d : Expression :=
  BinaryOperatorExpr BinaryOperator.And (variable "c") (variable "d") None.

(** [-x] twice. *)
Definition minus_x : Expression :=
  UnaryOperatorExpr UnaryOperator.Minus (variable "x") None.

(** X1 on [a && b] and [c && d], and on [-x]. *)
Lemma X1_witness :
  (exists r r',
      run_visitExpression ts.ES2015 a_and_b (new_Context false) fresh
      = (Ok r, fresh) /\
      run_visitExpression ts.ES2015 c_and_d (new_Context true) fresh
      = (Ok r', fresh) /\
      operator_token r = operator_token r' /\
      BinaryOperator.And = BinaryOperator.And)
  /\ UnaryOperator.Minus = UnaryOperator.Minus.
Proof.
  pose (X1 := X1_operator_token_determines_operator
                (list string) stub_generateNamedImport
                stub_serializeI18nHead stub_serializeI18nTemplatePart
                stub_getMessagePartSourceSpan stub_getPlaceholderSourceSpan
                stub_ExternalReference_toString
                ts.ES2015).
  split.
  - eexists _, _. split; [reflexivity|]. split; [reflexivity|].
    split; [reflexivity|].
    exact (proj1 X1 BinaryOperator.And (variable "a") (variable "b") None
             (new_Context false) fresh _ fresh
             BinaryOperator.And (variable "c") (variable "d") None
             (new_Context true) fresh _ fresh
             eq_refl eq_refl eq_refl).
  - exact (proj2 X1 UnaryOperator.Minus (variable "x") None
             (new_Context false) fresh _ fresh
             UnaryOperator.Minus (variable "x") None
             (new_Context true) fresh _ fresh
             eq_refl eq_refl eq_refl).
Defined.

(** The same file as [span_in_file] seen with another content. *)
Definition span_in_changed_file : ParseSourceSpan :=
  let file := {| content := "let y;"; url := "a.ts" |} in
  {| start := {| file := file; offset := 0 |};
     end_ := {| file := file; offset := 3 |} |}.

(** X2 on a fresh visitor: the first span of [a.ts] creates the
    descriptor, and a later span of [a.ts] with another content gets the
    descriptor of the first. *)
Lemma X2_witness :
  truthy (url (file (start span_in_file))) = true /\
  exists this',
    setSourceMapRange (list string) (identifier "x") (Some span_in_file)
                      fresh
    = (Ok (ts.setSourceMapRange (identifier "x")
             {| ts.pos := 4; ts.end_ := 5;
                ts.source :=
                  Some (ts.createSourceMapSource "a.ts" "let x;") |}),
       this') /\
    setSourceMapRange (list string) (identifier "y")
                      (Some span_in_changed_file) this'
    = (Ok (ts.setSourceMapRange (identifier "y")
             {| ts.pos := 0; ts.end_ := 3;
                ts.source :=
                  Some (ts.createSourceMapSource "a.ts" "let x;") |}),
       this').
Proof.
  split; [reflexivity|].
  destruct (proj2 (X2_setSourceMapRange_hit_and_miss
                     (list string) (identifier "x") span_in_file fresh
                     eq_refl) eq_refl) as [Hmiss Hlater].
  eexists. split; [exact Hmiss|].
  exact (Hlater (identifier "y") span_in_changed_file eq_refl).
Defined.

(** [(<any>(a ? b : c)) ? d : e]. *)
Definition cast_conditional_as_condition : Expression :=
  ConditionalExpr (CastExpr a_b_c None) (variable "d")
                  (Some (variable "e")) None.

(** X4 on [(<any>(a ? b : c)) ? d : e]: the output is
    [(a ? b : c) ? d : e], the one of the conditional without the cast. *)
Lemma X4_witness :
  exists r c condition t f,
    run_visitExpression ts.ES2015 cast_conditional_as_condition
                        (new_Context false) fresh
    = (Ok r, fresh) /\
    run_visitExpression ts.ES2015 conditional_as_condition
                        (new_Context false) fresh
    = (Ok r, fresh) /\
    isConditionalExpression c = true /\
    ts.syntax r = ts.ConditionalExpression condition t f /\
    ts.syntax condition = ts.ParenthesizedExpression c.
Proof.
  destruct (proj2 (proj2 (X4_cast_is_transparent_in_condition
                            (list string) stub_generateNamedImport
                            stub_serializeI18nHead
                            stub_serializeI18nTemplatePart
                            stub_getMessagePartSourceSpan
                            stub_getPlaceholderSourceSpan
                            stub_ExternalReference_toString ts.ES2015))
              (CastExpr a_b_c None) a_b_c (variable "d")
              (Some (variable "e")) None (new_Context false) fresh
              out_conditional_as_condition fresh eq_refl
              (ex_intro _ None (or_introl eq_refl)) eq_refl)
    as (c & this1 & condition & t & f & _ & Hc & Hr & Hcond).
  exists out_conditional_as_condition, c, condition, t, f.
  split; [reflexivity|]. split; [reflexivity|].
  split; [exact Hc|]. split; [exact Hr | exact Hcond].
Defined.

(** [f(1, x)] marked pure, and [(a ? b : c)()]. *)
Definition pure_call : Expression :=
  InvokeFunctionExpr (variable "f") [number 1; variable "x"] true None.

Definition call_of_conditional : Expression :=
  InvokeFunctionExpr a_b_c [] false None.

(** X5 on a pure call of [f] with two arguments, whose callee is the
    identifier itself, and on a call of a conditional, whose callee is the
    conditional in parentheses. *)
Lemma X5_witness :
  (exists r arguments,
      run_visitExpression ts.ES2015 pure_call (new_Context false) fresh
      = (Ok r, fresh) /\
      ts.syntax r = ts.CallExpression (identifier "f") arguments /\
      List.length arguments = 2%nat /\
      ts.leadingComments r = [PURE])
  /\
  (exists r held,
      run_visitExpression ts.ES2015 call_of_conditional (new_Context false)
                          fresh
      = (Ok r, fresh) /\
      ts.syntax r = ts.CallExpression held [] /\
      ts.syntax held = ts.ParenthesizedExpression out_a_b_c).
Proof.
  pose (X5 := X5_calls_keep_callee_and_arguments
                (list string) stub_generateNamedImport
                stub_serializeI18nHead stub_serializeI18nTemplatePart
                stub_getMessagePartSourceSpan stub_getPlaceholderSourceSpan
                stub_ExternalReference_toString ts.ES2015
                (new_Context false) fresh).
  split.
  - destruct (proj1 (X5 _ fresh)
                (variable "f") [number 1; variable "x"] true None eq_refl)
      as (callee & this1 & arguments & held & Hcallee & Hargs & Hsyntax
          & Hheld & Hcomments).
    injection Hcallee as <- _.
    rewrite (proj1 Hheld eq_refl) in Hsyntax.
    eexists _, arguments. split; [reflexivity|].
    split; [exact Hsyntax|]. split; [|exact Hcomments].
    symmetry. exact (Forall2_length _ _ _ Hargs).
  - destruct (proj1 (X5 _ fresh) a_b_c [] false None eq_refl)
      as (callee & this1 & arguments & held & Hcallee & Hargs & Hsyntax
          & Hheld & _).
    injection Hcallee as <- _.
    inversion Hargs; subst.
    eexists _, held. split; [reflexivity|].
    split; [exact Hsyntax | exact (proj2 Hheld eq_refl)].
Defined.









(** X9 on [a ? b : c] and on [return x = 1;]: the same run in statement
    mode and in expression mode. *)
Lemma X9_witness :
  run_visitExpression ts.ES2015 a_b_c (new_Context true) fresh
  = run_visitExpression ts.ES2015 a_b_c (new_Context false) fresh
  /\
  run_visitStatement ts.ES2015 (ReturnStatement write_x no_base)
                     (new_Context true) fresh
  = run_visitStatement ts.ES2015 (ReturnStatement write_x no_base)
                       (new_Context false) fresh.
Proof.
  pose (X9 := X9_context_reaches_only_writes
                (list string) stub_generateNamedImport
                stub_serializeI18nHead stub_serializeI18nTemplatePart
                stub_getMessagePartSourceSpan stub_getPlaceholderSourceSpan
                stub_ExternalReference_toString
                ts.ES2015).
  split.
  - exact (proj1 X9 a_b_c (new_Context true) (new_Context false) fresh
             eq_refl).
  - exact (proj2 X9 (ReturnStatement write_x no_base)
             (new_Context true) (new_Context false) fresh eq_refl).
Defined.

(** [a ? b] with no false case, inside a call. *)
Definition call_of_half_conditional : Expression :=
  InvokeFunctionExpr
    (variable "f")
    [ConditionalExpr (variable "a") (variable "b") None None]
    false None.

(** X11 on [a ? b : c] and on the localized string with two expressions,
    which are translated, and on a call with a conditional that has no
    false case and a read of a variable without a name, which are not. *)
Lemma X11_witness :
  (exists r this',
      run_visitExpression ts.ES2015 a_b_c (new_Context false) fresh
      = (Ok r, this'))
  /\
  (exists r this',
      run_visitExpression ts.ES5 hello_a_b (new_Context false) fresh
      = (Ok r, this'))
  /\
  (exists error this',
      run_visitExpression ts.ES2015 call_of_half_conditional
                          (new_Context false) fresh
      = (Throw error, this'))
  /\
  (exists error this',
      run_visitExpression ts.ES2015 (ReadVarExpr None None)
                          (new_Context false) fresh
      = (Throw error, this')).
Proof.
  pose (X11 := fun target =>
          X11_returns_exactly_on_supported_shapes
            (list string) stub_generateNamedImport
            stub_serializeI18nHead stub_serializeI18nTemplatePart
            stub_getMessagePartSourceSpan stub_getPlaceholderSourceSpan
            stub_ExternalReference_toString
            target (new_Context false) fresh).
  split; [|split; [|split]].
  - exact (proj2 (proj1 (X11 ts.ES2015) a_b_c eq_refl) eq_refl).
  - exact (proj2 (proj1 (X11 ts.ES5) hello_a_b eq_refl) eq_refl).
  - exact (proj1 (proj2 (proj2 (X11 ts.ES2015))) call_of_half_conditional
             eq_refl eq_refl).
  - exact (proj1 (proj2 (proj2 (X11 ts.ES2015))) (ReadVarExpr None None)
             eq_refl eq_refl).
Defined.

(** X12 on the localized string with two expressions, at ES2015. *)
Lemma X12_witness :
  ts.ScriptTarget_ge ts.ES2015 ts.ES2015 = true /\
  run_visitExpression ts.ES2015 hello_a_b (new_Context false) fresh
  = (Ok out_hello_modern, fresh).
Proof.
  split; [reflexivity|].
  unfold run_visitExpression, hello_a_b.
  rewrite (proj2 (X12_range_set_twice_is_set_once
                    (list string) stub_generateNamedImport
                    stub_serializeI18nHead stub_serializeI18nTemplatePart
                    stub_getMessagePartSourceSpan
                    stub_getPlaceholderSourceSpan
                    stub_ExternalReference_toString ts.ES2015)
             eq_refl).
  reflexivity.
Defined.

(** [core.Component] of [@angular/core], applied to a wrapped identifier. *)
Definition wrapped_id : ts.Node := ts.createIdentifier "local".

Definition call_with_import : Expression :=
  InvokeFunctionExpr
    (ExternalExpr {| moduleName := Some "@angular/core";
                     name := Some "Component" |} None)
    [WrappedNodeExpr wrapped_id None]
    false None.

(** X13 on it: one import asked for and then one identifier recorded. *)
Lemma X13_witness :
  exists r this' new,
    run_visitExpression ts.ES2015 call_with_import (new_Context false)
                        fresh
    = (Ok r, this') /\
    effects (list string) this' = effects (list string) fresh ++ new /\
    outside new
    = [GenerateNamedImport "@angular/core" "Component";
       RecordUsedIdentifier wrapped_id].
Proof.
  destruct (proj1 (X13_calls_are_those_of_the_input
                     (list string) stub_generateNamedImport
                     stub_serializeI18nHead stub_serializeI18nTemplatePart
                     stub_getMessagePartSourceSpan
                     stub_getPlaceholderSourceSpan
                     stub_ExternalReference_toString ts.ES2015
                     (new_Context false) fresh _ _)
              call_with_import eq_refl)
    as (new & Heffects & Hcalls).
  eexists _, _, new. split; [reflexivity|].
  split; [exact Heffects | exact Hcalls].
Defined.

(** [return 1;] under the line comment [note]. *)
Definition commented_base : StatementBase :=
  {| modifiers := []; stmt_sourceSpan := None;
     leadingComments :=
       Some [ new_LeadingComment "note" false true ] |}.

(** X14 on it. *)
Lemma X14_witness :
  exists r bare,
    run_visitStatement ts.ES2015 (ReturnStatement (number 1) commented_base)
                       (new_Context true) fresh
    = (Ok r, fresh) /\
    r = attachComments bare
          (leadingComments commented_base) /\
    ts.leadingComments bare = [] /\
    ts.syntax bare = ts.ReturnStatement out_one.
Proof.
  destruct (X14_statement_comments_are_its_own
              (list string) stub_generateNamedImport
              stub_serializeI18nHead stub_serializeI18nTemplatePart
              stub_getMessagePartSourceSpan stub_getPlaceholderSourceSpan
              stub_ExternalReference_toString
              ts.ES2015 (ReturnStatement (number 1) commented_base)
              (new_Context true) fresh _ fresh eq_refl)
    as (bare & Hr & Hcomments & _ & Hsyntax & _).
  eexists _, bare. split; [reflexivity|].
  split; [exact Hr|]. split; [exact Hcomments|].
  rewrite Hsyntax. reflexivity.
Defined.
